(** * CS315 SocialNetwork: a shallow embedding of [User.cpp] and
    [SocialNetwork.cpp], and the properties of the follower / mutual
    derivation, the record builder and the store assembler.

    Conventions of the embedding.
    - [unsigned int] is a [Z] in [[0, 2^32)]; a subtraction, an increment or
      a conversion that can leave that range is followed by [to_uint].  A
      counting loop is a run over [seqZ]: the vectors it walks are far
      shorter than 2^31, so its counter does not wrap.
    - [std::string] is [string]; [std::vector<T>] is [list T]; an unchecked
      [operator[]] past the end is the failure [UndefinedBehaviour], a
      checked [.at] past the end is the uncaught exception [out_of_range].
    - [assert] is live (the build does not define [NDEBUG]): a failed
      assertion is the failure [AssertionFailed].
    - A [stringstream] / [ifstream] is the text that is still unread plus
      one flag, [good]; every reading member first tests it, as the
      library's sentry does.
    - [std::sort] is not part of the repository: it is taken through the
      interface [StdSort], which carries exactly what the C++ standard
      promises of it (a permutation, ordered by [operator<]). *)

From stdpp Require Import base numbers list sorting strings.
From Stdlib Require Import ZArith Lia Ascii.

Local Open Scope string_scope.
Local Open Scope list_scope.
Local Open Scope Z_scope.

(* ================================================================== *)
(** ** Outcomes of a call *)
(* ================================================================== *)

Inductive exn := invalid_argument | out_of_range.

Inductive failure :=
| AssertionFailed                 (* assert(e) with e false: abort() *)
| ExitFailure (msg : string)      (* cerr << msg; exit(1) *)
| Uncaught (e : exn)              (* no handler anywhere: std::terminate *)
| UndefinedBehaviour              (* unchecked index out of range *)
| Diverges.                       (* a loop that does not come to an end *)

Inductive outcome (A : Type) :=
| Ret (a : A)
| Fail (f : failure).
Arguments Ret {A} a.
Arguments Fail {A} f.

Definition bind {A B} (c : outcome A) (k : A -> outcome B) : outcome B :=
  match c with
  | Ret a => k a
  | Fail f => Fail f
  end.

Notation "'let*' x := c1 'in' c2" := (bind c1 (fun x => c2))
  (at level 10, x binder, c1 at level 200, c2 at level 200).

Definition assert (b : bool) : outcome unit :=
  if b then Ret tt else Fail AssertionFailed.

#[global] Instance exn_eq_dec : EqDecision exn.
Proof. solve_decision. Defined.
#[global] Instance failure_eq_dec : EqDecision failure.
Proof. solve_decision. Defined.
#[global] Instance outcome_eq_dec {A} `{EqDecision A} : EqDecision (outcome A).
Proof. solve_decision. Defined.

(** [unsigned int] arithmetic. *)
Definition UINT_RANGE : Z := 2 ^ 32.
Definition to_uint (z : Z) : Z := z mod UINT_RANGE.
Definition is_uint (z : Z) : Prop := 0 <= z < UINT_RANGE.

(* ================================================================== *)
(** ** User.h: the record *)
(* ================================================================== *)

Record User := mkUser {
  id : Z;
  name : string;
  location : string;
  pic_url : string;
  follows : list Z
}.

#[global] Instance User_eq_dec : EqDecision User.
Proof. solve_decision. Defined.

Definition string_empty (s : string) : bool :=
  match s with EmptyString => true | String _ _ => false end.

Definition DEFAULT_PIC_URL : string :=
  "https://i.pinimg.com/236x/1c/8b/b2/1c8bb212c3fac9c3393b663c0ed9f6cb.jpg".

(** [User::setDefaultAttributesWhenEmpty] *)
Definition setDefaultAttributesWhenEmpty (u : User) : User :=
  if string_empty (pic_url u)
  then mkUser (id u) (name u) (location u) DEFAULT_PIC_URL (follows u)
  else u.

(** [User::User()] *)
Definition User_default : User := mkUser 0 "" "" "" [].

(** [User::User(id, name, location, pic_url, follows)] *)
Definition User_full (i : Z) (n l p : string) (f : list Z) : User :=
  setDefaultAttributesWhenEmpty (mkUser i n l p f).

(** [User::operator<] *)
Definition User_lt (a b : User) : bool := id a <? id b.

(** [User::isValid] *)
Definition isValid (u : User) : bool := (id u >? 0) && negb (string_empty (name u)).

(** The accessors, each behind [assert(this->isValid())]. *)
Definition getId (u : User) : outcome Z :=
  let* _ := assert (isValid u) in Ret (id u).
Definition getName (u : User) : outcome string :=
  let* _ := assert (isValid u) in Ret (name u).
Definition getLocation (u : User) : outcome string :=
  let* _ := assert (isValid u) in Ret (location u).
Definition getPicUrl (u : User) : outcome string :=
  let* _ := assert (isValid u) in Ret (pic_url u).
Definition getFollows (u : User) : outcome (list Z) :=
  let* _ := assert (isValid u) in Ret (follows u).
Definition getFollowsSize (u : User) : outcome Z :=
  let* _ := assert (isValid u) in Ret (to_uint (Z.of_nat (length (follows u)))).

(** [follows.at(i)]: the [int] index is converted to [size_t]; a negative
    one becomes a huge index and is out of range like any other. *)
Definition getFollowsIdAt (u : User) (i : Z) : outcome Z :=
  let* _ := assert (isValid u) in
  if (0 <=? i) then
    match follows u !! Z.to_nat i with
    | Some f => Ret f
    | None => Fail (Uncaught out_of_range)
    end
  else Fail (Uncaught out_of_range).

(* ================================================================== *)
(** ** SocialNetwork.h: the network and its queries *)
(* ================================================================== *)

Record SocialNetwork := mkNet {
  numUsers : Z;
  followerRelationShips : list (list bool);
  users : list User;
  userNames : list string
}.

(** [SocialNetwork::isFollowing] *)
Definition isFollowing (sn : SocialNetwork) (followerID followedID : Z) : outcome bool :=
  let* _ := assert ((followerID >? 0) && (followedID >? 0)) in
  match followerRelationShips sn !! Z.to_nat (followerID - 1) with
  | None => Fail UndefinedBehaviour
  | Some row =>
      match row !! Z.to_nat (followedID - 1) with
      | None => Fail UndefinedBehaviour
      | Some cell => Ret cell
      end
  end.

(** The body of the loop of [getFollowerAndMutualsFromId], run over the
    values [otherID] takes. *)
Fixpoint scanOthers (sn : SocialNetwork) (currID : Z) (others : list Z)
    (followers mutuals : list Z) : outcome (list Z * list Z) :=
  match others with
  | [] => Ret (followers, mutuals)
  | otherID :: rest =>
      if bool_decide (currID <> otherID) then
        let* b := isFollowing sn otherID currID in
        if (b : bool) then
          let followers' := followers ++ [otherID] in
          let* m := isFollowing sn currID otherID in
          if (m : bool)
          then scanOthers sn currID rest followers' (mutuals ++ [otherID])
          else scanOthers sn currID rest followers' mutuals
        else scanOthers sn currID rest followers mutuals
      else scanOthers sn currID rest followers mutuals
  end.

(** [SocialNetwork::getFollowerAndMutualsFromId]: [otherID] runs from 1 to
    [numUsers]; the two vectors come in by reference and are appended to. *)
Definition getFollowerAndMutualsFromId (sn : SocialNetwork)
    (followers mutuals : list Z) (currID : Z) : outcome (list Z * list Z) :=
  scanOthers sn currID (seqZ 1 (numUsers sn)) followers mutuals.

(** *** Building the relationship matrix (constructor, second half) *)

(** The inner loop: [j] runs over [0 .. getFollowsSize()-1]. *)
Fixpoint markFollows (curUser : User) (js : list Z) (row : list bool)
    : outcome (list bool) :=
  match js with
  | [] => Ret row
  | j :: rest =>
      let* f := getFollowsIdAt curUser j in
      let followerIndex := to_uint (f - 1) in
      if followerIndex <? Z.of_nat (length row)
      then markFollows curUser rest (<[Z.to_nat followerIndex := true]> row)
      else Fail UndefinedBehaviour
  end.

(** One turn of the outer loop: the row and the name of [users[i]]. *)
Definition buildRow (n : Z) (us : list User) (i : Z) : outcome (list bool * string) :=
  match us !! Z.to_nat i with
  | None => Fail UndefinedBehaviour
  | Some curUser =>
      let row := replicate (Z.to_nat n) false in
      let* size := getFollowsSize curUser in
      let* row' := markFollows curUser (seqZ 0 size) row in
      let* nm := getName curUser in
      Ret (row', nm)
  end.

Fixpoint buildRows (n : Z) (us : list User) (idxs : list Z)
    (m : list (list bool)) (names : list string)
    : outcome (list (list bool) * list string) :=
  match idxs with
  | [] => Ret (m, names)
  | i :: rest =>
      let* '(row, nm) := buildRow n us i in
      buildRows n us rest (m ++ [row]) (names ++ [nm])
  end.

(** Lines 122-145 of SocialNetwork.cpp. *)
Definition buildMatrix (n : Z) (us : list User) : outcome SocialNetwork :=
  let* '(m, names) := buildRows n us (seqZ 0 n) [] [] in
  Ret (mkNet n m us names).

(* ================================================================== *)
(** ** Input streams *)
(* ================================================================== *)

(** The text not yet read, and whether the stream is still [good()].  A
    member that reads first tests [good]; on a stream that is not good it
    reads nothing and leaves its output argument as it was. *)
Record sstream := mkSS { unread : string; good : bool }.

Definition sstream_of (s : string) : sstream := mkSS s true.

Definition DQUOTE : ascii := "034"%char.
Definition TAB : ascii := "009"%char.

(** [cut d s]: the text of [s] before the first [d] and the text after it. *)
Fixpoint cut (d : ascii) (s : string) : option (string * string) :=
  match s with
  | EmptyString => None
  | String c s' =>
      if Ascii.eqb c d then Some (EmptyString, s')
      else match cut d s' with
           | Some (before, after) => Some (String c before, after)
           | None => None
           end
  end.

(** [ss.peek()]; [None] is EOF. *)
Definition peek (ss : sstream) : option ascii * sstream :=
  if good ss then
    match unread ss with
    | EmptyString => (None, mkSS EmptyString false)
    | String c _ => (Some c, ss)
    end
  else (None, ss).

(** [ss.get()] *)
Definition get (ss : sstream) : option ascii * sstream :=
  if good ss then
    match unread ss with
    | EmptyString => (None, mkSS EmptyString false)
    | String c s' => (Some c, mkSS s' true)
    end
  else (None, ss).

(** [ss.ignore(numeric_limits<streamsize>::max(), d)] *)
Definition ignore_until (d : ascii) (ss : sstream) : sstream :=
  if good ss then
    match cut d (unread ss) with
    | Some (_, after) => mkSS after true
    | None => mkSS EmptyString false
    end
  else ss.

(** [ss.ignore()] *)
Definition ignore1 (ss : sstream) : sstream :=
  if good ss then
    match unread ss with
    | EmptyString => mkSS EmptyString false
    | String _ s' => mkSS s' true
    end
  else ss.

(** [getline(ss, str, d)]: [str] is the previous content of the target. *)
Definition getline (ss : sstream) (str : string) (d : ascii) : string * sstream :=
  if good ss then
    match cut d (unread ss) with
    | Some (before, after) => (before, mkSS after true)
    | None => (unread ss, mkSS EmptyString false)
    end
  else (str, ss).

(* ================================================================== *)
(** ** User.cpp: the record builder *)
(* ================================================================== *)

Definition code (c : ascii) : Z := Z.of_N (N_of_ascii c).

Definition isspace (c : ascii) : bool :=
  (code c =? 32) || ((9 <=? code c) && (code c <=? 13)).

Definition digit_of (c : ascii) : option Z :=
  if (48 <=? code c) && (code c <=? 57) then Some (code c - 48) else None.

Fixpoint skip_spaces (s : string) : string :=
  match s with
  | String c s' => if isspace c then skip_spaces s' else s
  | EmptyString => s
  end.

(** The digits at the front of [s], read in base ten; [acc] is [None] until
    a first digit has been seen. *)
Fixpoint read_digits (s : string) (acc : option Z) : option Z :=
  match s with
  | String c s' =>
      match digit_of c with
      | Some d => read_digits s' (Some (10 * default 0 acc + d))
      | None => acc
      end
  | EmptyString => acc
  end.

Definition INT_MIN : Z := - 2 ^ 31.
Definition INT_MAX : Z := 2 ^ 31 - 1.

(** [std::stoi(s)]: white space, an optional sign, then digits; whatever
    follows the digits is left alone.  No digit: [invalid_argument]; a
    value that is no [int]: [out_of_range]. *)
Definition stoi (s : string) : outcome Z :=
  let s1 := skip_spaces s in
  let '(negative, s2) :=
    match s1 with
    | String c s' =>
        if Ascii.eqb c "-" then (true, s')
        else if Ascii.eqb c "+" then (false, s')
        else (false, s1)
    | EmptyString => (false, s1)
    end in
  match read_digits s2 None with
  | None => Fail (Uncaught invalid_argument)
  | Some v =>
      let r := if negative then - v else v in
      if (INT_MIN <=? r) && (r <=? INT_MAX) then Ret r
      else Fail (Uncaught out_of_range)
  end.

Definition is_comma_or_quote (c : option ascii) : bool :=
  match c with
  | Some c => Ascii.eqb c "," || Ascii.eqb c DQUOTE
  | None => false
  end.

(** The loop of [stringArrayToUnsignedIntVector].  [val_str] lives outside
    the loop in the source, so a [getline] that fails leaves the previous
    token in it.  The condition peeks twice; a second [peek] sees and leaves
    what the first did.  Every turn that goes on reads at least one
    character, so the length of the text bounds the number of turns. *)
Fixpoint parseIds (fuel : nat) (arraySS : sstream) (val_str : string) (arr : list Z)
    : outcome (list Z) :=
  match fuel with
  | O => Fail Diverges
  | S fuel' =>
      let '(c, arraySS) := peek arraySS in
      if is_comma_or_quote c then
        let arraySS := ignore_until DQUOTE arraySS in
        let '(val_str, arraySS) := getline arraySS val_str DQUOTE in
        let* v := stoi val_str in
        parseIds fuel' arraySS val_str (arr ++ [to_uint v])
      else Ret arr
  end.

(** [User::stringArrayToUnsignedIntVector] *)
Definition stringArrayToUnsignedIntVector (arrayString : string) : outcome (list Z) :=
  parseIds (S (String.length arrayString)) (sstream_of arrayString) EmptyString [].

(** [User::getAttributeTitle] *)
Definition getAttributeTitle (inputLine : sstream) : string * sstream :=
  let inputLine := ignore_until DQUOTE inputLine in
  getline inputLine EmptyString DQUOTE.

(** [User::getAttributeData] *)
Definition getAttributeData (inputLine : sstream) : outcome (string * sstream) :=
  let inputLine := ignore_until ":" inputLine in
  let inputLine := ignore1 inputLine in
  let '(c, inputLine) := peek inputLine in
  let* _ := assert (match c with
                    | Some c => Ascii.eqb c DQUOTE || Ascii.eqb c "["
                    | None => false
                    end) in
  let '(c, inputLine) := get inputLine in
  let delimiter :=
    match c with
    | Some c => if Ascii.eqb c "[" then "]"%char else c
    | None => "255"%char
    end in
  Ret (getline inputLine EmptyString delimiter).

Definition unrecognized (title : string) : string :=
  "COULD NOT SET ATTRIBUTE - " +:+ title +:+ " - IS NOT A RECOGNIZED USER ATTRIBUTE TYPE".

(** [User::setAttribute] *)
Definition setAttribute (u : User) (title data : string) : outcome User :=
  let* _ := assert (negb (string_empty title)) in
  if String.eqb title "follows" then
    let* f := stringArrayToUnsignedIntVector data in
    Ret (mkUser (id u) (name u) (location u) (pic_url u) f)
  else
    let* _ := assert (negb (string_empty data)) in
    if String.eqb title "id_str" then
      let* v := stoi data in
      Ret (mkUser (to_uint v) (name u) (location u) (pic_url u) (follows u))
    else if String.eqb title "name" then
      Ret (mkUser (id u) data (location u) (pic_url u) (follows u))
    else if String.eqb title "pic_url" then
      Ret (mkUser (id u) (name u) (location u) data (follows u))
    else if String.eqb title "location" then
      Ret (mkUser (id u) (name u) data (pic_url u) (follows u))
    else Fail (ExitFailure (unrecognized title)).

(** The loop of [User::User(stringstream&)]. *)
Fixpoint readAttributes (fuel : nat) (ss : sstream) (u : User) : outcome User :=
  match fuel with
  | O => Fail Diverges
  | S fuel' =>
      if good ss then
        let '(c, ss) := peek ss in
        if bool_decide (c = Some TAB) then Ret u
        else
          let '(title, ss) := getAttributeTitle ss in
          let* '(data, ss) := getAttributeData ss in
          let* u := setAttribute u title data in
          let ss := ignore1 ss in
          readAttributes fuel' ss u
      else Ret u
  end.

(** [User::User(stringstream&)].  The constructor does not initialise [id]:
    [id0] is whatever the member holds before [id_str] is read. *)
Definition User_of_stream (id0 : Z) (ss : sstream) : outcome User :=
  let* u := readAttributes (S (String.length (unread ss))) ss
              (mkUser id0 EmptyString EmptyString EmptyString []) in
  Ret (setDefaultAttributesWhenEmpty u).

(* ================================================================== *)
(** ** SocialNetwork.cpp: the store assembler *)
(* ================================================================== *)

(** [std::sort(first, last)] over [User::operator<], by its contract. *)
Class StdSort := {
  std_sort : list User -> list User;
  std_sort_perm : forall l, std_sort l ≡ₚ l;
  std_sort_sorted : forall l,
    StronglySorted (fun a b => User_lt b a = false) (std_sort l)
}.

(** The locals of the constructor while it reads the file. *)
Record ingestion := mkIngest {
  ing_users : list User;
  ing_numUsers : Z;
  userSortingNeeded : bool;
  nextExpectedID : Z
}.

Definition ingest_init : ingestion := mkIngest [] 0 false 1.

(** Lines 100-109: what one turn of the reading loop does with the user it
    has just built. *)
Definition ingestUser (st : ingestion) (newUser : User) : outcome ingestion :=
  let* _ := assert (isValid newUser) in
  let us := ing_users st ++ [newUser] in
  let* i := getId newUser in
  let sorting := if bool_decide (i <> nextExpectedID st) then true
                 else userSortingNeeded st in
  Ret (mkIngest us (to_uint (ing_numUsers st + 1)) sorting
         (to_uint (nextExpectedID st + 1))).

Fixpoint ingestAll (st : ingestion) (records : list User) : outcome ingestion :=
  match records with
  | [] => Ret st
  | r :: rest => let* st' := ingestUser st r in ingestAll st' rest
  end.

(** Lines 88-111.  [userData] is declared before the loop; the loop has no
    bound of its own, [fuel] is the number of turns it is given. *)
Fixpoint readUsers (fuel : nat) (id0 : Z) (inFS : sstream) (userData : string)
    (st : ingestion) : outcome ingestion :=
  match fuel with
  | O => Fail Diverges
  | S fuel' =>
      let '(c, inFS) := peek inFS in
      if bool_decide (c = Some "]"%char) then Ret st
      else
        let inFS := ignore_until "{" inFS in
        let '(userData, inFS) := getline inFS userData "}" in
        let* newUser := User_of_stream id0 (sstream_of userData) in
        let* st' := ingestUser st newUser in
        let inFS := ignore1 inFS in
        readUsers fuel' id0 inFS userData st'
  end.

(** Lines 116-119: the vector after the sorting step. *)
Definition sortUsers `{StdSort} (st : ingestion) : list User :=
  if userSortingNeeded st then std_sort (ing_users st) else ing_users st.

(** Lines 116-145: sort when flagged, then build matrix and names. *)
Definition assemble `{StdSort} (st : ingestion) : outcome SocialNetwork :=
  buildMatrix (ing_numUsers st) (sortUsers st).

(** The constructor, from the records in the order the file yields them. *)
Definition SocialNetwork_of_records `{StdSort} (records : list User)
    : outcome SocialNetwork :=
  let* st := ingestAll ingest_init records in
  assemble st.

(** [SocialNetwork::SocialNetwork(const string&)]; [file] is the content of
    the named file, [None] when it cannot be opened. *)
Definition SocialNetwork_of_file `{StdSort} (fuel : nat) (id0 : Z)
    (file : option string) : outcome SocialNetwork :=
  match file with
  | None => Fail AssertionFailed
  | Some text =>
      let inFS := ignore_until "[" (sstream_of text) in
      let* st := readUsers fuel id0 inFS EmptyString ingest_init in
      assemble st
  end.

(* ================================================================== *)
(** ** Page generation and main.cpp *)
(* ================================================================== *)

(** What the run leaves on disk: a file exists from the moment it is
    opened for writing. *)
Inductive artifact :=
| IndexHtml
| UserHtml (i : Z).

(** [v.at(i - 1)] for an unsigned [i]. *)
Definition at_id {A} (v : list A) (i : Z) : outcome A :=
  match v !! Z.to_nat (to_uint (i - 1)) with
  | Some a => Ret a
  | None => Fail (Uncaught out_of_range)
  end.

Fixpoint forEach {A} (f : A -> outcome unit) (l : list A) : outcome unit :=
  match l with
  | [] => Ret tt
  | a :: rest => let* _ := f a in forEach f rest
  end.

(** [SocialNetwork::createIndexHTMLFile] *)
Definition createIndexHTMLFile (sn : SocialNetwork) : list artifact * outcome unit :=
  ([IndexHtml],
   forEach (fun currUserID => let* _ := at_id (userNames sn) currUserID in Ret tt)
           (seqZ 1 (numUsers sn))).

(** [User::addHTMLUnorderedUserList] *)
Definition addHTMLUnorderedUserList (names : list string) (otherIDsList : list Z)
    : outcome unit :=
  forEach (fun otherID => let* _ := at_id names otherID in Ret tt) otherIDsList.

(** [User::generateUserHTMLProfilePage] *)
Definition generateUserHTMLProfilePage (u : User) (names : list string)
    (followersIDs mutualIds : list Z) : list artifact * outcome unit :=
  if isValid u then
    ([UserHtml (id u)],
     let* _ := addHTMLUnorderedUserList names (follows u) in
     let* _ := addHTMLUnorderedUserList names followersIDs in
     addHTMLUnorderedUserList names mutualIds)
  else ([], Fail AssertionFailed).

(** The loop of [SocialNetwork::createAllUserHTMLPAGES]. *)
Fixpoint userPages (sn : SocialNetwork) (ids : list Z) : list artifact * outcome unit :=
  match ids with
  | [] => ([], Ret tt)
  | currID :: rest =>
      match at_id (users sn) currID with
      | Fail f => ([], Fail f)
      | Ret currUser =>
          match getFollowerAndMutualsFromId sn [] [] currID with
          | Fail f => ([], Fail f)
          | Ret (followersIDs, mutualsIDs) =>
              match generateUserHTMLProfilePage currUser (userNames sn)
                      followersIDs mutualsIDs with
              | (out, Fail f) => (out, Fail f)
              | (out, Ret _) =>
                  let '(out', r) := userPages sn rest in (out ++ out', r)
              end
          end
      end
  end.

Definition createAllUserHTMLPAGES (sn : SocialNetwork) : list artifact * outcome unit :=
  match users sn with
  | [] => ([], Fail AssertionFailed)
  | _ => userPages sn (seqZ 1 (numUsers sn))
  end.

(** [SocialNetwork::createAllHTMLFiles] *)
Definition createAllHTMLFiles (sn : SocialNetwork) : list artifact * outcome unit :=
  if numUsers sn <? 1 then
    ([], Fail (ExitFailure "CANNOT CREATE ALL SOCIAL NETWORK HTML FILES GIVEN ZERO USERS"))
  else
    match createIndexHTMLFile sn with
    | (out, Fail f) => (out, Fail f)
    | (out, Ret _) =>
        let '(out', r) := createAllUserHTMLPAGES sn in (out ++ out', r)
    end.

(** [main]: [args] are the command-line arguments after the program name,
    [fs] gives the content of the files that can be opened. *)
Definition main `{StdSort} (fuel : nat) (id0 : Z) (args : list string)
    (fs : string -> option string) : list artifact * outcome unit :=
  match args with
  | [] => ([], Fail (ExitFailure "ERROR -- INVALID NUMBER OF ARGUMENTS PROVIDED -- TERMINATING"))
  | input_filename :: _ =>
      match SocialNetwork_of_file fuel id0 (fs input_filename) with
      | Fail f => ([], Fail f)
      | Ret sn => createAllHTMLFiles sn
      end
  end.

(* ================================================================== *)
(** ** Vocabulary of the statements *)
(* ================================================================== *)

(** The cell of the matrix at row [r], column [c] (both from 0). *)
Definition cell (sn : SocialNetwork) (r c : nat) : option bool :=
  match followerRelationShips sn !! r with
  | Some row => row !! c
  | None => None
  end.

(** The matrix is square, of side [numUsers]. *)
Definition square (sn : SocialNetwork) : Prop :=
  length (followerRelationShips sn) = Z.to_nat (numUsers sn) /\
  Forall (fun row : list bool => length row = Z.to_nat (numUsers sn))
         (followerRelationShips sn).


(** The followers and the mutuals of [currID] in the words of the
    specification: the ids [o] of [1..N] other than [currID] with
    [isFollowing(o, currID)], and among them those with
    [isFollowing(currID, o)]; both in the order of the scan. *)
Definition spec_followers (sn : SocialNetwork) (currID : Z) : list Z :=
  filter (fun o => o <> currID /\ isFollowing sn o currID = Ret true)
         (seqZ 1 (numUsers sn)).

Definition spec_mutuals (sn : SocialNetwork) (currID : Z) : list Z :=
  filter (fun o => isFollowing sn currID o = Ret true) (spec_followers sn currID).

(** The row a follows list leaves behind, entry by entry. *)
Fixpoint markAll (fs : list Z) (row : list bool) : outcome (list bool) :=
  match fs with
  | [] => Ret row
  | f :: rest =>
      let followerIndex := to_uint (f - 1) in
      if followerIndex <? Z.of_nat (length row)
      then markAll rest (<[Z.to_nat followerIndex := true]> row)
      else Fail UndefinedBehaviour
  end.

(** The values of a record are values of their C++ types: the id and the
    followed ids are [unsigned int]s, and the follows vector is short enough
    for the [int] that indexes it. *)
Definition uintb (z : Z) : bool := (0 <=? z) && (z <? UINT_RANGE).

Definition fits (u : User) : bool :=
  uintb (id u) && forallb uintb (follows u)
  && (Z.of_nat (length (follows u)) <? 2 ^ 31).

(** Some record does not carry the id the counter expects, the counter
    standing at [next] for the first record. *)
Fixpoint mismatch (next : Z) (records : list User) : bool :=
  match records with
  | [] => false
  | r :: rest => bool_decide (id r <> next) || mismatch (to_uint (next + 1)) rest
  end.

(** Ascending by id, in the sense of [std::sort]: no later record is less
    than an earlier one. *)
Definition ascending (l : list User) : Prop :=
  StronglySorted (fun a b => User_lt b a = false) l.

(** A follows value as the input format writes it: the tokens between
    double quotes, separated by commas. *)
Fixpoint render_tail (ts : list string) : string :=
  match ts with
  | [] => EmptyString
  | t :: ts' =>
      String "," (String DQUOTE (t +:+ String DQUOTE (render_tail ts')))
  end.

Definition render (ts : list string) : string :=
  match ts with
  | [] => EmptyString
  | t :: ts' => String DQUOTE (t +:+ String DQUOTE (render_tail ts'))
  end.

Fixpoint occurs (d : ascii) (s : string) : bool :=
  match s with
  | EmptyString => false
  | String c s' => Ascii.eqb c d || occurs d s'
  end.

(** The tokens converted one after the other, each appended to [arr]; the
    first token [stoi] refuses ends the conversion. *)
Fixpoint convertAll (ts : list string) (arr : list Z) : outcome (list Z) :=
  match ts with
  | [] => Ret arr
  | t :: ts' => let* v := stoi t in convertAll ts' (arr ++ [to_uint v])
  end.

(** A token begins with a number: after white space and one optional sign
    comes a digit. *)
Definition starts_with_digit (s : string) : bool :=
  match s with
  | String c _ => match digit_of c with Some _ => true | None => false end
  | EmptyString => false
  end.

Definition strip_sign (s : string) : string :=
  match s with
  | String c s' => if Ascii.eqb c "-" || Ascii.eqb c "+" then s' else s
  | EmptyString => s
  end.

Definition numeric_prefix (t : string) : bool :=
  starts_with_digit (strip_sign (skip_spaces t)).

(** The number a token begins with: the digits that come after white space
    and one optional sign, read in base ten, negated behind a minus sign. *)
Fixpoint leading_digits (s : string) : list Z :=
  match s with
  | String c s' =>
      match digit_of c with
      | Some d => d :: leading_digits s'
      | None => []
      end
  | EmptyString => []
  end.

Definition decimal (ds : list Z) : Z := foldl (fun acc d => 10 * acc + d) 0 ds.

Definition minus_sign (s : string) : bool :=
  match s with
  | String c _ => Ascii.eqb c "-"
  | EmptyString => false
  end.

Definition leading_number (t : string) : Z :=
  let n := decimal (leading_digits (strip_sign (skip_spaces t))) in
  if minus_sign (skip_spaces t) then - n else n.

(** A token begins with a number that is an [int]. *)
Definition int_token (t : string) : bool :=
  numeric_prefix t && (INT_MIN <=? leading_number t) && (leading_number t <=? INT_MAX).

(** The attribute titles [setAttribute] knows. *)
Definition vocabulary : list string :=
  ["id_str"; "name"; "location"; "pic_url"; "follows"].

(** A numeric text: one digit or more, and nothing else. *)
Fixpoint only_digits (s : string) : bool :=
  match s with
  | EmptyString => true
  | String c s' => match digit_of c with Some _ => only_digits s' | None => false end
  end.

Definition numeric (s : string) : bool := negb (string_empty s) && only_digits s.

(** The sort the specification speaks of, stable and ascending by id:
    each record is put in front of the first later record whose id is not
    smaller, so records with one id stay in their order of arrival. *)
Fixpoint insert_before_equals (u : User) (l : list User) : list User :=
  match l with
  | [] => [u]
  | v :: l' => if User_lt v u then v :: insert_before_equals u l' else u :: l
  end.

Definition stable_sort_by_id (l : list User) : list User :=
  foldr insert_before_equals [] l.

(* ================================================================== *)
(** ** Concrete inputs *)
(* ================================================================== *)

(** Sample texts are written with an apostrophe for the double quote, a
    dollar for the tab and a bar for the line feed. *)
Definition plain_char (c : ascii) : ascii :=
  if Ascii.eqb c "'" then DQUOTE
  else if Ascii.eqb c "$" then TAB
  else if Ascii.eqb c "|" then "010"%char
  else c.

Fixpoint text (s : string) : string :=
  match s with
  | EmptyString => EmptyString
  | String c s' => String (plain_char c) (text s')
  end.

(** The text of one record, between its braces. *)
Definition bob_text : string :=
  text "|$$'id_str': '2',|$$'name': 'Bob',|$$'follows': ['1']|$".

(** The scenario of the specification: 1 follows 2 and 3, 2 follows 1,
    3 follows nobody. *)
Definition alice : User := mkUser 1 "Alice" "Rohnert Park" DEFAULT_PIC_URL [2; 3].
Definition bob : User := mkUser 2 "Bob" EmptyString DEFAULT_PIC_URL [1].
Definition carol : User := mkUser 3 "Carol" EmptyString DEFAULT_PIC_URL [].

Definition trio : list User := [alice; bob; carol].

Definition trio_net : SocialNetwork :=
  mkNet 3 [[false; true; true]; [true; false; false]; [false; false; false]]
        trio ["Alice"; "Bob"; "Carol"].

(** Two records, the first of which claims to follow itself. *)
Definition narcissus : User := mkUser 1 "Narcissus" EmptyString DEFAULT_PIC_URL [1; 2].
Definition echo : User := mkUser 2 "Echo" EmptyString DEFAULT_PIC_URL [1].

Definition pair_net : SocialNetwork :=
  mkNet 2 [[true; true]; [true; false]] [narcissus; echo] ["Narcissus"; "Echo"].

(** A file whose second record carries an [email] attribute. *)
Definition email_file : string :=
  text ("[|${|$$'id_str': '1',|$$'name': 'Al',|$$'follows': ['2']|$},"
        +:+ "|${|$$'id_str': '2',|$$'email': 'bo@example.org',|$$'name': 'Bo'|$}|]").

(** A file whose first record follows a token that is no number. *)
Definition four_file : string :=
  text ("[|${|$$'id_str': '1',|$$'name': 'Al',|$$'follows': ['2','four']|$},"
        +:+ "|${|$$'id_str': '2',|$$'name': 'Bo',|$$'follows': []|$}|]").

(** The same with an empty [email] value. *)
Definition empty_email_file : string :=
  text ("[|${|$$'id_str': '1',|$$'name': 'Al',|$$'follows': ['2']|$},"
        +:+ "|${|$$'id_str': '2',|$$'email': '',|$$'name': 'Bo'|$}|]").

Definition one_file (content : string) (filename : string) : option string :=
  Some content.

(** Two records with one id. *)
Definition castor : User := mkUser 1 "Castor" EmptyString DEFAULT_PIC_URL [].
Definition pollux : User := mkUser 1 "Pollux" EmptyString DEFAULT_PIC_URL [].

(** The scenario as a file, the records out of order. *)
Definition sample_file : string :=
  text ("[|${|$$'id_str': '2',|$$'name': 'Bob',|$$'follows': ['1']|$},"
        +:+ "|${|$$'id_str': '1',|$$'name': 'Alice',|$$'location': 'Rohnert Park',"
        +:+ "|$$'follows': ['2','3']|$},"
        +:+ "|${|$$'id_str': '3',|$$'name': 'Carol',|$$'follows': []|$}|]").

(** The same, cut off after the first record: the closing bracket never
    comes. *)
Definition truncated_file : string :=
  text "[|${|$$'id_str': '1',|$$'name': 'Alice',|$$'follows': []|$}".


(* ================================================================== *)
(** * Further definitions *)
(* ================================================================== *)

(** The other comparison operators of [User], [std::to_string], the
    members an attribute sets, and the input format written out, which
    the properties of the last part read back. *)

(** [User::operator==] *)
Definition User_eqb (a b : User) : bool :=
  (id a =? id b) && String.eqb (name a) (name b)
  && String.eqb (location a) (location b)
  && String.eqb (pic_url a) (pic_url b)
  && bool_decide (follows a = follows b).

(** [User::operator!=] *)
Definition User_neb (a b : User) : bool := negb (User_eqb a b).

(** [User::operator<=] *)
Definition User_le (a b : User) : bool := id a <=? id b.

(** [User::operator>] *)
Definition User_gt (a b : User) : bool := negb (User_le a b).

(** [User::operator>=] *)
Definition User_ge (a b : User) : bool := negb (User_lt a b).

(** A record that follows the id 4 in a collection of three. *)
Definition dave : User := mkUser 3 "Dave" EmptyString DEFAULT_PIC_URL [1; 4].

(** A network of three whose third user follows the id 4. *)
Definition dave_net : SocialNetwork :=
  mkNet 3 [[false; true; true]; [true; false; false]; [true; false; false]]
        [alice; bob; dave] ["Alice"; "Bob"; "Dave"].

(** [std::to_string(unsigned)], the decimal digits of [n]; an
    [unsigned int] has ten of them at most. *)
Definition digit_char (d : Z) : ascii := ascii_of_N (Z.to_N (48 + d)).

Fixpoint to_string_from (fuel : nat) (n : Z) (acc : string) : string :=
  match fuel with
  | O => acc
  | S fuel' =>
      let acc' := String (digit_char (n mod 10)) acc in
      if n <? 10 then acc' else to_string_from fuel' (n / 10) acc'
  end.

Definition to_string (n : Z) : string := to_string_from 10 n EmptyString.

(** What an attribute sets, once its text is read. *)
Inductive field :=
| FId (v : Z)
| FName (s : string)
| FLocation (s : string)
| FPicUrl (s : string)
| FFollows (l : list Z).

Definition set_field (f : field) (u : User) : User :=
  match f with
  | FId v => mkUser v (name u) (location u) (pic_url u) (follows u)
  | FName s => mkUser (id u) s (location u) (pic_url u) (follows u)
  | FLocation s => mkUser (id u) (name u) s (pic_url u) (follows u)
  | FPicUrl s => mkUser (id u) (name u) (location u) s (follows u)
  | FFollows l => mkUser (id u) (name u) (location u) (pic_url u) l
  end.

(** The member a field is. *)
Definition member (f : field) : string :=
  match f with
  | FId _ => "id_str"
  | FName _ => "name"
  | FLocation _ => "location"
  | FPicUrl _ => "pic_url"
  | FFollows _ => "follows"
  end.

(** The checks and conversions of [setAttribute], apart from the user. *)
Definition read_field (title data : string) : outcome field :=
  let* _ := assert (negb (string_empty title)) in
  if String.eqb title "follows" then
    let* l := stringArrayToUnsignedIntVector data in Ret (FFollows l)
  else
    let* _ := assert (negb (string_empty data)) in
    if String.eqb title "id_str" then
      let* v := stoi data in Ret (FId (to_uint v))
    else if String.eqb title "name" then Ret (FName data)
    else if String.eqb title "pic_url" then Ret (FPicUrl data)
    else if String.eqb title "location" then Ret (FLocation data)
    else Fail (ExitFailure (unrecognized title)).

Definition NEWLINE : ascii := "010"%char.

(** The value of an attribute: a text between double quotes, or tokens
    between square brackets. *)
Inductive attr_value :=
| Scalar (s : string)
| Array (ts : list string).

(** The text [setAttribute] is to receive for a value. *)
Definition raw_value (v : attr_value) : string :=
  match v with
  | Scalar s => s
  | Array ts => render ts
  end.

(** A value as the file has it, [rest] following. *)
Definition write_value (v : attr_value) (rest : string) : string :=
  match v with
  | Scalar s => String DQUOTE (s +:+ String DQUOTE rest)
  | Array ts => String "[" (render ts +:+ String "]" rest)
  end.

(** One attribute as the file has it: a line feed, two tabs, the title
    between double quotes, a colon, a space, the value; [rest] follows. *)
Definition write_attr (title : string) (v : attr_value) (rest : string) : string :=
  String NEWLINE (String TAB (String TAB (String DQUOTE
    (title +:+ String DQUOTE (String ":" (String " " (write_value v rest))))))).

(** The attributes of one record, a comma after each but the last, a line
    feed and a tab after the last. *)
Fixpoint write_attrs (attrs : list (string * attr_value)) (rest : string) : string :=
  match attrs with
  | [] => String TAB rest
  | (t, v) :: attrs' =>
      write_attr t v
        (String (match attrs' with [] => NEWLINE | _ :: _ => ","%char end)
                (write_attrs attrs' rest))
  end.

Definition writable_attr (a : string * attr_value) : Prop :=
  occurs DQUOTE a.1 = false /\
  match a.2 with
  | Scalar s => occurs DQUOTE s = false
  | Array ts => Forall (fun t => occurs DQUOTE t = false /\ occurs "]" t = false) ts
  end.

(** The attributes set one after the other. *)
Fixpoint setAttributes (u : User) (attrs : list (string * attr_value)) : outcome User :=
  match attrs with
  | [] => Ret u
  | (t, v) :: attrs' =>
      let* u' := setAttribute u t (raw_value v) in setAttributes u' attrs'
  end.

(** The attributes of a user as the input format lists them; an empty
    location or picture URL is not written. *)
Definition attrs_of (u : User) : list (string * attr_value) :=
  [("id_str", Scalar (to_string (id u))); ("name", Scalar (name u))]
  ++ (if string_empty (location u) then [] else [("location", Scalar (location u))])
  ++ (if string_empty (pic_url u) then [] else [("pic_url", Scalar (pic_url u))])
  ++ [("follows", Array (to_string <$> follows u))].

Definition write_user (u : User) (rest : string) : string :=
  write_attrs (attrs_of u) rest.

(** A text that can stand between double quotes inside a record. *)
Definition plain (s : string) : Prop :=
  occurs DQUOTE s = false /\ occurs "}" s = false.

(** A user the format can express: id and followed ids are [int]s that
    are not negative, the name is not empty, and no text holds a double
    quote or a closing brace. *)
Definition writable (u : User) : Prop :=
  0 <= id u <= INT_MAX /\
  string_empty (name u) = false /\
  plain (name u) /\ plain (location u) /\ plain (pic_url u) /\
  Forall (fun f => 0 <= f <= INT_MAX) (follows u).

(** The records of a file: each between braces after a line feed and a
    tab, a comma after each but the last, a line feed after the last, then
    the closing bracket. *)
Fixpoint write_users (us : list User) (rest : string) : string :=
  match us with
  | [] => String "]" rest
  | u :: us' =>
      String NEWLINE (String TAB (String "{"
        (write_user u
           (String "}"
              (String (match us' with [] => NEWLINE | _ :: _ => ","%char end)
                      (write_users us' rest))))))
  end.

Definition write_file (us : list User) : string :=
  String "[" (write_users us EmptyString).

(** The stream can no longer give a record: it has failed, or what is
    left of it neither begins with the closing bracket nor holds an opening
    brace. *)
Definition exhausted (inFS : sstream) : Prop :=
  good inFS = false \/
  match unread inFS with
  | EmptyString => True
  | String c _ => c <> "]"%char /\ occurs "{" (unread inFS) = false
  end.

Definition CR : ascii := "013"%char.

(** The failures the record builder has of its own: a failed assertion,
    the report of an unrecognised attribute, an exception of [stoi]. *)
Definition builder_failure (f : failure) : Prop :=
  f = AssertionFailed \/
  (exists title, f = ExitFailure (unrecognized title)) \/
  (exists e, f = Uncaught e).

(* ================================================================== *)
(** * Properties *)
(* ================================================================== *)

(** ** The outcome monad *)

Lemma bind_Ret_inv {A B} (c : outcome A) (k : A -> outcome B) b :
  bind c k = Ret b -> exists a, c = Ret a /\ k a = Ret b.
Proof. destruct c as [a|f]; simpl; [eauto | discriminate]. Qed.

Lemma assert_Ret_inv b u : assert b = Ret u -> b = true.
Proof. destruct b; [reflexivity | discriminate]. Qed.

Ltac inv_bind H :=
  let a := fresh "a" in
  let Ha := fresh "Ha" in
  apply bind_Ret_inv in H; destruct H as (a & Ha & H).

(** ** isFollowing reads one cell *)

Lemma isFollowing_zero_l sn b : isFollowing sn 0 b = Fail AssertionFailed.
Proof. reflexivity. Qed.

Lemma isFollowing_zero_r sn a : isFollowing sn a 0 = Fail AssertionFailed.
Proof. unfold isFollowing. destruct (a >? 0); reflexivity. Qed.

Lemma isFollowing_positive sn a b :
  1 <= a -> 1 <= b ->
  isFollowing sn a b =
    match cell sn (Z.to_nat (a - 1)) (Z.to_nat (b - 1)) with
    | Some c => Ret c
    | None => Fail UndefinedBehaviour
    end.
Proof.
  intros Ha Hb. unfold isFollowing, cell.
  assert (Ea : (a >? 0) = true) by lia.
  assert (Eb : (b >? 0) = true) by lia.
  rewrite Ea, Eb. simpl.
  destruct (followerRelationShips sn !! Z.to_nat (a - 1)) as [row|]; [|reflexivity].
  destruct (row !! Z.to_nat (b - 1)); reflexivity.
Qed.

Lemma square_cell sn r c :
  square sn ->
  (r < Z.to_nat (numUsers sn))%nat -> (c < Z.to_nat (numUsers sn))%nat ->
  exists v, cell sn r c = Some v.
Proof.
  intros [Hlen Hrows] Hr Hc. unfold cell.
  destruct (lookup_lt_is_Some_2 (followerRelationShips sn) r) as [row Hrow]; [lia|].
  rewrite Hrow.
  assert (Hl : length row = Z.to_nat (numUsers sn)).
  { rewrite Forall_forall in Hrows. apply Hrows.
    eapply list_elem_of_lookup_2; eauto. }
  destruct (lookup_lt_is_Some_2 row c) as [v Hv]; [lia|]. eauto.
Qed.

Lemma isFollowing_in_range sn a b :
  square sn -> 1 <= a <= numUsers sn -> 1 <= b <= numUsers sn ->
  exists v, isFollowing sn a b = Ret v.
Proof.
  intros Hsq Ha Hb. rewrite isFollowing_positive by lia.
  destruct (square_cell sn (Z.to_nat (a - 1)) (Z.to_nat (b - 1)) Hsq) as [v Hv];
    [lia | lia |].
  rewrite Hv. eauto.
Qed.

Lemma cell_out_of_range sn r c :
  square sn ->
  (Z.to_nat (numUsers sn) <= r)%nat \/ (Z.to_nat (numUsers sn) <= c)%nat ->
  cell sn r c = None.
Proof.
  intros [Hlen Hrows] Hor. unfold cell.
  destruct (followerRelationShips sn !! r) as [row|] eqn:Hrow; [|reflexivity].
  assert (Hl : length row = Z.to_nat (numUsers sn)).
  { rewrite Forall_forall in Hrows. apply Hrows.
    eapply list_elem_of_lookup_2; eauto. }
  apply lookup_lt_Some in Hrow. apply lookup_ge_None. lia.
Qed.

(** ** The scan of getFollowerAndMutualsFromId *)

Lemma StronglySorted_seqZ m n : StronglySorted Z.lt (seqZ m n).
Proof.
  destruct (Z.le_gt_cases n 0) as [Hn|Hn].
  { rewrite seqZ_nil by lia. constructor. }
  rewrite <- (Z2Nat.id n) by lia. generalize (Z.to_nat n) as k. clear.
  intros k. revert m. induction k as [|k IH]; intros m.
  - simpl. rewrite seqZ_nil by lia. constructor.
  - rewrite seqZ_cons by lia. constructor.
    + replace (Z.pred (Z.of_nat (S k))) with (Z.of_nat k) by lia. apply IH.
    + apply Forall_forall. intros x Hx.
      apply list_elem_of_lookup in Hx as [i Hi].
      apply lookup_seqZ in Hi. lia.
Qed.

Lemma StronglySorted_filter {A} (R : relation A) (P : A -> Prop)
    `{forall x, Decision (P x)} (l : list A) :
  StronglySorted R l -> StronglySorted R (filter P l).
Proof.
  induction 1 as [|x l Hl IH Hx]; [constructor|].
  rewrite filter_cons. destruct (decide (P x)); [|assumption].
  constructor; [assumption|].
  apply Forall_forall. intros y Hy. apply list_elem_of_filter in Hy as [_ Hy].
  rewrite Forall_forall in Hx. auto.
Qed.

Lemma scanOthers_filter sn currID others followers mutuals :
  square sn ->
  1 <= currID <= numUsers sn ->
  Forall (fun o => 1 <= o <= numUsers sn) others ->
  scanOthers sn currID others followers mutuals =
    Ret (followers ++
           filter (fun o => o <> currID /\ isFollowing sn o currID = Ret true) others,
         mutuals ++
           filter (fun o => isFollowing sn currID o = Ret true)
             (filter (fun o => o <> currID /\ isFollowing sn o currID = Ret true) others)).
Proof.
  intros Hsq Hc Hall. revert followers mutuals.
  induction Hall as [|o others Ho Hall IH]; intros followers mutuals.
  { simpl. rewrite filter_nil, !app_nil_r. reflexivity. }
  simpl scanOthers. rewrite (filter_cons _ o).
  destruct (decide (currID = o)) as [->|Hne].
  - rewrite bool_decide_eq_false_2 by (intros Hn; apply Hn; reflexivity).
    rewrite decide_False by (intros [Hn _]; apply Hn; reflexivity).
    apply IH.
  - rewrite bool_decide_eq_true_2 by assumption.
    destruct (isFollowing_in_range sn o currID Hsq Ho Hc) as [b Hb].
    rewrite Hb. simpl bind. destruct b.
    + rewrite decide_True by (split; [congruence | reflexivity]).
      destruct (isFollowing_in_range sn currID o Hsq Hc Ho) as [m Hm].
      rewrite Hm. simpl bind. rewrite (filter_cons _ o).
      destruct m.
      * rewrite decide_True by assumption.
        rewrite IH, <- !app_assoc. reflexivity.
      * rewrite decide_False by (simpl; congruence).
        rewrite IH, <- !app_assoc. reflexivity.
    + rewrite decide_False by (intros [_ Hn]; simpl in Hn; congruence).
      apply IH.
Qed.

Lemma seqZ_in_range n : Forall (fun o => 1 <= o <= n) (seqZ 1 n).
Proof.
  apply Forall_forall. intros o Ho.
  apply list_elem_of_lookup in Ho as [i Hi]. apply lookup_seqZ in Hi. lia.
Qed.

Lemma elem_of_seqZ_1 n o : o ∈ seqZ 1 n <-> 1 <= o <= n.
Proof.
  split.
  - intros Ho. apply list_elem_of_lookup in Ho as [i Hi].
    apply lookup_seqZ in Hi. lia.
  - intros Ho. apply list_elem_of_lookup. exists (Z.to_nat (o - 1)).
    apply lookup_seqZ. lia.
Qed.

Lemma getFollowerAndMutualsFromId_square sn followers mutuals currID :
  square sn ->
  1 <= currID <= numUsers sn ->
  getFollowerAndMutualsFromId sn followers mutuals currID =
    Ret (followers ++ spec_followers sn currID, mutuals ++ spec_mutuals sn currID).
Proof.
  intros Hsq Hc. unfold getFollowerAndMutualsFromId, spec_mutuals, spec_followers.
  apply scanOthers_filter; auto using seqZ_in_range.
Qed.

(** ** Building the matrix *)

Lemma to_uint_small z : 0 <= z < UINT_RANGE -> to_uint z = z.
Proof. intros Hz. unfold to_uint. apply Z.mod_small. assumption. Qed.

Lemma to_uint_range z : 0 <= to_uint z < UINT_RANGE.
Proof. unfold to_uint, UINT_RANGE. apply Z.mod_pos_bound. lia. Qed.

Lemma fits_inv u :
  fits u = true ->
  0 <= id u < UINT_RANGE /\
  (forall f, f ∈ follows u -> 0 <= f < UINT_RANGE) /\
  Z.of_nat (length (follows u)) < 2 ^ 31.
Proof.
  unfold fits, uintb. intros Hf.
  apply andb_prop in Hf as [Hf Hlen]. apply andb_prop in Hf as [Hid Hfs].
  split; [lia|]. split; [|lia].
  intros f Hin. rewrite forallb_forall in Hfs.
  apply list_elem_of_In in Hin. apply Hfs in Hin. lia.
Qed.

Lemma markFollows_markAll u p s row :
  isValid u = true ->
  follows u = p ++ s ->
  markFollows u (seqZ (Z.of_nat (length p)) (Z.of_nat (length s))) row
  = markAll s row.
Proof.
  intros Hv. revert p row. induction s as [|f s IH]; intros p row Hf.
  - rewrite seqZ_nil by (simpl; lia). reflexivity.
  - rewrite seqZ_cons by (simpl; lia). simpl markFollows.
    unfold getFollowsIdAt. rewrite Hv. simpl bind.
    assert (E : (0 <=? Z.of_nat (length p)) = true) by (apply Z.leb_le; lia). rewrite E.
    rewrite Nat2Z.id, Hf, list_lookup_middle by reflexivity. simpl bind.
    simpl markAll.
    destruct (to_uint (f - 1) <? Z.of_nat (length row)); [|reflexivity].
    specialize (IH (p ++ [f]) (<[Z.to_nat (to_uint (f - 1)) := true]> row)).
    rewrite length_app in IH. simpl length in IH.
    replace (Z.succ (Z.of_nat (length p))) with (Z.of_nat (length p + 1)) by lia.
    replace (Z.pred (Z.of_nat (S (length s)))) with (Z.of_nat (length s)) by lia.
    apply IH. rewrite <- app_assoc. assumption.
Qed.

Lemma buildRow_valid n us i u :
  us !! Z.to_nat i = Some u ->
  isValid u = true ->
  Z.of_nat (length (follows u)) < UINT_RANGE ->
  buildRow n us i =
    let* row := markAll (follows u) (replicate (Z.to_nat n) false) in
    Ret (row, name u).
Proof.
  intros Hu Hv Hlen. unfold buildRow. rewrite Hu.
  unfold getFollowsSize, getName. rewrite Hv. simpl bind.
  rewrite to_uint_small by lia.
  rewrite (markFollows_markAll u [] (follows u)) by auto.
  reflexivity.
Qed.

Lemma markAll_length fs row row' :
  markAll fs row = Ret row' -> length row' = length row.
Proof.
  revert row. induction fs as [|f fs IH]; intros row H; simpl in H.
  - congruence.
  - destruct (to_uint (f - 1) <? Z.of_nat (length row)); [|discriminate].
    apply IH in H. rewrite length_insert in H. assumption.
Qed.

Lemma markAll_lookup fs row row' k b :
  markAll fs row = Ret row' ->
  row' !! k = Some b ->
  (b = true <->
   row !! k = Some true \/ exists f, f ∈ fs /\ Z.to_nat (to_uint (f - 1)) = k).
Proof.
  revert row. induction fs as [|f fs IH]; intros row H Hk; simpl in H.
  - injection H as <-. split.
    + intros ->. left. assumption.
    + intros [Hr|(f & Hf & _)]; [congruence | inversion Hf].
  - destruct (to_uint (f - 1) <? Z.of_nat (length row)) eqn:Hlt; [|discriminate].
    rewrite (IH _ H Hk). clear IH.
    destruct (decide (Z.to_nat (to_uint (f - 1)) = k)) as [Ek|Nk].
    + split; intros _.
      * right. exists f. split; [left | assumption].
      * left. subst k. apply list_lookup_insert_eq.
        apply Z.ltb_lt in Hlt. pose proof (to_uint_range (f - 1)). lia.
    + rewrite list_lookup_insert_ne by assumption.
      split.
      * intros [Hr|(g & Hg & Eg)]; [left; assumption|].
        right. exists g. split; [right; assumption | assumption].
      * intros [Hr|(g & Hg & Eg)]; [left; assumption|].
        apply elem_of_cons in Hg as [->|Hg]; [contradiction|].
        right. exists g. split; assumption.
Qed.

Lemma markAll_in_range fs row :
  Forall (fun f => 0 <= to_uint (f - 1) < Z.of_nat (length row)) fs ->
  exists row', markAll fs row = Ret row'.
Proof.
  intros Hall. revert row Hall. induction fs as [|f fs IH]; intros row Hall.
  - simpl. eauto.
  - inversion Hall as [|? ? Hf Hfs]; subst. simpl.
    assert (E : (to_uint (f - 1) <? Z.of_nat (length row)) = true)
      by (apply Z.ltb_lt; lia).
    rewrite E. apply IH. rewrite length_insert. assumption.
Qed.

Lemma markFollows_length u js row row' :
  markFollows u js row = Ret row' -> length row' = length row.
Proof.
  revert row. induction js as [|j js IH]; intros row H; simpl in H.
  - congruence.
  - inv_bind H.
    destruct (to_uint (a - 1) <? Z.of_nat (length row)); [|discriminate].
    apply IH in H. rewrite length_insert in H. assumption.
Qed.

Lemma buildRow_length n us i row nm :
  buildRow n us i = Ret (row, nm) -> length row = Z.to_nat n.
Proof.
  unfold buildRow. destruct (us !! Z.to_nat i) as [u|]; [|discriminate].
  intros H. inv_bind H. inv_bind H. inv_bind H. injection H as <- <-.
  apply markFollows_length in Ha0. rewrite Ha0. apply length_replicate.
Qed.

Lemma buildRows_Ret n us idxs m0 names0 m names :
  buildRows n us idxs m0 names0 = Ret (m, names) ->
  exists rows nms,
    m = m0 ++ rows /\ names = names0 ++ nms /\
    length rows = length idxs /\
    forall j i, idxs !! j = Some i ->
      exists row nm, buildRow n us i = Ret (row, nm) /\
                     rows !! j = Some row /\ nms !! j = Some nm.
Proof.
  revert m0 names0. induction idxs as [|i idxs IH]; intros m0 names0 H; simpl in H.
  - injection H as <- <-. exists [], []. rewrite !app_nil_r.
    repeat split; try reflexivity. intros j i Hj. inversion Hj.
  - inv_bind H. destruct a as [row nm].
    destruct (IH _ _ H) as (rows & nms & -> & -> & Hlen & Hall).
    exists (row :: rows), (nm :: nms). rewrite <- !app_assoc. simpl.
    repeat split; try reflexivity; [lia|].
    intros [|j] k Hj; simpl in Hj.
    + injection Hj as <-. exists row, nm. auto.
    + apply Hall in Hj. exact Hj.
Qed.

Lemma buildMatrix_Ret n us sn :
  buildMatrix n us = Ret sn ->
  numUsers sn = n /\ users sn = us /\ square sn /\
  forall i, 0 <= i < n ->
    exists row nm, buildRow n us i = Ret (row, nm) /\
                   followerRelationShips sn !! Z.to_nat i = Some row /\
                   userNames sn !! Z.to_nat i = Some nm.
Proof.
  unfold buildMatrix. intros H. inv_bind H. destruct a as [m names].
  injection H as <-. simpl.
  apply buildRows_Ret in Ha as (rows & nms & -> & -> & Hlen & Hall).
  simpl. rewrite length_seqZ in Hlen.
  assert (Hrow : forall i, 0 <= i < n ->
            exists row nm, buildRow n us i = Ret (row, nm) /\
                           rows !! Z.to_nat i = Some row /\
                           nms !! Z.to_nat i = Some nm).
  { intros i Hi. apply (Hall (Z.to_nat i) i). apply lookup_seqZ. lia. }
  repeat split; try assumption.
  apply Forall_forall. intros row Hin.
  apply list_elem_of_lookup in Hin as [j Hj].
  pose proof (lookup_lt_Some _ _ _ Hj) as Hlt.
  simpl in Hlt, Hj.
  destruct (Hrow (Z.of_nat j)) as (row' & nm & Hb & Hr & _); [lia|].
  rewrite Nat2Z.id in Hr. rewrite Hj in Hr. injection Hr as <-.
  eapply buildRow_length; eauto.
Qed.

(** ** Ingestion *)

Lemma to_uint_add_l a b : to_uint (to_uint a + b) = to_uint (a + b).
Proof. unfold to_uint. apply Zplus_mod_idemp_l. Qed.

Lemma ingestUser_eq st u :
  ingestUser st u =
    if isValid u
    then Ret (mkIngest (ing_users st ++ [u]) (to_uint (ing_numUsers st + 1))
                (bool_decide (id u <> nextExpectedID st) || userSortingNeeded st)
                (to_uint (nextExpectedID st + 1)))
    else Fail AssertionFailed.
Proof.
  unfold ingestUser, getId. destruct (isValid u); simpl; [|reflexivity].
  destruct (bool_decide (id u <> nextExpectedID st)); reflexivity.
Qed.

Lemma ingestAll_eq st records :
  is_uint (ing_numUsers st) -> is_uint (nextExpectedID st) ->
  ingestAll st records =
    if forallb isValid records
    then Ret (mkIngest (ing_users st ++ records)
                (to_uint (ing_numUsers st + Z.of_nat (length records)))
                (mismatch (nextExpectedID st) records || userSortingNeeded st)
                (to_uint (nextExpectedID st + Z.of_nat (length records))))
    else Fail AssertionFailed.
Proof.
  revert st. induction records as [|r records IH]; intros st Hn He.
  - simpl. rewrite app_nil_r, !Z.add_0_r, !to_uint_small by assumption.
    destruct st; reflexivity.
  - simpl ingestAll. rewrite ingestUser_eq. simpl forallb.
    destruct (isValid r); [|reflexivity]. simpl bind.
    rewrite IH by (simpl; apply to_uint_range). simpl.
    destruct (forallb isValid records); [|reflexivity].
    rewrite <- app_assoc, !to_uint_add_l. simpl app.
    replace (ing_numUsers st + 1 + Z.of_nat (length records))
      with (ing_numUsers st + Z.pos (Pos.of_succ_nat (length records))) by lia.
    replace (nextExpectedID st + 1 + Z.of_nat (length records))
      with (nextExpectedID st + Z.pos (Pos.of_succ_nat (length records))) by lia.
    rewrite orb_assoc, (orb_comm (mismatch _ _)). reflexivity.
Qed.


Lemma mismatch_false next records :
  0 <= next -> next + Z.of_nat (length records) <= UINT_RANGE ->
  mismatch next records = false <->
  id <$> records = seqZ next (Z.of_nat (length records)).
Proof.
  revert next. induction records as [|r records IH]; intros next H0 Hlen.
  - simpl. rewrite seqZ_nil by lia. split; reflexivity.
  - simpl length in *. simpl mismatch. rewrite seqZ_cons by lia.
    rewrite orb_false_iff, bool_decide_eq_false.
    replace (Z.pred (Z.of_nat (S (length records)))) with (Z.of_nat (length records))
      by lia.
    destruct (decide (length records = 0%nat)) as [E0|N0].
    + destruct records; [|discriminate]. simpl.
      rewrite seqZ_nil by lia. split.
      * intros [Hid _]. f_equal. destruct (decide (id r = next)); tauto.
      * intros Hid. injection Hid as Hid. split; [tauto | reflexivity].
    + rewrite to_uint_small by (unfold UINT_RANGE in *; lia).
      rewrite (IH (next + 1)) by lia.
      replace (Z.succ next) with (next + 1) by lia. csimpl. split.
      * intros [Hid Htl]. f_equal; [|assumption].
        destruct (decide (id r = next)); tauto.
      * intros Hid. injection Hid as Hid Htl. split; [tauto | assumption].
Qed.

(** ** Sorting records with pairwise distinct ids *)

Lemma same_id_same_record (l : list User) x y :
  NoDup (id <$> l) -> x ∈ l -> y ∈ l -> id x = id y -> x = y.
Proof.
  induction l as [|z l IH]; intros Hnd Hx Hy E; [inversion Hx|].
  csimpl in Hnd. apply NoDup_cons in Hnd as [Hz Hnd].
  apply elem_of_cons in Hx as [->|Hx]; apply elem_of_cons in Hy as [->|Hy].
  - reflexivity.
  - exfalso. apply Hz. rewrite E. apply list_elem_of_fmap_2. assumption.
  - exfalso. apply Hz. rewrite <- E. apply list_elem_of_fmap_2. assumption.
  - auto.
Qed.

Lemma ascending_unique l1 l2 :
  NoDup (id <$> l1) -> ascending l1 -> ascending l2 -> l1 ≡ₚ l2 -> l1 = l2.
Proof.
  intros Hnd H1 H2 Hp. apply (StronglySorted_unique_strong _ _ _ ) with (3 := H2)
    (2 := H1); [|assumption].
  intros x1 x2 Hx1 Hx2 R12 R21. unfold User_lt in *.
  apply (same_id_same_record l1); try assumption.
  - rewrite Hp. assumption.
  - apply Z.ltb_ge in R12, R21. lia.
Qed.

Lemma seqZ_ids_ascending l m n : id <$> l = seqZ m n -> ascending l.
Proof.
  intros E. pose proof (StronglySorted_seqZ m n) as Hs. rewrite <- E in Hs.
  clear E. unfold ascending. induction l as [|x l IH]; [constructor|].
  csimpl in Hs. apply StronglySorted_inv in Hs as [Hl Hx].
  constructor; [auto|].
  rewrite Forall_fmap in Hx. eapply Forall_impl; [exact Hx|].
  simpl. intros y Hy. unfold User_lt. apply Z.ltb_ge. lia.
Qed.

(** ** A stable sort that meets the contract of std::sort *)

Lemma User_lt_false a b : User_lt a b = false <-> id b <= id a.
Proof. unfold User_lt. apply Z.ltb_ge. Qed.

Lemma User_lt_true a b : User_lt a b = true <-> id a < id b.
Proof. unfold User_lt. apply Z.ltb_lt. Qed.

Lemma insert_before_equals_perm u l : insert_before_equals u l ≡ₚ u :: l.
Proof.
  induction l as [|v l IH]; simpl; [reflexivity|].
  destruct (User_lt v u); [|reflexivity].
  rewrite IH. apply Permutation_swap.
Qed.

Lemma ascending_cons u l :
  ascending (u :: l) <-> ascending l /\ Forall (fun x => id u <= id x) l.
Proof.
  unfold ascending. split.
  - intros Hs. apply StronglySorted_inv in Hs as [Hl Hu]. split; [assumption|].
    eapply Forall_impl; [exact Hu|]. intros x. apply User_lt_false.
  - intros [Hl Hu]. constructor; [assumption|].
    eapply Forall_impl; [exact Hu|]. intros x. apply User_lt_false.
Qed.

Lemma insert_before_equals_ascending u l :
  ascending l -> ascending (insert_before_equals u l).
Proof.
  induction l as [|v l IH]; intros Hl; simpl.
  - apply ascending_cons. split; [constructor | constructor].
  - apply ascending_cons in Hl as [Hl Hv].
    destruct (User_lt v u) eqn:E.
    + apply ascending_cons. split; [auto|].
      rewrite insert_before_equals_perm. constructor; [|assumption].
      apply User_lt_true in E. lia.
    + apply User_lt_false in E.
      apply ascending_cons. split.
      * apply ascending_cons. auto.
      * constructor; [assumption|].
        eapply Forall_impl; [exact Hv|]. simpl. intros x Hx. lia.
Qed.

Lemma stable_sort_by_id_perm l : stable_sort_by_id l ≡ₚ l.
Proof.
  induction l as [|u l IH]; simpl; [reflexivity|].
  rewrite insert_before_equals_perm. constructor. exact IH.
Qed.

Lemma stable_sort_by_id_ascending l : ascending (stable_sort_by_id l).
Proof.
  induction l as [|u l IH]; simpl; [constructor|].
  apply insert_before_equals_ascending. exact IH.
Qed.



Definition stable_StdSort : StdSort :=
  Build_StdSort stable_sort_by_id stable_sort_by_id_perm stable_sort_by_id_ascending.

(** ** The constructor, from the records *)

Lemma SocialNetwork_of_records_eq `{StdSort} records :
  SocialNetwork_of_records records =
    if forallb isValid records
    then buildMatrix (to_uint (Z.of_nat (length records)))
           (if mismatch 1 records then std_sort records else records)
    else Fail AssertionFailed.
Proof.
  unfold SocialNetwork_of_records.
  rewrite ingestAll_eq by (unfold is_uint, UINT_RANGE; simpl; lia).
  destruct (forallb isValid records); [|reflexivity].
  simpl. unfold assemble, sortUsers. simpl. rewrite orb_false_r. reflexivity.
Qed.

Lemma SocialNetwork_of_records_Ret `{StdSort} records sn :
  SocialNetwork_of_records records = Ret sn ->
  numUsers sn = to_uint (Z.of_nat (length records)) /\
  square sn /\
  users sn ≡ₚ records /\
  forallb isValid records = true.
Proof.
  rewrite SocialNetwork_of_records_eq.
  destruct (forallb isValid records); [|discriminate].
  intros Hb. apply buildMatrix_Ret in Hb as (Hn & Hu & Hsq & _).
  repeat split; try assumption; try apply Hsq.
  rewrite Hu. destruct (mismatch 1 records); [apply std_sort_perm | reflexivity].
Qed.

Lemma dense_length (records : list User) N :
  (id <$> records) ≡ₚ seqZ 1 N -> 0 <= N -> Z.of_nat (length records) = N.
Proof.
  intros Hp HN. apply Permutation_length in Hp.
  rewrite length_fmap, length_seqZ in Hp. lia.
Qed.

Lemma SocialNetwork_of_records_rows `{StdSort} records sn i :
  SocialNetwork_of_records records = Ret sn ->
  0 <= i < numUsers sn ->
  exists row nm,
    buildRow (numUsers sn) (users sn) i = Ret (row, nm) /\
    followerRelationShips sn !! Z.to_nat i = Some row /\
    userNames sn !! Z.to_nat i = Some nm.
Proof.
  rewrite SocialNetwork_of_records_eq.
  destruct (forallb isValid records); [|discriminate].
  intros Hb Hi. apply buildMatrix_Ret in Hb as (Hn & Hu & _ & Hrows).
  rewrite Hn, Hu. apply Hrows. lia.
Qed.

(** ** The constructor returns on well-formed records *)

Lemma buildRows_total n us idxs m0 names0 :
  Forall (fun i => exists rn, buildRow n us i = Ret rn) idxs ->
  exists r, buildRows n us idxs m0 names0 = Ret r.
Proof.
  intros Hall. revert m0 names0.
  induction Hall as [|i idxs [[row nm] Hi] _ IH]; intros m0 names0; simpl.
  - eauto.
  - rewrite Hi. simpl. apply IH.
Qed.

Lemma buildMatrix_total n us :
  n = Z.of_nat (length us) ->
  Forall (fun u => isValid u = true /\
                   Z.of_nat (length (follows u)) < UINT_RANGE /\
                   Forall (fun f => 0 <= to_uint (f - 1) < n) (follows u)) us ->
  exists sn, buildMatrix n us = Ret sn.
Proof.
  intros Hn Hall. unfold buildMatrix.
  destruct (buildRows_total n us (seqZ 0 n) [] []) as [[m names] Hr].
  - apply Forall_forall. intros i Hi.
    apply list_elem_of_lookup in Hi as [k Hk]. apply lookup_seqZ in Hk as [-> Hk].
    destruct (lookup_lt_is_Some_2 us k) as [u Hu]; [lia|].
    rewrite Forall_forall in Hall.
    destruct (Hall u) as (Hv & Hlen & Hfs); [eapply list_elem_of_lookup_2; eauto|].
    rewrite Z.add_0_l.
    rewrite (buildRow_valid n us (Z.of_nat k) u);
      [| rewrite Nat2Z.id; assumption | assumption | assumption].
    destruct (markAll_in_range (follows u) (replicate (Z.to_nat n) false)) as [row Hrow].
    { rewrite length_replicate, Z2Nat.id by lia. assumption. }
    rewrite Hrow. simpl. eauto.
  - rewrite Hr. simpl. eauto.
Qed.

Lemma SocialNetwork_of_records_total `{StdSort} (records : list User) (N : Z) :
  N = Z.of_nat (length records) ->
  N < 2 ^ 31 ->
  forallb isValid records = true ->
  forallb fits records = true ->
  (forall u f, u ∈ records -> f ∈ follows u -> 1 <= f <= N) ->
  exists sn, SocialNetwork_of_records records = Ret sn.
Proof.
  intros HN Hlt Hvalid Hfits Hrange.
  rewrite SocialNetwork_of_records_eq, Hvalid.
  rewrite to_uint_small by (unfold UINT_RANGE; lia).
  set (us := if mismatch 1 records then std_sort records else records).
  assert (Hperm : us ≡ₚ records).
  { unfold us. destruct (mismatch 1 records); [apply std_sort_perm | reflexivity]. }
  apply buildMatrix_total.
  - rewrite (Permutation_length Hperm). reflexivity.
  - apply Forall_forall. intros u Hu. rewrite Hperm in Hu.
    rewrite forallb_forall in Hvalid, Hfits.
    pose proof (proj1 (list_elem_of_In _ _) Hu) as Hin.
    destruct (fits_inv u (Hfits u Hin)) as (_ & Hfs & Hlen).
    split; [auto|]. split; [unfold UINT_RANGE; lia|].
    apply Forall_forall. intros f Hf. specialize (Hrange u f Hu Hf).
    rewrite to_uint_small by (unfold UINT_RANGE; lia). lia.
Qed.

(** ** The constructor, from the file *)

(** What the reading loop hands on is what ingesting some sequence of
    records, one per turn, hands on. *)
Lemma readUsers_records fuel id0 inFS userData st st' :
  readUsers fuel id0 inFS userData st = Ret st' ->
  exists records, ingestAll st records = Ret st'.
Proof.
  revert inFS userData st. induction fuel as [|fuel IH]; intros inFS userData st H;
    simpl in H; [discriminate|].
  destruct (peek inFS) as [c inFS0].
  destruct (bool_decide (c = Some "]"%char)).
  { injection H as <-. exists []. reflexivity. }
  destruct (getline (ignore_until "{" inFS0) userData "}") as [userData' inFS1].
  inv_bind H. inv_bind H. apply IH in H as [records Hrec].
  exists (a :: records). simpl. rewrite Ha0. exact Hrec.
Qed.

Lemma SocialNetwork_of_file_records `{StdSort} fuel id0 file sn :
  SocialNetwork_of_file fuel id0 file = Ret sn ->
  exists records, SocialNetwork_of_records records = Ret sn.
Proof.
  unfold SocialNetwork_of_file. destruct file as [content|]; [|discriminate].
  intros H0. inv_bind H0. apply readUsers_records in Ha as [records Hrec].
  exists records. unfold SocialNetwork_of_records. rewrite Hrec. exact H0.
Qed.

(** ** Dense ids: the position of a record is its id less one *)

Lemma ascending_ids l : ascending l -> StronglySorted Z.le (id <$> l).
Proof.
  unfold ascending. apply StronglySorted_fmap.
  intros x y Hxy. apply User_lt_false in Hxy. exact Hxy.
Qed.

Lemma StronglySorted_lt_le l : StronglySorted Z.lt l -> StronglySorted Z.le l.
Proof.
  induction 1 as [|x l _ IH Hx]; constructor; [exact IH|].
  eapply Forall_impl; [exact Hx|]. simpl. intros y Hy. lia.
Qed.

Lemma dense_ascending_ids l N :
  (id <$> l) ≡ₚ seqZ 1 N -> ascending l -> id <$> l = seqZ 1 N.
Proof.
  intros Hp Ha. apply (StronglySorted_unique Z.le); [| |exact Hp].
  - apply ascending_ids. exact Ha.
  - apply StronglySorted_lt_le, StronglySorted_seqZ.
Qed.

Lemma users_ascending `{StdSort} records sn N :
  (id <$> records) ≡ₚ seqZ 1 N -> 0 <= N < 2 ^ 31 ->
  SocialNetwork_of_records records = Ret sn ->
  id <$> users sn = seqZ 1 N.
Proof.
  intros Hdense HN Hsn. rewrite SocialNetwork_of_records_eq in Hsn.
  destruct (forallb isValid records); [|discriminate].
  apply buildMatrix_Ret in Hsn as (_ & -> & _ & _).
  destruct (mismatch 1 records) eqn:Hm.
  - apply dense_ascending_ids; [|apply std_sort_sorted].
    rewrite std_sort_perm. exact Hdense.
  - apply mismatch_false in Hm; [|lia|].
    + rewrite Hm. f_equal. apply dense_length; [exact Hdense | lia].
    + rewrite (dense_length records N) by (assumption || lia).
      unfold UINT_RANGE. lia.
Qed.

Lemma position_carries_id `{StdSort} records sn N i u :
  (id <$> records) ≡ₚ seqZ 1 N -> 0 <= N < 2 ^ 31 ->
  SocialNetwork_of_records records = Ret sn ->
  users sn !! i = Some u ->
  id u = Z.of_nat i + 1.
Proof.
  intros Hdense HN Hsn Hu.
  pose proof (users_ascending records sn N Hdense HN Hsn) as Hids.
  assert (Hi : (id <$> users sn) !! i = Some (id u)) by (rewrite list_lookup_fmap, Hu; reflexivity).
  rewrite Hids in Hi. apply lookup_seqZ in Hi. lia.
Qed.

(** ** The scenario of the specification, run *)

Example trio_followers_1 :
  getFollowerAndMutualsFromId trio_net [] [] 1 = Ret ([2], [2]).
Proof. reflexivity. Qed.

Example trio_followers_2 :
  getFollowerAndMutualsFromId trio_net [] [] 2 = Ret ([1], [1]).
Proof. reflexivity. Qed.

Example trio_followers_3 :
  getFollowerAndMutualsFromId trio_net [] [] 3 = Ret ([1], []).
Proof. reflexivity. Qed.

Example sample_file_network :
  @SocialNetwork_of_file stable_StdSort 10 0 (Some sample_file) = Ret trio_net.
Proof. reflexivity. Qed.

Example sample_file_run :
  @main stable_StdSort 10 0 ["network.json"] (one_file sample_file)
  = ([IndexHtml; UserHtml 1; UserHtml 2; UserHtml 3], Ret tt).
Proof. reflexivity. Qed.

(** Without the closing bracket the reading loop goes on with the text of
    the last record, turn after turn. *)
Example truncated_file_loops :
  @SocialNetwork_of_file stable_StdSort 10 0 (Some truncated_file) = Fail Diverges /\
  @SocialNetwork_of_file stable_StdSort 100 0 (Some truncated_file) = Fail Diverges.
Proof. split; reflexivity. Qed.

(** * The claims *)

(** ** C1 *)

(** C1. For a collection of N records with dense ids 1..N that the
    constructor has assembled, and an id in 1..N: the query appends to
    [followers] exactly the ids o of 1..N, other than the id, for which
    [isFollowing(o, id)] is true, and to [mutuals] exactly those of them for
    which [isFollowing(id, o)] is true as well; both in ascending order. *)
Theorem getFollowerAndMutualsFromId_exact `{StdSort}
    (records : list User) (N : Z) (sn : SocialNetwork)
    (currID : Z) (followers mutuals : list Z) :
  (id <$> records) ≡ₚ seqZ 1 N ->
  N < 2 ^ 31 ->
  SocialNetwork_of_records records = Ret sn ->
  1 <= currID <= N ->
  numUsers sn = N /\
  getFollowerAndMutualsFromId sn followers mutuals currID
    = Ret (followers ++ spec_followers sn currID,
           mutuals ++ spec_mutuals sn currID) /\
  (forall o, o ∈ spec_followers sn currID <->
             1 <= o <= N /\ o <> currID /\ isFollowing sn o currID = Ret true) /\
  (forall o, o ∈ spec_mutuals sn currID <->
             o ∈ spec_followers sn currID /\ isFollowing sn currID o = Ret true) /\
  StronglySorted Z.lt (spec_followers sn currID) /\
  StronglySorted Z.lt (spec_mutuals sn currID).
Proof.
  intros Hdense HN Hsn Hc.
  apply SocialNetwork_of_records_Ret in Hsn as (Hn & Hsq & _ & _).
  rewrite (dense_length records N) in Hn by (assumption || lia).
  rewrite to_uint_small in Hn by (unfold UINT_RANGE; lia).
  split; [assumption|].
  split; [apply getFollowerAndMutualsFromId_square; [assumption | lia]|].
  unfold spec_mutuals, spec_followers. rewrite Hn.
  split; [|split; [|split]].
  - intros o. rewrite list_elem_of_filter, elem_of_seqZ_1. tauto.
  - intros o. rewrite (list_elem_of_filter _ (filter _ _)). tauto.
  - apply StronglySorted_filter, StronglySorted_seqZ.
  - do 2 apply StronglySorted_filter. apply StronglySorted_seqZ.
Qed.

Lemma getFollowerAndMutualsFromId_exact_witness :
  (id <$> trio) ≡ₚ seqZ 1 3 /\
  @SocialNetwork_of_records stable_StdSort trio = Ret trio_net /\
  getFollowerAndMutualsFromId trio_net [] [] 3 = Ret ([1], []).
Proof.
  assert (H1 : (id <$> trio) ≡ₚ seqZ 1 3) by reflexivity.
  assert (H2 : @SocialNetwork_of_records stable_StdSort trio = Ret trio_net)
    by reflexivity.
  split; [exact H1|]. split; [exact H2|].
  destruct (@getFollowerAndMutualsFromId_exact stable_StdSort trio 3 trio_net 3 [] []
              H1 ltac:(lia) H2 ltac:(lia)) as (_ & E & _).
  rewrite E. reflexivity.
Defined.

(** ** C5 *)

(** C5. For a collection the constructor has assembled and an id in 1..N,
    the query returns, and the id is in neither of the two lists it
    returns, whatever the user's own follows list holds. *)
Theorem self_never_listed `{StdSort}
    (records : list User) (sn : SocialNetwork) (currID : Z) :
  SocialNetwork_of_records records = Ret sn ->
  1 <= currID <= numUsers sn ->
  exists followers mutuals,
    getFollowerAndMutualsFromId sn [] [] currID = Ret (followers, mutuals) /\
    (currID ∉ followers) /\ (currID ∉ mutuals).
Proof.
  intros Hsn Hc.
  apply SocialNetwork_of_records_Ret in Hsn as (_ & Hsq & _ & _).
  exists (spec_followers sn currID), (spec_mutuals sn currID).
  split; [apply (getFollowerAndMutualsFromId_square sn [] []); assumption|].
  unfold spec_mutuals, spec_followers. split.
  - intros Hin. apply list_elem_of_filter in Hin as [[Hne _] _]. congruence.
  - intros Hin. apply list_elem_of_filter in Hin as [_ Hin].
    apply list_elem_of_filter in Hin as [[Hne _] _]. congruence.
Qed.

Lemma self_never_listed_witness :
  1 ∈ follows narcissus /\
  @SocialNetwork_of_records stable_StdSort [narcissus; echo] = Ret pair_net /\
  exists followers mutuals,
    getFollowerAndMutualsFromId pair_net [] [] 1 = Ret (followers, mutuals) /\
    (1 ∉ followers) /\ (1 ∉ mutuals).
Proof.
  assert (H2 : @SocialNetwork_of_records stable_StdSort [narcissus; echo] = Ret pair_net)
    by reflexivity.
  split; [left|]. split; [exact H2|].
  apply (@self_never_listed stable_StdSort [narcissus; echo] pair_net 1 H2).
  simpl. lia.
Defined.

(** ** C6 *)

(** C6, as the code has it. On an assembled network of N users,
    [isFollowing] aborts on its assertion when an argument is 0, returns the
    cell (followerID-1, followedID-1) when both arguments are in 1..N, and
    for arguments of at least 1 of which one exceeds N it makes no check:
    the unchecked index is past the end, which is undefined behaviour and
    no abort. *)
Theorem isFollowing_contract `{StdSort}
    (records : list User) (sn : SocialNetwork) (followerID followedID : Z) :
  SocialNetwork_of_records records = Ret sn ->
  (followerID = 0 \/ followedID = 0 ->
     isFollowing sn followerID followedID = Fail AssertionFailed) /\
  (1 <= followerID <= numUsers sn -> 1 <= followedID <= numUsers sn ->
     exists c, cell sn (Z.to_nat (followerID - 1)) (Z.to_nat (followedID - 1)) = Some c /\
               isFollowing sn followerID followedID = Ret c) /\
  (1 <= followerID -> 1 <= followedID ->
   numUsers sn < followerID \/ numUsers sn < followedID ->
     isFollowing sn followerID followedID = Fail UndefinedBehaviour).
Proof.
  intros Hsn. apply SocialNetwork_of_records_Ret in Hsn as (Hn & Hsq & _ & _).
  split; [|split].
  - intros [->| ->]; [apply isFollowing_zero_l | apply isFollowing_zero_r].
  - intros Ha Hb. rewrite isFollowing_positive by lia.
    destruct (square_cell sn (Z.to_nat (followerID - 1)) (Z.to_nat (followedID - 1)) Hsq)
      as [c Hc]; [lia | lia |].
    exists c. rewrite Hc. auto.
  - intros Ha Hb Hout. rewrite isFollowing_positive by lia.
    rewrite cell_out_of_range; [reflexivity | assumption |].
    pose proof (to_uint_range (Z.of_nat (length records))). lia.
Qed.

Lemma isFollowing_contract_witness :
  @SocialNetwork_of_records stable_StdSort trio = Ret trio_net /\
  isFollowing trio_net 0 2 = Fail AssertionFailed /\
  isFollowing trio_net 1 2 = Ret true /\
  isFollowing trio_net 1 4 = Fail UndefinedBehaviour.
Proof.
  assert (H2 : @SocialNetwork_of_records stable_StdSort trio = Ret trio_net)
    by reflexivity.
  split; [exact H2|].
  split; [|split].
  - apply (@isFollowing_contract stable_StdSort trio trio_net 0 2 H2). left. reflexivity.
  - destruct (@isFollowing_contract stable_StdSort trio trio_net 1 2 H2)
      as (_ & Hin & _).
    destruct Hin as (c & Hc & E); [simpl; lia | simpl; lia |].
    rewrite E. f_equal. vm_compute in Hc. congruence.
  - apply (@isFollowing_contract stable_StdSort trio trio_net 1 4 H2);
      simpl; lia.
Defined.

(** C6, as the claim has it, fails: with three users, the call
    [isFollowing(1, 4)] passes the assertion and reads past the end of a
    row; nothing in the code aborts it. *)
Lemma isFollowing_beyond_N_is_no_abort :
  @SocialNetwork_of_records stable_StdSort trio = Ret trio_net /\
  numUsers trio_net < 4 /\
  isFollowing trio_net 1 4 = Fail UndefinedBehaviour /\
  isFollowing trio_net 1 4 <> Fail AssertionFailed.
Proof.
  split; [reflexivity|]. split; [simpl; lia|]. split; [reflexivity | discriminate].
Qed.

(** ** C2 *)

Lemma follows_index_eq f g N :
  0 <= g < UINT_RANGE -> 1 <= f <= N -> N < 2 ^ 31 ->
  Z.to_nat (to_uint (g - 1)) = Z.to_nat (f - 1) <-> g = f.
Proof.
  intros Hg Hf HN. unfold UINT_RANGE in *. split; [|intros ->].
  - intros E. destruct (decide (g = 0)) as [->|Hne].
    + change (to_uint (0 - 1)) with 4294967295 in E. lia.
    + rewrite to_uint_small in E by (unfold UINT_RANGE; lia). lia.
  - rewrite to_uint_small by (unfold UINT_RANGE; lia). reflexivity.
Qed.

(** C2. For a collection of N records with dense ids 1..N whose matrix the
    constructor has built, the user at position i (from 0) and an id f in
    1..N: [isFollowing(i+1, f)] returns true when f occurs in that user's
    follows list, and false when it does not. *)
Theorem isFollowing_round_trip `{StdSort}
    (records : list User) (N : Z) (sn : SocialNetwork)
    (i : nat) (u : User) (f : Z) :
  (id <$> records) ≡ₚ seqZ 1 N ->
  N < 2 ^ 31 ->
  forallb fits records = true ->
  SocialNetwork_of_records records = Ret sn ->
  users sn !! i = Some u ->
  1 <= f <= N ->
  isFollowing sn (Z.of_nat i + 1) f = Ret (bool_decide (f ∈ follows u)).
Proof.
  intros Hdense HN Hfits Hsn Hu Hf.
  pose proof (SocialNetwork_of_records_Ret _ _ Hsn) as (Hn & Hsq & Hperm & Hvalid).
  rewrite (dense_length records N) in Hn by (assumption || lia).
  rewrite to_uint_small in Hn by (unfold UINT_RANGE; lia).
  assert (Hin : u ∈ records).
  { rewrite <- Hperm. eapply list_elem_of_lookup_2; eauto. }
  apply list_elem_of_In in Hin.
  rewrite forallb_forall in Hfits, Hvalid.
  pose proof (Hvalid u Hin) as Hv.
  destruct (fits_inv u (Hfits u Hin)) as (_ & Hfs & Hlen).
  assert (Hi : Z.of_nat i < N).
  { apply lookup_lt_Some in Hu. apply Permutation_length in Hperm.
    pose proof (dense_length records N Hdense). lia. }
  destruct (SocialNetwork_of_records_rows records sn (Z.of_nat i) Hsn)
    as (row & nm & Hrow & Hm & _); [lia|].
  rewrite Nat2Z.id in Hm.
  rewrite (buildRow_valid _ _ _ u) in Hrow;
    [| rewrite Nat2Z.id; assumption | assumption | unfold UINT_RANGE; lia].
  inv_bind Hrow. injection Hrow as <- _.
  pose proof (markAll_length _ _ _ Ha) as Hl. rewrite length_replicate in Hl.
  rewrite isFollowing_positive by lia. unfold cell.
  replace (Z.of_nat i + 1 - 1) with (Z.of_nat i) by lia.
  rewrite Nat2Z.id, Hm.
  destruct (lookup_lt_is_Some_2 a (Z.to_nat (f - 1))) as [b Hb]; [lia|].
  rewrite Hb. f_equal.
  pose proof (markAll_lookup _ _ _ _ _ Ha Hb) as Hiff.
  destruct (decide (f ∈ follows u)) as [Hyes|Hno].
  - rewrite bool_decide_eq_true_2 by assumption. apply Hiff. right.
    exists f. split; [assumption|].
    apply (follows_index_eq f f N); auto.
  - rewrite bool_decide_eq_false_2 by assumption.
    destruct b; [|reflexivity]. exfalso.
    destruct Hiff as [Hiff _]. destruct (Hiff eq_refl) as [Hr|(g & Hg & Eg)].
    + apply lookup_replicate in Hr as [Hr _]. discriminate.
    + apply (follows_index_eq f g N) in Eg; auto. congruence.
Qed.

Lemma isFollowing_round_trip_witness :
  (id <$> trio) ≡ₚ seqZ 1 3 /\
  @SocialNetwork_of_records stable_StdSort trio = Ret trio_net /\
  isFollowing trio_net 1 3 = Ret true /\
  isFollowing trio_net 2 3 = Ret false.
Proof.
  assert (H1 : (id <$> trio) ≡ₚ seqZ 1 3) by reflexivity.
  assert (H2 : @SocialNetwork_of_records stable_StdSort trio = Ret trio_net)
    by reflexivity.
  split; [exact H1|]. split; [exact H2|]. split.
  - apply (@isFollowing_round_trip stable_StdSort trio 3 trio_net 0%nat alice 3
             H1 ltac:(lia) eq_refl H2 eq_refl ltac:(lia)).
  - apply (@isFollowing_round_trip stable_StdSort trio 3 trio_net 1%nat bob 3
             H1 ltac:(lia) eq_refl H2 eq_refl ltac:(lia)).
Defined.

(** ** C10 *)

(** C10. The default constructor leaves id 0 and the name, the location
    and the picture URL empty; such a user is not valid, the assertion of
    every accessor fails on it, and its picture URL stays empty, where the
    constructor that takes all values puts the default URL. *)
Theorem User_default_invalid :
  id User_default = 0 /\
  name User_default = EmptyString /\
  location User_default = EmptyString /\
  pic_url User_default = EmptyString /\
  isValid User_default = false /\
  getId User_default = Fail AssertionFailed /\
  getName User_default = Fail AssertionFailed /\
  getLocation User_default = Fail AssertionFailed /\
  getPicUrl User_default = Fail AssertionFailed /\
  getFollows User_default = Fail AssertionFailed /\
  getFollowsSize User_default = Fail AssertionFailed /\
  (forall i, getFollowsIdAt User_default i = Fail AssertionFailed) /\
  pic_url User_default <> DEFAULT_PIC_URL /\
  pic_url (User_full 0 EmptyString EmptyString EmptyString []) = DEFAULT_PIC_URL.
Proof.
  repeat split; try reflexivity. discriminate.
Qed.

(** ** C9 *)

Lemma setDefaultAttributesWhenEmpty_pic_url u :
  pic_url (setDefaultAttributesWhenEmpty u)
  = if string_empty (pic_url u) then DEFAULT_PIC_URL else pic_url u.
Proof.
  unfold setDefaultAttributesWhenEmpty. destruct (string_empty (pic_url u)); reflexivity.
Qed.

Lemma setDefaultAttributesWhenEmpty_nonempty u :
  string_empty (pic_url (setDefaultAttributesWhenEmpty u)) = false.
Proof.
  rewrite setDefaultAttributesWhenEmpty_pic_url.
  destruct (string_empty (pic_url u)) eqn:E; [reflexivity | exact E].
Qed.

Lemma setAttribute_pic_url u title data u' :
  setAttribute u title data = Ret u' ->
  pic_url u' = pic_url u \/
  title = "pic_url" /\ pic_url u' = data /\ string_empty data = false.
Proof.
  unfold setAttribute. intros H. inv_bind H.
  destruct (String.eqb title "follows").
  { inv_bind H. injection H as <-. left. reflexivity. }
  inv_bind H. apply assert_Ret_inv, negb_true_iff in Ha0.
  destruct (String.eqb title "id_str").
  { inv_bind H. injection H as <-. left. reflexivity. }
  destruct (String.eqb title "name").
  { injection H as <-. left. reflexivity. }
  destruct (String.eqb title "pic_url") eqn:E.
  { injection H as <-. right. apply String.eqb_eq in E. auto. }
  destruct (String.eqb title "location"); [|discriminate].
  injection H as <-. left. reflexivity.
Qed.

(** C9. Both constructors that take attribute data end with one call of
    [setDefaultAttributesWhenEmpty]: the user they hand out is the user as
    the attributes left it, with the default URL in place of an empty
    picture URL; an attribute can set the picture URL to a non-empty text
    only; so the picture URL of the user handed out is not empty. *)
Theorem default_pic_url_applied :
  (forall i n l p f,
     User_full i n l p f = setDefaultAttributesWhenEmpty (mkUser i n l p f) /\
     pic_url (User_full i n l p f) = (if string_empty p then DEFAULT_PIC_URL else p) /\
     string_empty (pic_url (User_full i n l p f)) = false) /\
  (forall id0 ss u,
     User_of_stream id0 ss = Ret u ->
     exists u0,
       readAttributes (S (String.length (unread ss))) ss
         (mkUser id0 EmptyString EmptyString EmptyString []) = Ret u0 /\
       u = setDefaultAttributesWhenEmpty u0 /\
       pic_url u = (if string_empty (pic_url u0) then DEFAULT_PIC_URL else pic_url u0) /\
       string_empty (pic_url u) = false) /\
  (forall u title data u',
     setAttribute u title data = Ret u' ->
     pic_url u' = pic_url u \/
     title = "pic_url" /\ pic_url u' = data /\ string_empty data = false) /\
  (forall u, setDefaultAttributesWhenEmpty (setDefaultAttributesWhenEmpty u)
             = setDefaultAttributesWhenEmpty u).
Proof.
  split; [|split; [|split]].
  - intros i n l p f. split; [reflexivity|]. unfold User_full. split.
    + apply setDefaultAttributesWhenEmpty_pic_url.
    + apply setDefaultAttributesWhenEmpty_nonempty.
  - intros id0 ss u H. unfold User_of_stream in H. inv_bind H.
    injection H as <-. exists a. split; [assumption|]. split; [reflexivity|].
    split.
    + apply setDefaultAttributesWhenEmpty_pic_url.
    + apply setDefaultAttributesWhenEmpty_nonempty.
  - apply setAttribute_pic_url.
  - intros u. unfold setDefaultAttributesWhenEmpty at 1.
    rewrite setDefaultAttributesWhenEmpty_nonempty. reflexivity.
Qed.

Lemma default_pic_url_applied_witness :
  User_of_stream 77 (sstream_of bob_text) = Ret bob /\
  exists u0,
    readAttributes (S (String.length bob_text)) (sstream_of bob_text)
      (mkUser 77 EmptyString EmptyString EmptyString [])
    = Ret u0 /\
    pic_url u0 = EmptyString /\ pic_url bob = DEFAULT_PIC_URL.
Proof.
  assert (H : User_of_stream 77 (sstream_of bob_text) = Ret bob) by reflexivity.
  split; [exact H|].
  destruct (proj1 (proj2 default_pic_url_applied) 77 (sstream_of bob_text) bob H)
    as (u0 & Hu0 & Hb & Hp & Hne).
  exists u0. split; [exact Hu0|]. split; [|reflexivity].
  vm_compute in Hu0. injection Hu0 as <-. reflexivity.
Defined.

(** ** The loops of the record builder come to an end *)

Lemma cut_length d s before after :
  cut d s = Some (before, after) ->
  String.length s = S (String.length before + String.length after).
Proof.
  revert before. induction s as [|c s IH]; intros before H; simpl in H.
  - discriminate.
  - destruct (Ascii.eqb c d).
    + injection H as <- <-. reflexivity.
    + destruct (cut d s) as [[b a]|]; [|discriminate].
      injection H as <- <-. simpl. f_equal. apply IH. reflexivity.
Qed.

Lemma peek_unread ss : (String.length (unread (peek ss).2) <= String.length (unread ss))%nat.
Proof.
  unfold peek. destruct (good ss); [|reflexivity].
  destruct (unread ss) eqn:E; simpl; rewrite ?E; simpl; lia.
Qed.

Lemma get_unread ss : (String.length (unread (get ss).2) <= String.length (unread ss))%nat.
Proof.
  unfold get. destruct (good ss); [|reflexivity].
  destruct (unread ss); simpl; lia.
Qed.

Lemma ignore1_unread ss :
  (String.length (unread (ignore1 ss)) <= String.length (unread ss))%nat.
Proof.
  unfold ignore1. destruct (good ss); [|reflexivity].
  destruct (unread ss); simpl; lia.
Qed.

Lemma ignore_until_unread d ss :
  (String.length (unread (ignore_until d ss)) <= String.length (unread ss))%nat.
Proof.
  unfold ignore_until. destruct (good ss); [|reflexivity].
  destruct (cut d (unread ss)) as [[b a]|] eqn:E; simpl; [|lia].
  apply cut_length in E. lia.
Qed.

Lemma ignore_until_shorter d ss c r :
  good ss = true -> unread ss = String c r ->
  (String.length (unread (ignore_until d ss)) < String.length (unread ss))%nat.
Proof.
  intros Hg Hu. unfold ignore_until. rewrite Hg.
  destruct (cut d (unread ss)) as [[b a]|] eqn:E; simpl.
  - apply cut_length in E. lia.
  - rewrite Hu. simpl. lia.
Qed.

Lemma getline_unread ss str d :
  (String.length (unread (getline ss str d).2) <= String.length (unread ss))%nat.
Proof.
  unfold getline. destruct (good ss); [|reflexivity].
  destruct (cut d (unread ss)) as [[b a]|] eqn:E; simpl; [|lia].
  apply cut_length in E. lia.
Qed.

Lemma stoi_no_Diverges s : stoi s <> Fail Diverges.
Proof.
  unfold stoi.
  destruct (match skip_spaces s with
            | String c s' =>
                if Ascii.eqb c "-" then (true, s')
                else if Ascii.eqb c "+" then (false, s') else (false, skip_spaces s)
            | EmptyString => (false, skip_spaces s)
            end) as [negative s2].
  destruct (read_digits s2 None) as [v|]; [|discriminate].
  destruct ((INT_MIN <=? (if negative then - v else v))
            && ((if negative then - v else v) <=? INT_MAX)); discriminate.
Qed.

Lemma parseIds_no_Diverges fuel ss val_str arr :
  (String.length (unread ss) < fuel)%nat ->
  parseIds fuel ss val_str arr <> Fail Diverges.
Proof.
  revert ss val_str arr. induction fuel as [|fuel IH]; intros ss val_str arr Hlt; [lia|].
  simpl. destruct (peek ss) as [c ss1] eqn:Hpeek.
  destruct (is_comma_or_quote c) eqn:Hc; [|discriminate].
  destruct (getline (ignore_until DQUOTE ss1) val_str DQUOTE) as [v ss2] eqn:Hget.
  pose proof (stoi_no_Diverges v) as Hs.
  destruct (stoi v) as [x|f]; simpl; [|congruence].
  apply IH.
  pose proof (getline_unread (ignore_until DQUOTE ss1) val_str DQUOTE) as L2.
  rewrite Hget in L2. simpl in L2.
  unfold peek in Hpeek. destruct (good ss) eqn:Hg.
  - destruct (unread ss) as [|c0 r] eqn:Hu.
    + injection Hpeek as <- <-. discriminate.
    + injection Hpeek as <- <-.
      pose proof (ignore_until_shorter DQUOTE ss c0 r Hg Hu) as L1.
      rewrite Hu in L1. lia.
  - injection Hpeek as <- <-. discriminate.
Qed.

Lemma stringArrayToUnsignedIntVector_no_Diverges s :
  stringArrayToUnsignedIntVector s <> Fail Diverges.
Proof. apply parseIds_no_Diverges. simpl. lia. Qed.

Lemma setAttribute_no_Diverges u title data :
  setAttribute u title data <> Fail Diverges.
Proof.
  unfold setAttribute. destruct (negb (string_empty title)); simpl; [|discriminate].
  destruct (String.eqb title "follows").
  { pose proof (stringArrayToUnsignedIntVector_no_Diverges data) as Hd.
    destruct (stringArrayToUnsignedIntVector data); simpl; congruence. }
  destruct (negb (string_empty data)); simpl; [|discriminate].
  destruct (String.eqb title "id_str").
  { pose proof (stoi_no_Diverges data) as Hd.
    destruct (stoi data); simpl; congruence. }
  repeat match goal with |- context [String.eqb ?a ?b] => destruct (String.eqb a b) end;
    discriminate.
Qed.

Lemma getAttributeTitle_unread ss :
  (String.length (unread (getAttributeTitle ss).2) <= String.length (unread ss))%nat.
Proof.
  unfold getAttributeTitle.
  pose proof (getline_unread (ignore_until DQUOTE ss) EmptyString DQUOTE).
  pose proof (ignore_until_unread DQUOTE ss). lia.
Qed.

Lemma getAttributeData_Ret ss data ss' :
  getAttributeData ss = Ret (data, ss') ->
  (String.length (unread ss') < String.length (unread ss))%nat.
Proof.
  unfold getAttributeData.
  pose proof (ignore_until_unread ":" ss) as L1.
  pose proof (ignore1_unread (ignore_until ":" ss)) as L2.
  set (s1 := ignore1 (ignore_until ":" ss)) in *.
  unfold peek, get. destruct (good s1) eqn:Hg; [|discriminate].
  destruct (unread s1) as [|c r] eqn:Hu; [discriminate|].
  rewrite Hu. intros H. inv_bind H. simpl in H. rewrite Hg in H.
  injection H as H.
  pose proof (getline_unread (mkSS r true) EmptyString
                (if Ascii.eqb c "[" then "]"%char else c)) as L3.
  rewrite H in L3. simpl in L3, L2. lia.
Qed.

Lemma getAttributeData_no_Diverges ss : getAttributeData ss <> Fail Diverges.
Proof.
  unfold getAttributeData.
  destruct (peek (ignore1 (ignore_until ":" ss))) as [c s1].
  unfold assert.
  destruct (match c with
            | Some c0 => Ascii.eqb c0 DQUOTE || Ascii.eqb c0 "["
            | None => false
            end); simpl; [|discriminate].
  destruct (get s1). discriminate.
Qed.

Lemma readAttributes_no_Diverges fuel ss u :
  (String.length (unread ss) < fuel)%nat ->
  readAttributes fuel ss u <> Fail Diverges.
Proof.
  revert ss u. induction fuel as [|fuel IH]; intros ss u Hlt; [lia|].
  simpl. destruct (good ss); [|discriminate].
  pose proof (peek_unread ss) as L1.
  destruct (peek ss) as [c ss1]. simpl in L1.
  destruct (bool_decide (c = Some TAB)); [discriminate|].
  pose proof (getAttributeTitle_unread ss1) as L2.
  destruct (getAttributeTitle ss1) as [title ss2]. simpl in L2.
  pose proof (getAttributeData_no_Diverges ss2) as Hd.
  destruct (getAttributeData ss2) as [[data ss3]|f] eqn:Hdata; simpl; [|congruence].
  apply getAttributeData_Ret in Hdata.
  pose proof (setAttribute_no_Diverges u title data) as Hs.
  destruct (setAttribute u title data) as [u'|f]; simpl; [|congruence].
  apply IH. pose proof (ignore1_unread ss3). lia.
Qed.

(** The builder always comes to an end: with a user or with a failure of
    the program's own. *)
Lemma User_of_stream_no_Diverges id0 ss : User_of_stream id0 ss <> Fail Diverges.
Proof.
  unfold User_of_stream.
  pose proof (readAttributes_no_Diverges (S (String.length (unread ss))) ss
                (mkUser id0 EmptyString EmptyString EmptyString [])) as H.
  destruct (readAttributes _ ss _); simpl; [discriminate|].
  intros E. apply H; [lia | congruence].
Qed.

(** ** C8: the follows value *)

Lemma cut_token d t rest :
  occurs d t = false -> cut d (t +:+ String d rest) = Some (t, rest).
Proof.
  induction t as [|c t IH]; simpl; intros H.
  - rewrite Ascii.eqb_refl. reflexivity.
  - apply orb_false_iff in H as [Hc Ht]. rewrite Hc, (IH Ht). reflexivity.
Qed.

Lemma getline_token d t rest str :
  occurs d t = false ->
  getline (sstream_of (t +:+ String d rest)) str d = (t, sstream_of rest).
Proof.
  intros Ht. unfold getline, sstream_of. simpl good. simpl unread.
  rewrite (cut_token _ _ _ Ht). reflexivity.
Qed.

Lemma ignore_until_first d s : ignore_until d (sstream_of (String d s)) = sstream_of s.
Proof.
  unfold ignore_until, sstream_of. simpl good. simpl unread. simpl cut.
  rewrite Ascii.eqb_refl. reflexivity.
Qed.

Lemma ignore_until_second c d s :
  Ascii.eqb c d = false ->
  ignore_until d (sstream_of (String c (String d s))) = sstream_of s.
Proof.
  intros Hc. unfold ignore_until, sstream_of. simpl good. simpl unread. simpl cut.
  rewrite Hc, Ascii.eqb_refl. reflexivity.
Qed.

Lemma parseIds_S fuel ss val_str arr :
  parseIds (S fuel) ss val_str arr =
    let '(c, ss1) := peek ss in
    if is_comma_or_quote c then
      let '(v, ss2) := getline (ignore_until DQUOTE ss1) val_str DQUOTE in
      let* x := stoi v in parseIds fuel ss2 v (arr ++ [to_uint x])
    else Ret arr.
Proof. reflexivity. Qed.

Lemma parseIds_first_token fuel t rest val_str arr :
  occurs DQUOTE t = false ->
  parseIds (S fuel) (sstream_of (String DQUOTE (t +:+ String DQUOTE rest))) val_str arr
  = let* v := stoi t in parseIds fuel (sstream_of rest) t (arr ++ [to_uint v]).
Proof.
  intros Ht. rewrite parseIds_S.
  change (peek (sstream_of (String DQUOTE (t +:+ String DQUOTE rest))))
    with (Some DQUOTE, sstream_of (String DQUOTE (t +:+ String DQUOTE rest))).
  change (is_comma_or_quote (Some DQUOTE)) with true. cbv iota.
  rewrite ignore_until_first, getline_token by assumption. reflexivity.
Qed.

Lemma parseIds_next_token fuel t rest val_str arr :
  occurs DQUOTE t = false ->
  parseIds (S fuel)
    (sstream_of (String "," (String DQUOTE (t +:+ String DQUOTE rest)))) val_str arr
  = let* v := stoi t in parseIds fuel (sstream_of rest) t (arr ++ [to_uint v]).
Proof.
  intros Ht. rewrite parseIds_S.
  change (peek (sstream_of (String "," (String DQUOTE (t +:+ String DQUOTE rest)))))
    with (Some ","%char,
          sstream_of (String "," (String DQUOTE (t +:+ String DQUOTE rest)))).
  change (is_comma_or_quote (Some ","%char)) with true. cbv iota.
  rewrite ignore_until_second, getline_token by (assumption || reflexivity).
  reflexivity.
Qed.

Lemma parseIds_render_tail ts fuel val_str arr :
  Forall (fun t => occurs DQUOTE t = false) ts ->
  (length ts < fuel)%nat ->
  parseIds fuel (sstream_of (render_tail ts)) val_str arr = convertAll ts arr.
Proof.
  intros Hts. revert fuel val_str arr.
  induction Hts as [|t ts Ht Hts IH]; intros fuel val_str arr Hlt.
  - destruct fuel; [simpl in Hlt; lia | reflexivity].
  - destruct fuel; [simpl in Hlt; lia|]. simpl render_tail.
    rewrite parseIds_next_token by assumption. simpl convertAll.
    destruct (stoi t) as [v|f]; cbn [bind]; [|reflexivity].
    apply IH. simpl in Hlt. lia.
Qed.

Lemma string_length_append (s1 s2 : string) :
  String.length (s1 +:+ s2) = (String.length s1 + String.length s2)%nat.
Proof. induction s1 as [|c s1 IH]; simpl; [reflexivity | rewrite IH; reflexivity]. Qed.

Lemma render_tail_length ts : (length ts <= String.length (render_tail ts))%nat.
Proof. induction ts as [|t ts IH]; simpl; [lia|]. rewrite string_length_append. simpl. lia. Qed.

Lemma stringArrayToUnsignedIntVector_render ts :
  Forall (fun t => occurs DQUOTE t = false) ts ->
  stringArrayToUnsignedIntVector (render ts) = convertAll ts [].
Proof.
  intros Hts. unfold stringArrayToUnsignedIntVector.
  destruct Hts as [|t ts Ht Hts]; [reflexivity|].
  simpl render. rewrite parseIds_first_token by assumption. simpl convertAll.
  destruct (stoi t) as [v|f]; cbn [bind]; [|reflexivity].
  apply parseIds_render_tail; [assumption|].
  cbn [String.length]. rewrite string_length_append. cbn [String.length].
  pose proof (render_tail_length ts). lia.
Qed.

Lemma read_digits_Some s a : read_digits s (Some a) <> None.
Proof.
  revert a. induction s as [|c s IH]; intros a; simpl; [discriminate|].
  destruct (digit_of c); [apply IH | discriminate].
Qed.

Lemma read_digits_None s : read_digits s None = None <-> starts_with_digit s = false.
Proof.
  destruct s as [|c s]; simpl; [tauto|].
  destruct (digit_of c); [|tauto].
  split; [|discriminate]. intros H. apply read_digits_Some in H. contradiction.
Qed.

Lemma stoi_invalid_argument t :
  stoi t = Fail (Uncaught invalid_argument) <-> numeric_prefix t = false.
Proof.
  unfold stoi, numeric_prefix, strip_sign.
  destruct (skip_spaces t) as [|c s].
  - simpl. tauto.
  - assert (Hgen : forall (negative : bool) s2,
              match read_digits s2 None with
              | Some v =>
                  if (INT_MIN <=? (if negative then - v else v))
                     && ((if negative then - v else v) <=? INT_MAX)
                  then Ret (if negative then - v else v)
                  else Fail (Uncaught out_of_range)
              | None => Fail (Uncaught invalid_argument)
              end = Fail (Uncaught invalid_argument)
              <-> starts_with_digit s2 = false).
    { intros negative s2. rewrite <- read_digits_None.
      destruct (read_digits s2 None) as [v|]; [|tauto].
      destruct ((INT_MIN <=? _) && _); split; discriminate. }
    destruct (Ascii.eqb c "-"); [apply (Hgen true)|].
    destruct (Ascii.eqb c "+"); [apply (Hgen false)|].
    apply (Hgen false).
Qed.

Lemma read_digits_leading s acc :
  read_digits s acc =
    match leading_digits s with
    | [] => acc
    | ds => Some (foldl (fun a d => 10 * a + d) (default 0 acc) ds)
    end.
Proof.
  revert acc. induction s as [|c s IH]; intros acc; simpl; [reflexivity|].
  destruct (digit_of c) as [d|]; [|reflexivity].
  rewrite IH. destruct (leading_digits s); reflexivity.
Qed.

Lemma starts_with_digit_leading s :
  starts_with_digit s = match leading_digits s with [] => false | _ => true end.
Proof. destruct s as [|c s]; simpl; [reflexivity|]. destruct (digit_of c); reflexivity. Qed.

(** What [stoi] makes of a token: the number it begins with when that is
    an [int], [out_of_range] when it is none, [invalid_argument] when the
    token begins with no number. *)
Lemma stoi_leading_number t :
  stoi t =
    if numeric_prefix t then
      if (INT_MIN <=? leading_number t) && (leading_number t <=? INT_MAX)
      then Ret (leading_number t)
      else Fail (Uncaught out_of_range)
    else Fail (Uncaught invalid_argument).
Proof.
  assert (Hgen : forall (negative : bool) s2,
            match read_digits s2 None with
            | Some v =>
                if (INT_MIN <=? (if negative then - v else v))
                   && ((if negative then - v else v) <=? INT_MAX)
                then Ret (if negative then - v else v)
                else Fail (Uncaught out_of_range)
            | None => Fail (Uncaught invalid_argument)
            end
            = if starts_with_digit s2 then
                if (INT_MIN <=? (if negative then - decimal (leading_digits s2)
                                 else decimal (leading_digits s2)))
                   && ((if negative then - decimal (leading_digits s2)
                        else decimal (leading_digits s2)) <=? INT_MAX)
                then Ret (if negative then - decimal (leading_digits s2)
                          else decimal (leading_digits s2))
                else Fail (Uncaught out_of_range)
              else Fail (Uncaught invalid_argument)).
  { intros negative s2. rewrite read_digits_leading, starts_with_digit_leading.
    unfold decimal. destruct (leading_digits s2); reflexivity. }
  unfold stoi, numeric_prefix, leading_number, strip_sign, minus_sign.
  destruct (skip_spaces t) as [|c s]; [reflexivity|].
  destruct (Ascii.eqb c "-") eqn:Em; [apply (Hgen true)|].
  destruct (Ascii.eqb c "+") eqn:Ep; cbn [orb]; apply (Hgen false).
Qed.

Lemma stoi_int_token t :
  int_token t = true -> stoi t = Ret (leading_number t).
Proof.
  unfold int_token. intros Ht. rewrite stoi_leading_number.
  apply andb_prop in Ht as [Ht H2]. apply andb_prop in Ht as [H0 H1].
  rewrite H0, H1, H2. reflexivity.
Qed.

Lemma stoi_not_int_token t :
  int_token t = false ->
  stoi t = Fail (Uncaught (if numeric_prefix t then out_of_range else invalid_argument)).
Proof.
  unfold int_token. intros Ht. rewrite stoi_leading_number.
  destruct (numeric_prefix t); [|reflexivity]. cbn [andb] in Ht.
  rewrite Ht. reflexivity.
Qed.

Lemma convertAll_int_tokens ts arr :
  forallb int_token ts = true ->
  convertAll ts arr = Ret (arr ++ ((fun t => to_uint (leading_number t)) <$> ts)).
Proof.
  revert arr. induction ts as [|t ts IH]; intros arr Hts; simpl.
  - rewrite app_nil_r. reflexivity.
  - simpl in Hts. apply andb_prop in Hts as [Ht Hts].
    rewrite (stoi_int_token t Ht). cbn [bind].
    rewrite IH by assumption. rewrite <- app_assoc. reflexivity.
Qed.

Lemma convertAll_first_refused good t rest arr :
  forallb int_token good = true -> int_token t = false ->
  convertAll (good ++ t :: rest) arr
  = Fail (Uncaught (if numeric_prefix t then out_of_range else invalid_argument)).
Proof.
  revert arr. induction good as [|g good IH]; intros arr Hgood Ht; simpl.
  - rewrite (stoi_not_int_token t Ht). reflexivity.
  - simpl in Hgood. apply andb_prop in Hgood as [Hg Hgood].
    rewrite (stoi_int_token g Hg). cbn [bind]. apply IH; assumption.
Qed.

Lemma convertAll_refused ts t arr :
  t ∈ ts -> int_token t = false -> exists e, convertAll ts arr = Fail (Uncaught e).
Proof.
  intros Hin Hno. revert arr. induction ts as [|t' ts IH]; intros arr.
  - inversion Hin.
  - simpl. destruct (int_token t') eqn:Et'.
    + rewrite (stoi_int_token t' Et'). cbn [bind].
      apply elem_of_cons in Hin as [->|Hin]; [congruence|]. apply IH. assumption.
    + rewrite (stoi_not_int_token t' Et'). cbn [bind]. eauto.
Qed.

(** C8, as the code has it. A follows value written as quoted tokens with
    commas between them is converted token by token, in input order, each
    result appended as an [unsigned int]. [stoi] reads the number a token
    begins with, after white space and a sign, and leaves alone whatever
    follows it: when every token begins with a number that is an [int] the
    vector holds those numbers, a negative one wrapped round. The first
    token that does not begin with a number makes [stoi] throw
    [invalid_argument], the first whose number is no [int] makes it throw
    [out_of_range]; nothing catches either. [setAttribute] hands the value
    of a follows attribute to this conversion without asking that it be
    non-empty, stores the vector it returns, and fails as it fails; the
    empty value gives the empty vector. The loop always comes to an end. A
    run on a file with a follows token that is no number ends with the
    exception and writes no file. *)
Theorem stringArrayToUnsignedIntVector_tokens `{StdSort} (u : User) :
  (forall ts,
     Forall (fun t => occurs DQUOTE t = false) ts ->
     stringArrayToUnsignedIntVector (render ts) = convertAll ts []) /\
  (forall t,
     stoi t =
       if numeric_prefix t then
         if (INT_MIN <=? leading_number t) && (leading_number t <=? INT_MAX)
         then Ret (leading_number t)
         else Fail (Uncaught out_of_range)
       else Fail (Uncaught invalid_argument)) /\
  (forall t, stoi t = Fail (Uncaught invalid_argument) <-> numeric_prefix t = false) /\
  (forall ts,
     Forall (fun t => occurs DQUOTE t = false) ts ->
     forallb int_token ts = true ->
     stringArrayToUnsignedIntVector (render ts)
     = Ret ((fun t => to_uint (leading_number t)) <$> ts)) /\
  (forall good t rest,
     Forall (fun t => occurs DQUOTE t = false) (good ++ t :: rest) ->
     forallb int_token good = true -> int_token t = false ->
     stringArrayToUnsignedIntVector (render (good ++ t :: rest))
     = Fail (Uncaught (if numeric_prefix t then out_of_range else invalid_argument))) /\
  (forall ts t,
     Forall (fun t => occurs DQUOTE t = false) ts ->
     t ∈ ts -> numeric_prefix t = false ->
     exists e, stringArrayToUnsignedIntVector (render ts) = Fail (Uncaught e)) /\
  stringArrayToUnsignedIntVector EmptyString = Ret [] /\
  (forall raw, stringArrayToUnsignedIntVector raw <> Fail Diverges) /\
  (forall raw,
     setAttribute u "follows" raw
     = let* f := stringArrayToUnsignedIntVector raw in
       Ret (mkUser (id u) (name u) (location u) (pic_url u) f)) /\
  setAttribute u "follows" EmptyString
  = Ret (mkUser (id u) (name u) (location u) (pic_url u) []) /\
  main 10 0 ["network.json"] (one_file four_file)
  = ([], Fail (Uncaught invalid_argument)).
Proof.
  split; [exact stringArrayToUnsignedIntVector_render|].
  split; [exact stoi_leading_number|].
  split; [exact stoi_invalid_argument|].
  split; [|split; [|split]].
  - intros ts Hq Hts. rewrite stringArrayToUnsignedIntVector_render by assumption.
    rewrite convertAll_int_tokens by assumption. reflexivity.
  - intros good t rest Hq Hgood Ht.
    rewrite stringArrayToUnsignedIntVector_render by assumption.
    apply convertAll_first_refused; assumption.
  - intros ts t Hq Hin Hno.
    rewrite stringArrayToUnsignedIntVector_render by assumption.
    apply (convertAll_refused ts t); [assumption|].
    unfold int_token. rewrite Hno. reflexivity.
  - split; [reflexivity|].
    split; [exact stringArrayToUnsignedIntVector_no_Diverges|].
    split; [intros raw; reflexivity|]. split; reflexivity.
Qed.

Lemma stringArrayToUnsignedIntVector_tokens_witness :
  stringArrayToUnsignedIntVector (render ["1"; "4x"; "-1"]) = Ret [1; 4; 4294967295] /\
  stringArrayToUnsignedIntVector (render ["1"; "four"; "4"])
  = Fail (Uncaught invalid_argument) /\
  stringArrayToUnsignedIntVector (render ["1"; "3000000000x"])
  = Fail (Uncaught out_of_range).
Proof.
  destruct (@stringArrayToUnsignedIntVector_tokens stable_StdSort User_default)
    as (_ & _ & _ & Hconv & Hfail & _).
  split; [|split].
  - apply (Hconv ["1"; "4x"; "-1"]); [repeat constructor | reflexivity].
  - apply (Hfail ["1"] "four" ["4"]); [repeat constructor | reflexivity | reflexivity].
  - apply (Hfail ["1"] "3000000000x" []); [repeat constructor | reflexivity | reflexivity].
Defined.

(** C8, as the claim has it, fails: the token [1x] is not numeric, and the
    conversion returns the vector holding 1. *)
Lemma non_numeric_token_converted :
  numeric "1x" = false /\
  stringArrayToUnsignedIntVector (render ["1x"]) = Ret [1].
Proof. split; reflexivity. Qed.

(** ** C7: titles outside the vocabulary *)

Lemma String_eqb_not_in title :
  title ∉ vocabulary ->
  String.eqb title "follows" = false /\ String.eqb title "id_str" = false /\
  String.eqb title "name" = false /\ String.eqb title "pic_url" = false /\
  String.eqb title "location" = false.
Proof.
  intros Hno. unfold vocabulary in Hno.
  repeat split; apply String.eqb_neq; intros ->; apply Hno;
    repeat (first [left | right]).
Qed.

Lemma setAttribute_unrecognized u title data :
  title ∉ vocabulary ->
  setAttribute u title data =
    if string_empty title || string_empty data
    then Fail AssertionFailed
    else Fail (ExitFailure (unrecognized title)).
Proof.
  intros Hno. apply String_eqb_not_in in Hno as (E1 & E2 & E3 & E4 & E5).
  unfold setAttribute. destruct (string_empty title); [reflexivity|].
  simpl. rewrite E1. destruct (string_empty data); [reflexivity|].
  simpl. rewrite E2, E3, E4, E5. reflexivity.
Qed.

Lemma readAttributes_Fail fuel ss u c ss0 title ss1 data ss2 f :
  good ss = true ->
  peek ss = (c, ss0) -> c <> Some TAB ->
  getAttributeTitle ss0 = (title, ss1) ->
  getAttributeData ss1 = Ret (data, ss2) ->
  setAttribute u title data = Fail f ->
  readAttributes (S fuel) ss u = Fail f.
Proof.
  intros Hg Hp Hc Ht Hd Hs. simpl. rewrite Hg, Hp.
  rewrite bool_decide_eq_false_2 by assumption.
  rewrite Ht, Hd. simpl. rewrite Hs. reflexivity.
Qed.

Lemma readUsers_Fail fuel id0 inFS userData st c inFS0 userData' inFS1 f :
  peek inFS = (c, inFS0) -> c <> Some "]"%char ->
  getline (ignore_until "{" inFS0) userData "}" = (userData', inFS1) ->
  User_of_stream id0 (sstream_of userData') = Fail f ->
  readUsers (S fuel) id0 inFS userData st = Fail f.
Proof.
  intros Hp Hc Hg Hu. simpl. rewrite Hp.
  rewrite bool_decide_eq_false_2 by assumption.
  rewrite Hg, Hu. reflexivity.
Qed.

Lemma main_construction_Fail `{StdSort} fuel id0 input_filename rest fs f :
  SocialNetwork_of_file fuel id0 (fs input_filename) = Fail f ->
  main fuel id0 (input_filename :: rest) fs = ([], Fail f).
Proof. intros Hf. unfold main. rewrite Hf. reflexivity. Qed.

(** C7, as the code has it. For a title outside the vocabulary,
    [setAttribute] reports the unrecognised attribute and exits when title
    and value are both non-empty, and fails on its assertion when one of
    them is empty. Its failure is the failure of the builder's loop; a
    failure of the builder is the failure of the reading loop, whatever
    records came before; a failure of the constructor is the failure of the
    run, with no file written. Such is the run on a file whose second
    record has an [email] attribute. *)
Theorem setAttribute_outside_vocabulary `{StdSort} (u : User) (title data : string) :
  title ∉ vocabulary ->
  (string_empty title = false -> string_empty data = false ->
     setAttribute u title data = Fail (ExitFailure (unrecognized title))) /\
  (string_empty title = true \/ string_empty data = true ->
     setAttribute u title data = Fail AssertionFailed) /\
  (exists f,
     setAttribute u title data = Fail f /\
     forall fuel ss c ss0 ss1 ss2,
       good ss = true -> peek ss = (c, ss0) -> c <> Some TAB ->
       getAttributeTitle ss0 = (title, ss1) ->
       getAttributeData ss1 = Ret (data, ss2) ->
       readAttributes (S fuel) ss u = Fail f) /\
  (forall f fuel id0 inFS userData st c inFS0 userData' inFS1,
     peek inFS = (c, inFS0) -> c <> Some "]"%char ->
     getline (ignore_until "{" inFS0) userData "}" = (userData', inFS1) ->
     User_of_stream id0 (sstream_of userData') = Fail f ->
     readUsers (S fuel) id0 inFS userData st = Fail f) /\
  (forall f fuel id0 input_filename rest fs,
     SocialNetwork_of_file fuel id0 (fs input_filename) = Fail f ->
     main fuel id0 (input_filename :: rest) fs = ([], Fail f)) /\
  main 10 0 ["network.json"] (one_file email_file)
  = ([], Fail (ExitFailure (unrecognized "email"))).
Proof.
  intros Hno. pose proof (setAttribute_unrecognized u title data Hno) as E.
  split; [|split; [|split; [|split; [|split]]]].
  - intros Ht Hd. rewrite E, Ht, Hd. reflexivity.
  - intros [Ht|Hd]; rewrite E; [rewrite Ht | rewrite Hd, orb_true_r]; reflexivity.
  - exists (if string_empty title || string_empty data
            then AssertionFailed else ExitFailure (unrecognized title)).
    assert (E' : setAttribute u title data
                 = Fail (if string_empty title || string_empty data
                         then AssertionFailed else ExitFailure (unrecognized title))).
    { rewrite E. destruct (string_empty title || string_empty data); reflexivity. }
    split; [exact E'|].
    intros. eapply readAttributes_Fail; eauto.
  - intros. eapply readUsers_Fail; eauto.
  - intros. apply main_construction_Fail. assumption.
  - reflexivity.
Qed.

Lemma setAttribute_outside_vocabulary_witness :
  ("email" ∉ vocabulary) /\
  setAttribute User_default "email" "bo@example.org"
  = Fail (ExitFailure (unrecognized "email")).
Proof.
  assert (Hno : "email" ∉ vocabulary).
  { apply (bool_decide_unpack _). vm_compute. exact I. }
  split; [exact Hno|].
  apply (@setAttribute_outside_vocabulary stable_StdSort User_default "email"
           "bo@example.org" Hno); reflexivity.
Defined.

(** C7, as the claim has it, fails: [email] with an empty value does not
    reach the report of an unrecognised attribute; the assertion on the
    value fails first. *)
Lemma empty_email_fails_assertion :
  ("email" ∉ vocabulary) /\
  setAttribute User_default "email" EmptyString = Fail AssertionFailed /\
  setAttribute User_default "email" EmptyString
  <> Fail (ExitFailure (unrecognized "email")) /\
  @main stable_StdSort 10 0 ["network.json"] (one_file empty_email_file)
  = ([], Fail AssertionFailed).
Proof.
  split; [apply (bool_decide_unpack _); vm_compute; exact I|].
  split; [reflexivity|]. split; [discriminate | reflexivity].
Qed.

(** ** C4: the sorting flag and the sorting step *)




(** ** C3: the order of arrival does not matter *)

Lemma forallb_Permutation {A} (p : A -> bool) (l1 l2 : list A) :
  l1 ≡ₚ l2 -> forallb p l1 = forallb p l2.
Proof.
  intros Hp. induction Hp as [|x l1 l2 _ IH|x y l|l1 l2 l3 _ IH1 _ IH2]; simpl.
  - reflexivity.
  - rewrite IH. reflexivity.
  - destruct (p x), (p y); reflexivity.
  - congruence.
Qed.

Lemma sorted_arrangement `{StdSort} (records sorted : list User) (N : Z) :
  records ≡ₚ sorted ->
  id <$> sorted = seqZ 1 N ->
  0 <= N < 2 ^ 31 ->
  (if mismatch 1 records then std_sort records else records) = sorted.
Proof.
  intros Hperm Hids HN.
  assert (Hlen : Z.of_nat (length sorted) = N).
  { apply (f_equal length) in Hids. rewrite length_fmap, length_seqZ in Hids. lia. }
  assert (Hnd : NoDup (id <$> sorted)) by (rewrite Hids; apply NoDup_seqZ).
  assert (Hasc : ascending sorted) by (eapply seqZ_ids_ascending; eauto).
  destruct (mismatch 1 records) eqn:Hm.
  - apply ascending_unique.
    + rewrite std_sort_perm, Hperm. assumption.
    + apply std_sort_sorted.
    + assumption.
    + rewrite std_sort_perm. assumption.
  - apply mismatch_false in Hm;
      [| lia | apply Permutation_length in Hperm; unfold UINT_RANGE; lia].
    apply ascending_unique.
    + rewrite Hperm. assumption.
    + eapply seqZ_ids_ascending; eauto.
    + assumption.
    + assumption.
Qed.

(** C3. Records whose ids are 1..N, arriving in any order, are assembled
    into the network that the same records give when they arrive in
    ascending order of id: the same outcome of the constructor, hence the
    same sorted vector of users, the same matrix and names, and the same
    answer to every follower and mutual query. *)
Theorem arrival_order_irrelevant `{StdSort} (records sorted : list User) (N : Z) :
  records ≡ₚ sorted ->
  id <$> sorted = seqZ 1 N ->
  0 <= N < 2 ^ 31 ->
  SocialNetwork_of_records records = SocialNetwork_of_records sorted /\
  (forall sn, SocialNetwork_of_records records = Ret sn ->
              users sn = sorted /\ numUsers sn = N) /\
  (forall currID,
     (let* sn := SocialNetwork_of_records records in
      getFollowerAndMutualsFromId sn [] [] currID)
     = (let* sn := SocialNetwork_of_records sorted in
        getFollowerAndMutualsFromId sn [] [] currID)).
Proof.
  intros Hperm Hids HN.
  assert (Heq : SocialNetwork_of_records records = SocialNetwork_of_records sorted).
  { rewrite !SocialNetwork_of_records_eq.
    rewrite (forallb_Permutation _ _ _ Hperm), (Permutation_length Hperm).
    rewrite (sorted_arrangement records sorted N) by assumption.
    rewrite (sorted_arrangement sorted sorted N) by (assumption || reflexivity).
    reflexivity. }
  split; [exact Heq|]. split; [|intros currID; rewrite Heq; reflexivity].
  intros sn Hsn. rewrite SocialNetwork_of_records_eq in Hsn.
  destruct (forallb isValid records); [|discriminate].
  apply buildMatrix_Ret in Hsn as (Hn & Hu & _ & _).
  rewrite (sorted_arrangement records sorted N) in Hu by assumption.
  split; [assumption|]. rewrite Hn, (Permutation_length Hperm).
  apply (f_equal length) in Hids. rewrite length_fmap, length_seqZ in Hids.
  rewrite to_uint_small by (unfold UINT_RANGE; lia). lia.
Qed.

Lemma arrival_order_irrelevant_witness :
  [bob; carol; alice] ≡ₚ trio /\
  @SocialNetwork_of_records stable_StdSort [bob; carol; alice] = Ret trio_net /\
  @SocialNetwork_of_records stable_StdSort trio = Ret trio_net.
Proof.
  assert (Hp : [bob; carol; alice] ≡ₚ trio).
  { symmetry. apply (Permutation_cons_append [bob; carol] alice). }
  split; [exact Hp|].
  destruct (@arrival_order_irrelevant stable_StdSort [bob; carol; alice] trio 3
              Hp eq_refl ltac:(lia)) as (Heq & _).
  rewrite Heq. split; reflexivity.
Defined.

(* ================================================================== *)
(** * Further properties of the code *)
(* ================================================================== *)

(** ** User.cpp: the comparison operators *)

(** [operator==] holds exactly of two users with the same five members,
    and [operator!=] exactly of the others. *)
Lemma User_eqb_spec (a b : User) :
  (User_eqb a b = true <-> a = b) /\ (User_neb a b = true <-> a <> b).
Proof.
  assert (E : User_eqb a b = true <-> a = b).
  { unfold User_eqb. rewrite !andb_true_iff, Z.eqb_eq, !String.eqb_eq,
      bool_decide_eq_true.
    destruct a, b; simpl. split.
    - intros [[[[-> ->] ->] ->] ->]. reflexivity.
    - intros E. injection E as -> -> -> -> ->. auto. }
  split; [exact E|].
  unfold User_neb. rewrite negb_true_iff, <- not_true_iff_false, E. tauto.
Qed.

(** X1. [operator<] is a strict weak ordering, which is what [std::sort]
    asks of it: no user is less than itself, less-than is transitive, and
    being less in neither direction (having the same id) is transitive. *)
Theorem User_lt_strict_weak_order :
  (forall a, User_lt a a = false) /\
  (forall a b c, User_lt a b = true -> User_lt b c = true -> User_lt a c = true) /\
  (forall a b, User_lt a b = false /\ User_lt b a = false <-> id a = id b) /\
  (forall a b c,
     User_lt a b = false -> User_lt b a = false ->
     User_lt b c = false -> User_lt c b = false ->
     User_lt a c = false /\ User_lt c a = false).
Proof.
  unfold User_lt. repeat split; intros; lia.
Qed.

Lemma User_lt_strict_weak_order_witness :
  User_lt alice bob = true /\ User_lt bob carol = true /\ User_lt alice carol = true /\
  User_lt castor pollux = false /\ User_lt pollux castor = false.
Proof.
  destruct User_lt_strict_weak_order as (_ & Htrans & Hsame & _).
  assert (H1 : User_lt alice bob = true) by reflexivity.
  assert (H2 : User_lt bob carol = true) by reflexivity.
  split; [exact H1|]. split; [exact H2|].
  split; [exact (Htrans alice bob carol H1 H2)|].
  apply (Hsame castor pollux). reflexivity.
Defined.

(** X2. The four ordering operators look at the id alone and agree with
    one another: [a > b] is [b < a], [a >= b] is [b <= a], and [a <= b] is
    [a < b] or the same id. They do not agree with [operator==]: two users
    are [<=] in both directions as soon as their ids are equal, whatever
    their other members. *)
Theorem User_ordering_operators (a b : User) :
  User_gt a b = User_lt b a /\
  User_ge a b = User_le b a /\
  User_le a b = (User_lt a b || (id a =? id b)) /\
  (User_le a b && User_le b a = true <-> id a = id b) /\
  (User_eqb a b = true -> User_le a b && User_ge a b = true) /\
  (id a = id b -> name a <> name b ->
   User_le a b && User_le b a = true /\ User_eqb a b = false).
Proof.
  unfold User_gt, User_ge, User_le, User_lt.
  split; [lia|]. split; [lia|]. split; [lia|]. split; [lia|]. split.
  - intros E. apply User_eqb_spec in E as ->. lia.
  - intros Hid Hname. split; [lia|].
    apply not_true_iff_false. intros E. apply User_eqb_spec in E. congruence.
Qed.

Lemma User_ordering_operators_witness :
  id castor = id pollux /\ name castor <> name pollux /\
  User_le castor pollux && User_le pollux castor = true /\
  User_eqb castor pollux = false.
Proof.
  assert (H1 : id castor = id pollux) by reflexivity.
  assert (H2 : name castor <> name pollux) by discriminate.
  split; [exact H1|]. split; [exact H2|].
  apply (User_ordering_operators castor pollux); assumption.
Defined.

(** ** SocialNetwork.cpp: the follower and mutual query *)

(** Whatever network the query runs on, when it returns it has appended
    the two lists of the specification. *)
Lemma scanOthers_Ret sn currID others followers mutuals fs ms :
  scanOthers sn currID others followers mutuals = Ret (fs, ms) ->
  fs = followers ++
         filter (fun o => o <> currID /\ isFollowing sn o currID = Ret true) others /\
  ms = mutuals ++
         filter (fun o => isFollowing sn currID o = Ret true)
           (filter (fun o => o <> currID /\ isFollowing sn o currID = Ret true) others).
Proof.
  revert followers mutuals. induction others as [|o others IH]; intros followers mutuals H.
  { simpl in H. injection H as <- <-. rewrite filter_nil, !app_nil_r. auto. }
  simpl scanOthers in H. rewrite (filter_cons _ o).
  destruct (decide (currID = o)) as [->|Hne].
  - rewrite bool_decide_eq_false_2 in H by (intros Hn; apply Hn; reflexivity).
    rewrite decide_False by (intros [Hn _]; apply Hn; reflexivity).
    apply IH. exact H.
  - rewrite bool_decide_eq_true_2 in H by assumption.
    destruct (isFollowing sn o currID) as [b|f] eqn:Hb; [|discriminate].
    simpl bind in H. destruct b.
    + rewrite decide_True by (split; [congruence | reflexivity]).
      destruct (isFollowing sn currID o) as [m|f] eqn:Hm; [|discriminate].
      simpl bind in H. rewrite (filter_cons _ o). destruct m.
      * rewrite decide_True by assumption.
        apply IH in H as [-> ->]. rewrite <- !app_assoc. auto.
      * rewrite decide_False by (simpl; congruence).
        apply IH in H as [-> ->]. rewrite <- !app_assoc. auto.
    + rewrite decide_False by (intros [_ Hn]; simpl in Hn; congruence).
      apply IH. exact H.
Qed.

Lemma getFollowerAndMutualsFromId_Ret sn currID fs ms :
  getFollowerAndMutualsFromId sn [] [] currID = Ret (fs, ms) ->
  fs = spec_followers sn currID /\ ms = spec_mutuals sn currID.
Proof.
  intros H. apply scanOthers_Ret in H as [Hf Hm]. simpl in Hf, Hm. auto.
Qed.

(** X3. Whenever the query returns, on any network and for any id: the
    mutuals it lists are a sublist of the followers it lists, the followers
    are a sublist of 1..N, so without repetition, and do not hold the id
    itself; for an id in 1..N there are at most N-1 of them, none when the
    network has a single user. *)
Theorem mutuals_among_followers (sn : SocialNetwork) (currID : Z) (fs ms : list Z) :
  getFollowerAndMutualsFromId sn [] [] currID = Ret (fs, ms) ->
  fs = spec_followers sn currID /\
  ms = spec_mutuals sn currID /\
  ms `sublist_of` fs /\
  fs `sublist_of` seqZ 1 (numUsers sn) /\
  NoDup fs /\
  (1 <= currID <= numUsers sn -> Z.of_nat (length fs) <= numUsers sn - 1) /\
  (1 <= currID <= numUsers sn -> numUsers sn = 1 -> fs = [] /\ ms = []).
Proof.
  intros H. apply getFollowerAndMutualsFromId_Ret in H as [-> ->].
  assert (Hsub : spec_followers sn currID `sublist_of` seqZ 1 (numUsers sn))
    by apply sublist_filter.
  assert (Hlen : 1 <= currID <= numUsers sn ->
                 Z.of_nat (length (spec_followers sn currID)) <= numUsers sn - 1).
  { intros Hc. unfold spec_followers.
    pose proof (length_filter_lt
                  (fun o => o <> currID /\ isFollowing sn o currID = Ret true)
                  (seqZ 1 (numUsers sn)) currID) as Hlt.
    rewrite length_seqZ in Hlt.
    assert ((length (filter (fun o => o <> currID /\ isFollowing sn o currID = Ret true)
                       (seqZ 1 (numUsers sn))) < Z.to_nat (numUsers sn))%nat).
    { apply Hlt; [apply elem_of_seqZ_1; lia | intros [Hn _]; apply Hn; reflexivity]. }
    lia. }
  split; [reflexivity|]. split; [reflexivity|].
  split; [apply sublist_filter|]. split; [exact Hsub|].
  split; [eapply sublist_NoDup; [apply NoDup_seqZ | exact Hsub]|].
  split; [exact Hlen|].
  intros Hc H1. specialize (Hlen Hc). rewrite H1 in Hlen.
  assert (E : spec_followers sn currID = []).
  { destruct (spec_followers sn currID); [reflexivity | simpl in Hlen; lia]. }
  unfold spec_mutuals. rewrite E. auto.
Qed.

Lemma mutuals_among_followers_witness :
  getFollowerAndMutualsFromId trio_net [] [] 1 = Ret ([2], [2]) /\
  [2] `sublist_of` [2] /\ NoDup [2].
Proof.
  assert (H : getFollowerAndMutualsFromId trio_net [] [] 1 = Ret ([2], [2]))
    by reflexivity.
  split; [exact H|].
  destruct (mutuals_among_followers trio_net 1 [2] [2] H) as (_ & _ & Hs & _ & Hn & _).
  split; assumption.
Defined.

(** X4. Being a mutual is symmetric: when the query returns for two ids
    of 1..N, the second is listed among the mutuals of the first exactly
    when the first is listed among the mutuals of the second. *)
Theorem mutuals_symmetric (sn : SocialNetwork) (a b : Z) (fa ma fb mb : list Z) :
  1 <= a <= numUsers sn -> 1 <= b <= numUsers sn ->
  getFollowerAndMutualsFromId sn [] [] a = Ret (fa, ma) ->
  getFollowerAndMutualsFromId sn [] [] b = Ret (fb, mb) ->
  (b ∈ ma <-> a ∈ mb).
Proof.
  intros Ha Hb Hqa Hqb.
  apply getFollowerAndMutualsFromId_Ret in Hqa as (_ & ->).
  apply getFollowerAndMutualsFromId_Ret in Hqb as (_ & ->).
  unfold spec_mutuals, spec_followers.
  rewrite !list_elem_of_filter, !elem_of_seqZ_1. intuition congruence.
Qed.

Lemma mutuals_symmetric_witness :
  getFollowerAndMutualsFromId trio_net [] [] 1 = Ret ([2], [2]) /\
  getFollowerAndMutualsFromId trio_net [] [] 2 = Ret ([1], [1]) /\
  (2 ∈ [2] <-> 1 ∈ [1]).
Proof.
  assert (H1 : getFollowerAndMutualsFromId trio_net [] [] 1 = Ret ([2], [2]))
    by reflexivity.
  assert (H2 : getFollowerAndMutualsFromId trio_net [] [] 2 = Ret ([1], [1]))
    by reflexivity.
  split; [exact H1|]. split; [exact H2|].
  apply (mutuals_symmetric trio_net 1 2 [2] [2] [1] [1]); simpl; (lia || assumption).
Defined.

(** ** SocialNetwork.cpp: what the constructor builds *)

Lemma buildRows_names n us idxs m0 names0 m names :
  buildRows n us idxs m0 names0 = Ret (m, names) ->
  length names = (length names0 + length idxs)%nat.
Proof.
  revert m0 names0. induction idxs as [|i idxs IH]; intros m0 names0 H; simpl in H.
  - injection H as <- <-. simpl. lia.
  - inv_bind H. destruct a as [row nm]. apply IH in H.
    rewrite length_app in H. simpl in *. lia.
Qed.

Lemma buildRow_name n us i row nm :
  buildRow n us i = Ret (row, nm) ->
  exists u, us !! Z.to_nat i = Some u /\ isValid u = true /\ nm = name u.
Proof.
  unfold buildRow. destruct (us !! Z.to_nat i) as [u|]; [|discriminate].
  intros H. inv_bind H. inv_bind H. inv_bind H. injection H as _ <-.
  unfold getName in Ha1. inv_bind Ha1. apply assert_Ret_inv in Ha2.
  injection Ha1 as <-. eauto.
Qed.

(** X5. What the constructor establishes, for any records it accepts:
    [numUsers] is the number of users held, the users are the records
    (rearranged at most) and all valid, they stand in ascending order of
    id whether or not the sort ran, [userNames] holds their names in the
    same order, and the matrix is square of side [numUsers]. *)
Theorem constructor_invariants `{StdSort} (records : list User) (sn : SocialNetwork) :
  Z.of_nat (length records) < UINT_RANGE - 1 ->
  SocialNetwork_of_records records = Ret sn ->
  numUsers sn = Z.of_nat (length (users sn)) /\
  users sn ≡ₚ records /\
  Forall (fun u => isValid u = true) (users sn) /\
  ascending (users sn) /\
  userNames sn = name <$> users sn /\
  square sn.
Proof.
  intros Hlen Hsn.
  pose proof (SocialNetwork_of_records_Ret _ _ Hsn) as (Hn & Hsq & Hperm & Hvalid).
  rewrite to_uint_small in Hn by (unfold UINT_RANGE in *; lia).
  assert (HN : numUsers sn = Z.of_nat (length (users sn))).
  { rewrite Hn, (Permutation_length Hperm). reflexivity. }
  split; [exact HN|]. split; [exact Hperm|].
  split.
  { rewrite Hperm. apply Forall_forall. intros u Hu.
    rewrite forallb_forall in Hvalid. apply Hvalid, list_elem_of_In. exact Hu. }
  split.
  { pose proof Hsn as Hsn'. rewrite SocialNetwork_of_records_eq in Hsn'.
    destruct (forallb isValid records); [|discriminate].
    apply buildMatrix_Ret in Hsn' as (_ & -> & _ & _).
    destruct (mismatch 1 records) eqn:Hm; [apply std_sort_sorted|].
    apply mismatch_false in Hm; [|lia|unfold UINT_RANGE in *; lia].
    eapply seqZ_ids_ascending. exact Hm. }
  split; [|exact Hsq].
  assert (Hnames : length (userNames sn) = length (users sn)).
  { pose proof Hsn as Hsn'. rewrite SocialNetwork_of_records_eq in Hsn'.
    destruct (forallb isValid records); [|discriminate].
    unfold buildMatrix in Hsn'. inv_bind Hsn'. destruct a as [m names].
    injection Hsn' as <-. simpl in *.
    apply buildRows_names in Ha. rewrite length_seqZ in Ha. simpl in Ha. lia. }
  apply list_eq. intros i. rewrite list_lookup_fmap.
  destruct (decide (i < length (users sn))%nat) as [Hi|Hi].
  - destruct (SocialNetwork_of_records_rows records sn (Z.of_nat i) Hsn)
      as (row & nm & Hrow & _ & Hnm); [lia|].
    apply buildRow_name in Hrow as (u & Hu & _ & ->).
    rewrite Nat2Z.id in Hu, Hnm. rewrite Hnm, Hu. reflexivity.
  - rewrite !lookup_ge_None_2 by lia. reflexivity.
Qed.

Lemma constructor_invariants_witness :
  @SocialNetwork_of_records stable_StdSort [carol; alice; bob] = Ret trio_net /\
  userNames trio_net = name <$> users trio_net /\
  ascending (users trio_net).
Proof.
  assert (H : @SocialNetwork_of_records stable_StdSort [carol; alice; bob] = Ret trio_net)
    by reflexivity.
  split; [exact H|].
  destruct (@constructor_invariants stable_StdSort [carol; alice; bob] trio_net
              ltac:(unfold UINT_RANGE; simpl; lia) H) as (_ & _ & _ & Ha & Hn & _).
  split; assumption.
Defined.

(** X6. With dense ids 1..N the user at position i (from 0) of the
    assembled collection is the record with id i+1. *)
Theorem dense_position_is_id `{StdSort}
    (records : list User) (sn : SocialNetwork) (N : Z) :
  (id <$> records) ≡ₚ seqZ 1 N -> 0 <= N < 2 ^ 31 ->
  SocialNetwork_of_records records = Ret sn ->
  id <$> users sn = seqZ 1 N /\
  (forall i u, users sn !! i = Some u -> id u = Z.of_nat i + 1).
Proof.
  intros Hd HN Hsn. split; [eapply users_ascending; eauto|].
  intros i u Hu. eapply position_carries_id; eauto.
Qed.

Lemma dense_position_is_id_witness :
  (id <$> [carol; alice; bob]) ≡ₚ seqZ 1 3 /\
  @SocialNetwork_of_records stable_StdSort [carol; alice; bob] = Ret trio_net /\
  id <$> users trio_net = [1; 2; 3].
Proof.
  assert (Hp : (id <$> [carol; alice; bob]) ≡ₚ seqZ 1 3).
  { apply (Permutation_cons_append [1; 2] 3). }
  assert (H : @SocialNetwork_of_records stable_StdSort [carol; alice; bob] = Ret trio_net)
    by reflexivity.
  split; [exact Hp|]. split; [exact H|].
  apply (@dense_position_is_id stable_StdSort [carol; alice; bob] trio_net 3 Hp
           ltac:(lia) H).
Defined.

(** X7. One record that is not valid, anywhere in the input, and the
    constructor fails on its assertion: no network is built. *)
Theorem invalid_record_aborts `{StdSort} (records : list User) (r : User) :
  r ∈ records -> isValid r = false ->
  SocialNetwork_of_records records = Fail AssertionFailed.
Proof.
  intros Hin Hr. rewrite SocialNetwork_of_records_eq.
  destruct (forallb isValid records) eqn:E; [|reflexivity].
  rewrite forallb_forall in E. apply list_elem_of_In in Hin.
  rewrite (E r Hin) in Hr. discriminate.
Qed.

Lemma invalid_record_aborts_witness :
  @SocialNetwork_of_records stable_StdSort [alice; User_default; carol]
  = Fail AssertionFailed.
Proof.
  apply (@invalid_record_aborts stable_StdSort [alice; User_default; carol] User_default).
  - right. left.
  - reflexivity.
Defined.

(** *** A follows entry that names no user *)

Lemma markAll_Ret_range fs row row' :
  markAll fs row = Ret row' ->
  forall f, f ∈ fs -> to_uint (f - 1) < Z.of_nat (length row).
Proof.
  revert row. induction fs as [|g fs IH]; intros row H f Hf; [inversion Hf|].
  simpl in H.
  destruct (to_uint (g - 1) <? Z.of_nat (length row)) eqn:Hlt; [|discriminate].
  apply elem_of_cons in Hf as [->|Hf]; [lia|].
  specialize (IH _ H f Hf). rewrite length_insert in IH. exact IH.
Qed.

Lemma markAll_outcome fs row :
  (exists row', markAll fs row = Ret row') \/ markAll fs row = Fail UndefinedBehaviour.
Proof.
  revert row. induction fs as [|g fs IH]; intros row; simpl; [eauto|].
  destruct (to_uint (g - 1) <? Z.of_nat (length row)); [apply IH | auto].
Qed.

Lemma buildRows_outcome n us idxs m0 names0 :
  Forall (fun i => (exists rn, buildRow n us i = Ret rn) \/
                   buildRow n us i = Fail UndefinedBehaviour) idxs ->
  (exists r, buildRows n us idxs m0 names0 = Ret r) \/
  buildRows n us idxs m0 names0 = Fail UndefinedBehaviour.
Proof.
  intros Hall. revert m0 names0.
  induction Hall as [|i idxs [[[row nm] Hi]|Hi] _ IH]; intros m0 names0; simpl.
  - eauto.
  - rewrite Hi. simpl. apply IH.
  - rewrite Hi. auto.
Qed.

Lemma buildMatrix_outcome n us :
  n = Z.of_nat (length us) ->
  Forall (fun u => isValid u = true /\ Z.of_nat (length (follows u)) < UINT_RANGE) us ->
  (exists sn, buildMatrix n us = Ret sn) \/ buildMatrix n us = Fail UndefinedBehaviour.
Proof.
  intros Hn Hall. unfold buildMatrix.
  destruct (buildRows_outcome n us (seqZ 0 n) [] []) as [[[m names] Hr]|Hr].
  - apply Forall_forall. intros i Hi.
    apply list_elem_of_lookup in Hi as [k Hk]. apply lookup_seqZ in Hk as [-> Hk].
    destruct (lookup_lt_is_Some_2 us k) as [u Hu]; [lia|].
    rewrite Forall_forall in Hall.
    destruct (Hall u) as (Hv & Hlen); [eapply list_elem_of_lookup_2; eauto|].
    rewrite Z.add_0_l.
    rewrite (buildRow_valid n us (Z.of_nat k) u);
      [| rewrite Nat2Z.id; assumption | assumption | assumption].
    destruct (markAll_outcome (follows u) (replicate (Z.to_nat n) false)) as [[row Hrow]|Hrow];
      rewrite Hrow; simpl; eauto.
  - rewrite Hr. simpl. eauto.
  - rewrite Hr. auto.
Qed.

(** X8. For N valid records whose values fit their C++ types, the
    constructor returns a network exactly when every follows entry of every
    record is in 1..N. An entry that is 0 or greater than N is not checked
    for: it indexes a matrix row past its end, and the outcome is undefined
    behaviour. *)
Theorem follows_entries_in_range `{StdSort} (records : list User) (N : Z) :
  N = Z.of_nat (length records) ->
  N < 2 ^ 31 ->
  forallb isValid records = true ->
  forallb fits records = true ->
  ((exists sn, SocialNetwork_of_records records = Ret sn) <->
   (forall u f, u ∈ records -> f ∈ follows u -> 1 <= f <= N)) /\
  ((exists u f, u ∈ records /\ f ∈ follows u /\ (f = 0 \/ N < f)) ->
   SocialNetwork_of_records records = Fail UndefinedBehaviour).
Proof.
  intros HN Hlt Hvalid Hfits.
  assert (Hfwd : (exists sn, SocialNetwork_of_records records = Ret sn) ->
                 forall u f, u ∈ records -> f ∈ follows u -> 1 <= f <= N).
  { intros [sn Hsn] u f Hu Hf.
    pose proof (SocialNetwork_of_records_Ret _ _ Hsn) as (Hn & _ & Hperm & _).
    rewrite to_uint_small in Hn by (unfold UINT_RANGE; lia).
    rewrite <- Hperm in Hu. apply list_elem_of_lookup in Hu as [i Hi].
    pose proof (lookup_lt_Some _ _ _ Hi) as Hil.
    rewrite (Permutation_length Hperm) in Hil.
    destruct (SocialNetwork_of_records_rows records sn (Z.of_nat i) Hsn)
      as (row & nm & Hrow & _); [lia|].
    assert (Hur : u ∈ records).
    { rewrite <- Hperm. eapply list_elem_of_lookup_2; eauto. }
    rewrite forallb_forall in Hvalid, Hfits. apply list_elem_of_In in Hur.
    destruct (fits_inv u (Hfits u Hur)) as (_ & Hfs & Hlen).
    rewrite (buildRow_valid _ _ _ u) in Hrow;
      [| rewrite Nat2Z.id; assumption | auto | unfold UINT_RANGE; lia].
    inv_bind Hrow.
    pose proof (markAll_Ret_range _ _ _ Ha f Hf) as Hr.
    rewrite length_replicate in Hr. specialize (Hfs f Hf).
    destruct (decide (f = 0)) as [->|Hne].
    - change (to_uint (0 - 1)) with 4294967295 in Hr. lia.
    - rewrite to_uint_small in Hr by (unfold UINT_RANGE in *; lia). lia. }
  split; [split; [exact Hfwd|]|].
  - intros Hrange. eapply SocialNetwork_of_records_total; eauto.
  - intros (u & f & Hu & Hf & Hbad).
    assert (Hnot : ~ exists sn, SocialNetwork_of_records records = Ret sn).
    { intros Hex. specialize (Hfwd Hex u f Hu Hf). lia. }
    rewrite SocialNetwork_of_records_eq, Hvalid in *.
    rewrite to_uint_small in * by (unfold UINT_RANGE; lia).
    set (us := if mismatch 1 records then std_sort records else records) in *.
    assert (Hperm : us ≡ₚ records).
    { unfold us. destruct (mismatch 1 records); [apply std_sort_perm | reflexivity]. }
    destruct (buildMatrix_outcome (Z.of_nat (length records)) us) as [Hex|Hub].
    + rewrite (Permutation_length Hperm). reflexivity.
    + apply Forall_forall. intros v Hv. rewrite Hperm in Hv.
      rewrite forallb_forall in Hvalid, Hfits. apply list_elem_of_In in Hv.
      destruct (fits_inv v (Hfits v Hv)) as (_ & _ & Hlen).
      split; [auto | unfold UINT_RANGE; lia].
    + contradiction.
    + exact Hub.
Qed.

Lemma follows_entries_in_range_witness :
  4 ∈ follows dave /\
  @SocialNetwork_of_records stable_StdSort [alice; bob; dave] = Fail UndefinedBehaviour /\
  exists sn, @SocialNetwork_of_records stable_StdSort trio = Ret sn.
Proof.
  split; [right; left|].
  destruct (@follows_entries_in_range stable_StdSort [alice; bob; dave] 3
              eq_refl ltac:(lia) eq_refl eq_refl) as [_ Hbad].
  split.
  - apply Hbad. exists dave, 4. split; [right; right; left|].
    split; [right; left | right; lia].
  - destruct (@follows_entries_in_range stable_StdSort trio 3
                eq_refl ltac:(lia) eq_refl eq_refl) as [Hiff _].
    apply Hiff. intros u f Hu Hf. unfold trio in Hu.
    repeat (apply elem_of_cons in Hu as [->|Hu]);
      [| | | inversion Hu]; simpl in Hf;
      repeat (apply elem_of_cons in Hf as [->|Hf]); try lia; inversion Hf.
Defined.

(** *** Followers, read off the follows lists *)

(** The cell a follows list leaves in its user's row. *)
Lemma isFollowing_position `{StdSort}
    (records : list User) (sn : SocialNetwork) (i : nat) (u : User) (f : Z) :
  Z.of_nat (length records) < 2 ^ 31 ->
  forallb fits records = true ->
  SocialNetwork_of_records records = Ret sn ->
  users sn !! i = Some u ->
  1 <= f <= numUsers sn ->
  isFollowing sn (Z.of_nat i + 1) f = Ret (bool_decide (f ∈ follows u)).
Proof.
  intros HN Hfits Hsn Hu Hf.
  pose proof (SocialNetwork_of_records_Ret _ _ Hsn) as (Hn & Hsq & Hperm & Hvalid).
  rewrite to_uint_small in Hn by (unfold UINT_RANGE; lia).
  assert (Hin : u ∈ records).
  { rewrite <- Hperm. eapply list_elem_of_lookup_2; eauto. }
  apply list_elem_of_In in Hin.
  rewrite forallb_forall in Hfits, Hvalid.
  destruct (fits_inv u (Hfits u Hin)) as (_ & Hfs & Hlen).
  assert (Hi : Z.of_nat i < numUsers sn).
  { apply lookup_lt_Some in Hu. apply Permutation_length in Hperm. lia. }
  destruct (SocialNetwork_of_records_rows records sn (Z.of_nat i) Hsn)
    as (row & nm & Hrow & Hm & _); [lia|].
  rewrite Nat2Z.id in Hm.
  rewrite (buildRow_valid _ _ _ u) in Hrow;
    [| rewrite Nat2Z.id; assumption | auto | unfold UINT_RANGE; lia].
  inv_bind Hrow. injection Hrow as <- _.
  pose proof (markAll_length _ _ _ Ha) as Hl. rewrite length_replicate in Hl.
  rewrite isFollowing_positive by lia. unfold cell.
  replace (Z.of_nat i + 1 - 1) with (Z.of_nat i) by lia.
  rewrite Nat2Z.id, Hm.
  destruct (lookup_lt_is_Some_2 a (Z.to_nat (f - 1))) as [b Hb]; [lia|].
  rewrite Hb. f_equal.
  pose proof (markAll_lookup _ _ _ _ _ Ha Hb) as Hiff.
  destruct (decide (f ∈ follows u)) as [Hyes|Hno].
  - rewrite bool_decide_eq_true_2 by assumption. apply Hiff. right.
    exists f. split; [assumption|].
    apply (follows_index_eq f f (numUsers sn)); auto; lia.
  - rewrite bool_decide_eq_false_2 by assumption.
    destruct b; [|reflexivity]. exfalso.
    destruct Hiff as [Hiff _]. destruct (Hiff eq_refl) as [Hr|(g & Hg & Eg)].
    + apply lookup_replicate in Hr as [Hr _]. discriminate.
    + apply (follows_index_eq f g (numUsers sn)) in Eg; auto; [congruence | lia].
Qed.

Lemma isFollowing_by_id `{StdSort}
    (records : list User) (sn : SocialNetwork) (N : Z) (u : User) (f : Z) :
  (id <$> records) ≡ₚ seqZ 1 N -> 0 <= N < 2 ^ 31 ->
  forallb fits records = true ->
  SocialNetwork_of_records records = Ret sn ->
  u ∈ records ->
  1 <= f <= N ->
  1 <= id u <= N /\ isFollowing sn (id u) f = Ret (bool_decide (f ∈ follows u)).
Proof.
  intros Hd HN Hfits Hsn Hu Hf.
  pose proof (SocialNetwork_of_records_Ret _ _ Hsn) as (Hn & _ & Hperm & _).
  pose proof (dense_length records N Hd ltac:(lia)) as Hlen.
  rewrite Hlen, to_uint_small in Hn by (unfold UINT_RANGE; lia).
  rewrite <- Hperm in Hu. apply list_elem_of_lookup in Hu as [i Hi].
  pose proof (position_carries_id records sn N i u Hd HN Hsn Hi) as Hid.
  pose proof (lookup_lt_Some _ _ _ Hi) as Hil.
  rewrite (Permutation_length Hperm) in Hil.
  split; [lia|]. rewrite Hid.
  apply (isFollowing_position records sn i u f); auto; lia.
Qed.

(** X9. With dense ids 1..N, the followers the query lists for an id
    are the ids of the other records whose follows list holds that id; the
    mutuals are those of them that the record of the id follows itself. *)
Theorem followers_from_follows_lists `{StdSort}
    (records : list User) (sn : SocialNetwork) (N : Z) (me : User)
    (fs ms : list Z) :
  (id <$> records) ≡ₚ seqZ 1 N -> 0 <= N < 2 ^ 31 ->
  forallb fits records = true ->
  SocialNetwork_of_records records = Ret sn ->
  me ∈ records ->
  getFollowerAndMutualsFromId sn [] [] (id me) = Ret (fs, ms) ->
  (forall o, o ∈ fs <->
     o <> id me /\ exists u, u ∈ records /\ id u = o /\ id me ∈ follows u) /\
  (forall o, o ∈ ms <-> o ∈ fs /\ o ∈ follows me).
Proof.
  intros Hd HN Hfits Hsn Hme Hq.
  pose proof (SocialNetwork_of_records_Ret _ _ Hsn) as (Hn & _ & Hperm & _).
  pose proof (dense_length records N Hd ltac:(lia)) as Hlen.
  rewrite Hlen, to_uint_small in Hn by (unfold UINT_RANGE; lia).
  apply getFollowerAndMutualsFromId_Ret in Hq as (-> & ->).
  assert (Hrec : forall o, 1 <= o <= N -> exists u, u ∈ records /\ id u = o).
  { intros o Ho. assert (Hin : o ∈ id <$> records) by (rewrite Hd; apply elem_of_seqZ_1; lia).
    apply list_elem_of_fmap in Hin as (u & -> & Hu). eauto. }
  assert (Huniq : forall u v, u ∈ records -> v ∈ records -> id u = id v -> u = v).
  { intros u v Hu Hv E. apply (same_id_same_record records); auto.
    rewrite Hd. apply NoDup_seqZ. }
  assert (HN1 : 1 <= N).
  { destruct records; [inversion Hme | simpl in Hlen; lia]. }
  destruct (isFollowing_by_id records sn N me 1 Hd HN Hfits Hsn Hme) as [Hmr _].
  { lia. }
  assert (Hfoll : forall o, o ∈ spec_followers sn (id me) <->
            o <> id me /\ exists u, u ∈ records /\ id u = o /\ id me ∈ follows u).
  { intros o. unfold spec_followers. rewrite list_elem_of_filter, elem_of_seqZ_1, Hn.
    split.
    - intros [[Hne Hf] Ho]. split; [exact Hne|].
      destruct (Hrec o Ho) as (u & Hu & <-). exists u.
      destruct (isFollowing_by_id records sn N u (id me) Hd HN Hfits Hsn Hu Hmr)
        as [_ E].
      rewrite E in Hf. injection Hf as Hf. apply bool_decide_eq_true in Hf. auto.
    - intros [Hne (u & Hu & <- & Hin)].
      destruct (isFollowing_by_id records sn N u (id me) Hd HN Hfits Hsn Hu Hmr)
        as [Hur E].
      rewrite E, bool_decide_eq_true_2 by assumption. auto. }
  split; [exact Hfoll|].
  intros o. unfold spec_mutuals. rewrite list_elem_of_filter. split.
  - intros [Hf Ho]. split; [exact Ho|].
    pose proof Ho as Ho'. apply Hfoll in Ho' as [_ (u & Hu & <- & _)].
    destruct (isFollowing_by_id records sn N u (id me) Hd HN Hfits Hsn Hu Hmr)
      as [Hur _].
    destruct (isFollowing_by_id records sn N me (id u) Hd HN Hfits Hsn Hme Hur)
      as [_ E].
    rewrite E in Hf. injection Hf as Hf. apply bool_decide_eq_true in Hf. exact Hf.
  - intros [Ho Hin]. split; [|exact Ho].
    apply Hfoll in Ho as [_ (u & Hu & <- & _)].
    destruct (isFollowing_by_id records sn N u (id me) Hd HN Hfits Hsn Hu Hmr)
      as [Hur _].
    destruct (isFollowing_by_id records sn N me (id u) Hd HN Hfits Hsn Hme Hur)
      as [_ E].
    rewrite E, bool_decide_eq_true_2 by assumption. reflexivity.
Qed.

Lemma followers_from_follows_lists_witness :
  (id <$> trio) ≡ₚ seqZ 1 3 /\
  @SocialNetwork_of_records stable_StdSort trio = Ret trio_net /\
  getFollowerAndMutualsFromId trio_net [] [] (id carol) = Ret ([1], []) /\
  (1 ∈ [1] <-> 1 <> id carol /\
               exists u, u ∈ trio /\ id u = 1 /\ id carol ∈ follows u).
Proof.
  assert (H1 : (id <$> trio) ≡ₚ seqZ 1 3) by reflexivity.
  assert (H2 : @SocialNetwork_of_records stable_StdSort trio = Ret trio_net)
    by reflexivity.
  assert (H3 : getFollowerAndMutualsFromId trio_net [] [] (id carol) = Ret ([1], []))
    by reflexivity.
  split; [exact H1|]. split; [exact H2|]. split; [exact H3|].
  apply (@followers_from_follows_lists stable_StdSort trio trio_net 3 carol [1] []
           H1 ltac:(lia) eq_refl H2 ltac:(right; right; left) H3).
Defined.

(** ** User.cpp: the follows value, at its edges *)

Lemma peek_sstream_of_cons c s :
  peek (sstream_of (String c s)) = (Some c, sstream_of (String c s)).
Proof. reflexivity. Qed.

Lemma string_app_assoc (a b c : string) : (a +:+ b) +:+ c = a +:+ (b +:+ c).
Proof.
  induction a as [|x a IH]; [reflexivity|].
  change (String x ((a +:+ b) +:+ c) = String x (a +:+ (b +:+ c))).
  f_equal. exact IH.
Qed.

Lemma string_app_cons c (s r : string) : String c s +:+ r = String c (s +:+ r).
Proof. reflexivity. Qed.

Lemma parseIds_render ts rest fuel val_str arr :
  Forall (fun t => occurs DQUOTE t = false) ts ->
  (length ts <= fuel)%nat ->
  ts <> [] ->
  parseIds fuel (sstream_of (render ts +:+ rest)) val_str arr
  = let* arr' := convertAll ts arr in
    parseIds (fuel - length ts) (sstream_of rest) (List.last ts val_str) arr'.
Proof.
  intros Hts Hfuel Hne.
  assert (Htail : forall ts fuel val_str arr,
            Forall (fun t => occurs DQUOTE t = false) ts ->
            (length ts <= fuel)%nat ->
            parseIds fuel (sstream_of (render_tail ts +:+ rest)) val_str arr
            = let* arr' := convertAll ts arr in
              parseIds (fuel - length ts) (sstream_of rest) (List.last ts val_str) arr').
  { clear. intros ts fuel val_str arr Hts. revert fuel val_str arr.
    induction Hts as [|t ts Ht Hts IH]; intros fuel val_str arr Hlt.
    - simpl. rewrite Nat.sub_0_r. reflexivity.
    - destruct fuel; [simpl in Hlt; lia|].
      cbn [render_tail]. rewrite !string_app_cons, string_app_assoc, string_app_cons.
      rewrite parseIds_next_token by assumption.
      cbn [convertAll]. destruct (stoi t) as [v|f]; cbn [bind]; [|reflexivity].
      rewrite IH by (simpl in Hlt; lia).
      replace (List.last (t :: ts) val_str) with (List.last ts t)
        by (clear; revert t; induction ts; intros; simpl; auto; destruct ts; auto).
      reflexivity. }
  destruct Hts as [|t ts Ht Hts]; [contradiction|].
  destruct fuel; [simpl in Hfuel; lia|].
  cbn [render]. rewrite string_app_cons, string_app_assoc, string_app_cons.
  rewrite parseIds_first_token by assumption.
  cbn [convertAll]. destruct (stoi t) as [v|f]; cbn [bind]; [|reflexivity].
  rewrite Htail by (assumption || simpl in Hfuel; lia).
  replace (List.last (t :: ts) val_str) with (List.last ts t)
    by (clear; revert t; induction ts; intros; simpl; auto; destruct ts; auto).
  reflexivity.
Qed.

Lemma convertAll_app ts1 ts2 arr :
  convertAll (ts1 ++ ts2) arr = let* arr' := convertAll ts1 arr in convertAll ts2 arr'.
Proof.
  revert arr. induction ts1 as [|t ts1 IH]; intros arr; simpl; [reflexivity|].
  destruct (stoi t) as [v|f]; simpl; [apply IH | reflexivity].
Qed.

Lemma render_length ts :
  ts <> [] -> (2 * length ts <= String.length (render ts))%nat.
Proof.
  destruct ts as [|t ts]; [contradiction|]. intros _. cbn [render String.length].
  rewrite string_length_append. cbn [String.length].
  assert (H : (3 * length ts <= String.length (render_tail ts))%nat).
  { induction ts as [|t' ts IH]; simpl; [lia|].
    rewrite string_length_append. simpl. lia. }
  simpl length. lia.
Qed.

(** X10. A comma after the last token makes the loop take one more turn,
    in which [getline] reads nothing and leaves the last token in
    [val_str]: the value converts as if its last token stood twice. *)
Theorem trailing_comma_repeats_last_token (ts : list string) :
  Forall (fun t => occurs DQUOTE t = false) ts ->
  ts <> [] ->
  stringArrayToUnsignedIntVector (render ts +:+ ",")
  = convertAll (ts ++ [List.last ts EmptyString]) [].
Proof.
  intros Hts Hne. unfold stringArrayToUnsignedIntVector.
  pose proof (render_length ts Hne) as Hlen.
  assert (Hpos : (1 <= length ts)%nat) by (destruct ts; [contradiction | simpl; lia]).
  rewrite parseIds_render; [| assumption | rewrite string_length_append; simpl; lia
                            | assumption].
  rewrite convertAll_app.
  destruct (convertAll ts []) as [arr|f]; cbn [bind]; [|reflexivity].
  rewrite string_length_append. cbn [String.length].
  destruct (S (String.length (render ts) + 1) - length ts)%nat as [|[|k]] eqn:E;
    [lia | lia |].
  rewrite parseIds_S. reflexivity.
Qed.

Lemma trailing_comma_repeats_last_token_witness :
  stringArrayToUnsignedIntVector (render ["1"; "4"] +:+ ",") = Ret [1; 4; 4].
Proof.
  rewrite (trailing_comma_repeats_last_token ["1"; "4"]);
    [reflexivity | repeat constructor | discriminate].
Defined.

(** X11. The loop ends, without error, at the first place where a token
    is followed by anything but a comma or a double quote; whatever comes
    after is not looked at. A value that begins with such a character gives
    the empty vector. *)
Theorem conversion_stops_at_other_character (ts : list string) (c : ascii) (rest : string) :
  Forall (fun t => occurs DQUOTE t = false) ts ->
  Ascii.eqb c "," = false -> Ascii.eqb c DQUOTE = false ->
  stringArrayToUnsignedIntVector (render ts +:+ String c rest) = convertAll ts [].
Proof.
  intros Hts Hc1 Hc2. unfold stringArrayToUnsignedIntVector.
  assert (Hstop : forall fuel v arr,
            parseIds (S fuel) (sstream_of (String c rest)) v arr = Ret arr).
  { intros fuel v arr. rewrite parseIds_S, peek_sstream_of_cons.
    cbn [is_comma_or_quote]. rewrite Hc1, Hc2. reflexivity. }
  destruct (decide (ts = [])) as [->|Hne].
  { cbn [render]. apply Hstop. }
  pose proof (render_length ts Hne) as Hlen.
  rewrite parseIds_render; [| assumption | rewrite string_length_append; simpl; lia
                            | assumption].
  destruct (convertAll ts []) as [arr|f]; cbn [bind]; [|reflexivity].
  rewrite string_length_append. cbn [String.length].
  destruct (S (String.length (render ts) + S (String.length rest)) - length ts)%nat
    as [|k] eqn:E; [lia|].
  apply Hstop.
Qed.

Lemma conversion_stops_at_other_character_witness :
  stringArrayToUnsignedIntVector (render ["1"] +:+ String " " (render ["2"])) = Ret [1] /\
  stringArrayToUnsignedIntVector (render [] +:+ String " " (render ["2"])) = Ret [].
Proof.
  split.
  - rewrite (conversion_stops_at_other_character ["1"] " " (render ["2"]));
      [reflexivity | repeat constructor | reflexivity | reflexivity].
  - rewrite (conversion_stops_at_other_character [] " " (render ["2"]));
      [reflexivity | constructor | reflexivity | reflexivity].
Defined.

Lemma parseIds_uint fuel ss val_str arr l :
  Forall is_uint arr ->
  parseIds fuel ss val_str arr = Ret l -> Forall is_uint l.
Proof.
  revert ss val_str arr. induction fuel as [|fuel IH]; intros ss val_str arr Harr H;
    [discriminate|].
  rewrite parseIds_S in H. destruct (peek ss) as [c ss1].
  destruct (is_comma_or_quote c).
  - destruct (getline (ignore_until DQUOTE ss1) val_str DQUOTE) as [v ss2].
    inv_bind H. apply IH in H; [exact H|].
    apply Forall_app. split; [exact Harr|]. constructor; [|constructor].
    apply to_uint_range.
  - injection H as <-. exact Harr.
Qed.

(** ** std::stoi and std::to_string *)

Lemma digit_of_digit_char d : 0 <= d <= 9 -> digit_of (digit_char d) = Some d.
Proof.
  intros Hd.
  assert (Hc : d = 0 \/ d = 1 \/ d = 2 \/ d = 3 \/ d = 4 \/ d = 5 \/ d = 6 \/
               d = 7 \/ d = 8 \/ d = 9) by lia.
  repeat destruct Hc as [->|Hc]; try reflexivity. subst. reflexivity.
Qed.

Lemma digit_of_code c d : digit_of c = Some d -> 48 <= code c <= 57 /\ d = code c - 48.
Proof.
  unfold digit_of. destruct ((48 <=? code c) && (code c <=? 57)) eqn:E; [|discriminate].
  intros H. injection H as <-. lia.
Qed.

Lemma read_digits_to_string_from fuel n acc a :
  default 0 a = 0 -> 0 <= n < 10 ^ Z.of_nat (S fuel) ->
  read_digits (to_string_from (S fuel) n acc) a = read_digits acc (Some n).
Proof.
  revert n acc. induction fuel as [|fuel IH]; intros n acc Ha Hn.
  - assert (E : (n <? 10) = true) by (apply Z.ltb_lt; simpl in Hn; lia).
    cbn [to_string_from]. rewrite E. cbn [read_digits].
    rewrite Z.mod_small by (simpl in Hn; lia).
    rewrite digit_of_digit_char by (simpl in Hn; lia).
    rewrite Ha. reflexivity.
  - change (to_string_from (S (S fuel)) n acc)
      with (if n <? 10 then String (digit_char (n mod 10)) acc
            else to_string_from (S fuel) (n / 10) (String (digit_char (n mod 10)) acc)).
    destruct (n <? 10) eqn:E.
    + apply Z.ltb_lt in E. cbn [read_digits]. rewrite Z.mod_small by lia.
      rewrite digit_of_digit_char by lia. rewrite Ha. reflexivity.
    + apply Z.ltb_ge in E. rewrite IH; [| exact Ha |].
      * cbn [read_digits]. rewrite digit_of_digit_char
          by (pose proof (Z.mod_pos_bound n 10); lia).
        simpl default. replace (10 * (n / 10) + n mod 10) with n
          by (pose proof (Z.div_mod n 10); lia).
        reflexivity.
      * rewrite (Nat2Z.inj_succ (S fuel)), Z.pow_succ_r in Hn by lia.
        split; [apply Z.div_pos; lia | apply Z.div_lt_upper_bound; lia].
Qed.

Lemma to_string_from_only_digits fuel n acc :
  only_digits acc = true -> only_digits (to_string_from fuel n acc) = true.
Proof.
  revert n acc. induction fuel as [|fuel IH]; intros n acc Hacc; [exact Hacc|].
  cbn [to_string_from].
  assert (Hd : only_digits (String (digit_char (n mod 10)) acc) = true).
  { cbn [only_digits]. rewrite digit_of_digit_char
      by (pose proof (Z.mod_pos_bound n 10); lia). exact Hacc. }
  destruct (n <? 10); [exact Hd | apply IH; exact Hd].
Qed.

Lemma to_string_from_cons fuel n acc :
  exists c s, to_string_from (S fuel) n acc = String c s.
Proof.
  revert n acc. induction fuel as [|fuel IH]; intros n acc.
  - cbn [to_string_from]. destruct (n <? 10); eauto.
  - change (to_string_from (S (S fuel)) n acc)
      with (if n <? 10 then String (digit_char (n mod 10)) acc
            else to_string_from (S fuel) (n / 10) (String (digit_char (n mod 10)) acc)).
    destruct (n <? 10); [eauto | apply IH].
Qed.

Lemma to_string_numeric n : numeric (to_string n) = true.
Proof.
  unfold numeric, to_string.
  rewrite to_string_from_only_digits by reflexivity.
  destruct (to_string_from_cons 9 n EmptyString) as (c & s & ->). reflexivity.
Qed.

Lemma numeric_first_digit s :
  numeric s = true -> exists c r d, s = String c r /\ digit_of c = Some d.
Proof.
  unfold numeric. destruct s as [|c r]; [discriminate|]. simpl.
  destruct (digit_of c) as [d|] eqn:Hd; [|discriminate].
  intros _. exists c, r, d. auto.
Qed.

Lemma digit_not_space_nor_sign c d :
  digit_of c = Some d ->
  isspace c = false /\ Ascii.eqb c "-" = false /\ Ascii.eqb c "+" = false.
Proof.
  intros Hd. apply digit_of_code in Hd as [Hc _]. unfold isspace.
  split; [lia|].
  split; apply Ascii.eqb_neq; intros ->.
  - change (code "-") with 45 in Hc. lia.
  - change (code "+") with 43 in Hc. lia.
Qed.

(** On a numeric text [stoi] is the digits read, checked against [int]. *)
Lemma stoi_numeric s :
  numeric s = true ->
  stoi s = match read_digits s None with
           | Some v => if v <=? INT_MAX then Ret v else Fail (Uncaught out_of_range)
           | None => Fail (Uncaught invalid_argument)
           end.
Proof.
  intros Hs. destruct (numeric_first_digit s Hs) as (c & r & d & -> & Hd).
  destruct (digit_not_space_nor_sign c d Hd) as (Hsp & Hm & Hp).
  unfold stoi. cbn [skip_spaces]. rewrite Hsp, Hm, Hp.
  cbn [read_digits]. rewrite Hd.
  assert (Hnn : forall s a, 0 <= a -> forall v, read_digits s (Some a) = Some v -> 0 <= v).
  { clear. induction s as [|c s IH]; intros a Ha v H; simpl in H.
    - injection H as <-. exact Ha.
    - destruct (digit_of c) as [d|] eqn:Hd; [|injection H as <-; exact Ha].
      apply digit_of_code in Hd. eapply IH; [|exact H]. simpl. lia. }
  destruct (read_digits r (Some (10 * default 0 None + d))) as [v|] eqn:E; [|reflexivity].
  apply Hnn in E; [|apply digit_of_code in Hd; simpl; lia].
  assert (Hmin : (INT_MIN <=? v) = true) by (unfold INT_MIN; lia).
  rewrite Hmin. reflexivity.
Qed.


(** ** User.cpp: setAttribute, one attribute after another *)

Lemma setAttribute_read_field u title data :
  setAttribute u title data = let* f := read_field title data in Ret (set_field f u).
Proof.
  unfold setAttribute, read_field.
  destruct (assert (negb (string_empty title))); cbn [bind]; [|reflexivity].
  destruct (String.eqb title "follows").
  { destruct (stringArrayToUnsignedIntVector data); reflexivity. }
  destruct (assert (negb (string_empty data))); cbn [bind]; [|reflexivity].
  destruct (String.eqb title "id_str").
  { destruct (stoi data); reflexivity. }
  repeat match goal with
         | |- context [String.eqb ?a ?b] => destruct (String.eqb a b)
         end; reflexivity.
Qed.

Lemma read_field_member title data f :
  read_field title data = Ret f -> member f = title.
Proof.
  unfold read_field. intros H. inv_bind H.
  destruct (String.eqb title "follows") eqn:E1.
  { inv_bind H. injection H as <-. apply String.eqb_eq in E1. auto. }
  inv_bind H.
  destruct (String.eqb title "id_str") eqn:E2.
  { inv_bind H. injection H as <-. apply String.eqb_eq in E2. auto. }
  destruct (String.eqb title "name") eqn:E3.
  { injection H as <-. apply String.eqb_eq in E3. auto. }
  destruct (String.eqb title "pic_url") eqn:E4.
  { injection H as <-. apply String.eqb_eq in E4. auto. }
  destruct (String.eqb title "location") eqn:E5; [|discriminate].
  injection H as <-. apply String.eqb_eq in E5. auto.
Qed.

Lemma set_field_same f g u :
  member f = member g -> set_field g (set_field f u) = set_field g u.
Proof. destruct f, g; simpl; intros E; try discriminate; reflexivity. Qed.

Lemma set_field_other f g u :
  member f <> member g ->
  set_field g (set_field f u) = set_field f (set_field g u).
Proof. destruct f, g; simpl; intros E; try reflexivity; contradiction. Qed.

(** X13. How calls of [setAttribute] compose. Whether a call succeeds,
    and with what value, does not depend on the user it is made on; it sets
    the one member its title names and leaves the other four; a second
    attribute of the same title replaces the first; two attributes of
    different titles can come in either order. *)
Theorem setAttribute_composes (u : User) (t1 d1 : string) (u1 : User) :
  setAttribute u t1 d1 = Ret u1 ->
  t1 ∈ vocabulary /\
  (exists f, member f = t1 /\ forall w, setAttribute w t1 d1 = Ret (set_field f w)) /\
  (forall d2, setAttribute u1 t1 d2 = setAttribute u t1 d2) /\
  (forall t2 d2 u12,
     t2 <> t1 -> setAttribute u1 t2 d2 = Ret u12 ->
     exists u2, setAttribute u t2 d2 = Ret u2 /\ setAttribute u2 t1 d1 = Ret u12).
Proof.
  intros H. rewrite setAttribute_read_field in H. inv_bind H. injection H as <-.
  rename a into f. pose proof (read_field_member _ _ _ Ha) as Hm.
  split; [|split; [|split]].
  - rewrite <- Hm. unfold vocabulary. destruct f; simpl;
      repeat (first [left; reflexivity | right]); left.
  - exists f. split; [exact Hm|]. intros w.
    rewrite setAttribute_read_field, Ha. reflexivity.
  - intros d2. rewrite !setAttribute_read_field.
    destruct (read_field t1 d2) as [g|e] eqn:Hg; cbn [bind]; [|reflexivity].
    apply read_field_member in Hg. rewrite set_field_same by congruence. reflexivity.
  - intros t2 d2 u12 Hne H2. rewrite setAttribute_read_field in H2. inv_bind H2.
    injection H2 as <-. rename a into g.
    pose proof (read_field_member _ _ _ Ha0) as Hg.
    exists (set_field g u). rewrite !setAttribute_read_field, Ha0, Ha. cbn [bind].
    split; [reflexivity|]. rewrite set_field_other by congruence. reflexivity.
Qed.

Lemma setAttribute_composes_witness :
  setAttribute User_default "name" "Al" = Ret (mkUser 0 "Al" EmptyString EmptyString []) /\
  setAttribute (mkUser 0 "Al" EmptyString EmptyString []) "name" "Bo"
  = setAttribute User_default "name" "Bo".
Proof.
  assert (H : setAttribute User_default "name" "Al"
              = Ret (mkUser 0 "Al" EmptyString EmptyString [])) by reflexivity.
  split; [exact H|].
  destruct (setAttribute_composes User_default "name" "Al" _ H) as (_ & _ & Hov & _).
  apply Hov.
Defined.

(** X14. [id_str] is read with [stoi] into an [int] and stored in an
    [unsigned int]: a negative number is accepted and wraps round to a
    large id, with which the user is valid if it has a name; the number 0
    leaves the user invalid. *)
Theorem id_str_wraps (u : User) (data : string) (v : Z) :
  stoi data = Ret v ->
  setAttribute u "id_str" data
  = Ret (mkUser (to_uint v) (name u) (location u) (pic_url u) (follows u)) /\
  (v < 0 -> to_uint v = v + UINT_RANGE /\ INT_MAX < to_uint v /\
            forall u', setAttribute u "id_str" data = Ret u' ->
                       isValid u' = negb (string_empty (name u))) /\
  (v = 0 -> forall u', setAttribute u "id_str" data = Ret u' -> isValid u' = false).
Proof.
  intros Hs.
  assert (Hne : string_empty data = false).
  { destruct data; [discriminate | reflexivity]. }
  assert (Hrange : INT_MIN <= v <= INT_MAX).
  { revert Hs. unfold stoi.
    destruct (match skip_spaces data with
              | String c s' =>
                  if Ascii.eqb c "-" then (true, s')
                  else if Ascii.eqb c "+" then (false, s') else (false, skip_spaces data)
              | EmptyString => (false, skip_spaces data)
              end) as [negative s2].
    destruct (read_digits s2 None) as [w|]; [|discriminate].
    destruct ((INT_MIN <=? (if negative then - w else w))
              && ((if negative then - w else w) <=? INT_MAX)) eqn:E; [|discriminate].
    intros H. injection H as <-. lia. }
  assert (E : setAttribute u "id_str" data
              = Ret (mkUser (to_uint v) (name u) (location u) (pic_url u) (follows u))).
  { unfold setAttribute. cbn [string_empty negb assert bind].
    change (String.eqb "id_str" "follows") with false. cbv iota.
    rewrite Hne. cbn [negb assert bind].
    change (String.eqb "id_str" "id_str") with true. cbv iota.
    rewrite Hs. reflexivity. }
  split; [exact E|]. unfold INT_MIN, INT_MAX, UINT_RANGE in *. split.
  - intros Hneg.
    assert (Hw : to_uint v = v + 2 ^ 32).
    { unfold to_uint, UINT_RANGE. symmetry. apply (Z.mod_unique _ _ (-1)); lia. }
    split; [exact Hw|]. split; [lia|].
    intros u' Hu'. rewrite E in Hu'. injection Hu' as <-.
    unfold isValid. simpl. rewrite Hw.
    assert (Hpos : (v + 2 ^ 32 >? 0) = true) by lia. rewrite Hpos. reflexivity.
  - intros -> u' Hu'. rewrite E in Hu'. injection Hu' as <-. reflexivity.
Qed.

Lemma id_str_wraps_witness :
  stoi "-1" = Ret (-1) /\
  setAttribute (mkUser 7 "Al" EmptyString EmptyString []) "id_str" "-1"
  = Ret (mkUser 4294967295 "Al" EmptyString EmptyString []) /\
  isValid (mkUser 4294967295 "Al" EmptyString EmptyString []) = true.
Proof.
  assert (H : stoi "-1" = Ret (-1)) by reflexivity.
  split; [exact H|].
  destruct (id_str_wraps (mkUser 7 "Al" EmptyString EmptyString []) "-1" (-1) H)
    as (E & _ & _).
  split; [exact E | reflexivity].
Defined.

(** ** User.cpp: reading back what the input format writes *)

Lemma occurs_app d (s1 s2 : string) :
  occurs d (s1 +:+ s2) = occurs d s1 || occurs d s2.
Proof.
  induction s1 as [|c s1 IH]; [reflexivity|].
  change (occurs d (String c s1 +:+ s2)) with (Ascii.eqb c d || occurs d (s1 +:+ s2)).
  rewrite IH. cbn [occurs]. rewrite orb_assoc. reflexivity.
Qed.

Lemma occurs_render_tail d ts :
  Ascii.eqb "," d = false -> Ascii.eqb DQUOTE d = false ->
  Forall (fun t => occurs d t = false) ts -> occurs d (render_tail ts) = false.
Proof.
  intros H1 H2 Hts. induction Hts as [|t ts Ht _ IH]; [reflexivity|].
  cbn [render_tail occurs]. rewrite H1, H2, occurs_app, Ht. cbn [occurs orb].
  rewrite H2. exact IH.
Qed.

Lemma occurs_render d ts :
  Ascii.eqb "," d = false -> Ascii.eqb DQUOTE d = false ->
  Forall (fun t => occurs d t = false) ts -> occurs d (render ts) = false.
Proof.
  intros H1 H2 Hts. destruct Hts as [|t ts Ht Hts]; [reflexivity|].
  cbn [render occurs]. rewrite H2, occurs_app, Ht. cbn [occurs orb].
  rewrite H2. apply occurs_render_tail; assumption.
Qed.

Lemma getAttributeTitle_write_attr title v rest :
  occurs DQUOTE title = false ->
  getAttributeTitle (sstream_of (write_attr title v rest))
  = (title, sstream_of (String ":" (String " " (write_value v rest)))).
Proof.
  intros Ht. unfold getAttributeTitle, write_attr.
  change (ignore_until DQUOTE (sstream_of (String NEWLINE (String TAB (String TAB
            (String DQUOTE ?x))))))
    with (sstream_of x).
  apply getline_token. exact Ht.
Qed.

Lemma getAttributeData_write_value v rest :
  match v with
  | Scalar s => occurs DQUOTE s = false
  | Array ts => Forall (fun t => occurs DQUOTE t = false /\ occurs "]" t = false) ts
  end ->
  getAttributeData (sstream_of (String ":" (String " " (write_value v rest))))
  = Ret (raw_value v, sstream_of rest).
Proof.
  intros Hv. unfold getAttributeData.
  change (ignore1 (ignore_until ":" (sstream_of (String ":" (String " " ?x)))))
    with (sstream_of x).
  destruct v as [s|ts]; cbn [write_value raw_value].
  - rewrite peek_sstream_of_cons.
    change (assert (Ascii.eqb DQUOTE DQUOTE || Ascii.eqb DQUOTE "[")) with (Ret tt).
    cbn [bind].
    change (get (sstream_of (String DQUOTE ?x))) with (Some DQUOTE, sstream_of x).
    cbv iota beta. change (Ascii.eqb DQUOTE "[") with false. cbv iota.
    rewrite getline_token by exact Hv. reflexivity.
  - rewrite peek_sstream_of_cons.
    change (assert (Ascii.eqb "[" DQUOTE || Ascii.eqb "[" "[")) with (Ret tt).
    cbn [bind].
    change (get (sstream_of (String "[" ?x))) with (Some "["%char, sstream_of x).
    cbv iota beta. change (Ascii.eqb "[" "[") with true. cbv iota.
    rewrite getline_token; [reflexivity|].
    apply occurs_render; [reflexivity | reflexivity |].
    eapply Forall_impl; [exact Hv|]. simpl. tauto.
Qed.

(** X15. An attribute written in the input format is read back: the
    title as written, the value as the text between its quotes or its
    brackets, and the stream left just behind the value. *)
Theorem attribute_read_back (title : string) (v : attr_value) (rest : string) :
  writable_attr (title, v) ->
  exists ss1,
    getAttributeTitle (sstream_of (write_attr title v rest)) = (title, ss1) /\
    getAttributeData ss1 = Ret (raw_value v, sstream_of rest).
Proof.
  intros [Ht Hv]. simpl in Ht, Hv. eexists. split.
  - apply getAttributeTitle_write_attr. exact Ht.
  - apply getAttributeData_write_value. exact Hv.
Qed.

Lemma attribute_read_back_witness :
  exists ss1,
    getAttributeTitle (sstream_of (write_attr "follows" (Array ["1"; "4"]) ","))
    = ("follows", ss1) /\
    getAttributeData ss1 = Ret (render ["1"; "4"], sstream_of ",").
Proof.
  apply (attribute_read_back "follows" (Array ["1"; "4"]) ",").
  split; [reflexivity|]. simpl. repeat constructor.
Defined.

Lemma readAttributes_write_attr fuel title v c rest u :
  writable_attr (title, v) ->
  readAttributes (S fuel) (sstream_of (write_attr title v (String c rest))) u
  = let* u' := setAttribute u title (raw_value v) in
    readAttributes fuel (sstream_of rest) u'.
Proof.
  intros [Ht Hv]. simpl in Ht, Hv.
  change (readAttributes (S fuel) (sstream_of (write_attr title v (String c rest))) u)
    with (let '(title', ss) :=
            getAttributeTitle (sstream_of (write_attr title v (String c rest))) in
          let* '(data, ss) := getAttributeData ss in
          let* u' := setAttribute u title' data in
          readAttributes fuel (ignore1 ss) u').
  rewrite getAttributeTitle_write_attr by exact Ht.
  rewrite getAttributeData_write_value by exact Hv. reflexivity.
Qed.

Lemma readAttributes_write_attrs attrs fuel rest u :
  Forall writable_attr attrs ->
  (length attrs < fuel)%nat ->
  readAttributes fuel (sstream_of (write_attrs attrs rest)) u = setAttributes u attrs.
Proof.
  intros Hattrs. revert fuel u.
  induction Hattrs as [|[t v] attrs Ha _ IH]; intros fuel u Hlt.
  - destruct fuel; [simpl in Hlt; lia | reflexivity].
  - destruct fuel; [simpl in Hlt; lia|].
    cbn [write_attrs setAttributes]. rewrite readAttributes_write_attr by exact Ha.
    destruct (setAttribute u t (raw_value v)) as [u'|f]; cbn [bind]; [|reflexivity].
    apply IH. simpl in Hlt. lia.
Qed.

Lemma write_attrs_length attrs rest :
  (length attrs < String.length (write_attrs attrs rest))%nat.
Proof.
  induction attrs as [|[t v] attrs IH]; [simpl; lia|].
  cbn [write_attrs write_attr String.length length].
  rewrite string_length_append. cbn [String.length].
  assert (H : (S (String.length (write_attrs attrs rest))
               <= String.length
                    (write_value v
                       (String match attrs with
                               | [] => NEWLINE
                               | _ :: _ => ","%char
                               end (write_attrs attrs rest))))%nat).
  { destruct v; cbn [write_value String.length]; rewrite string_length_append;
      cbn [String.length]; lia. }
  lia.
Qed.

(** X16. A record written in the input format is built from its
    attributes in the order they stand in: the user handed out is the
    result of the calls of [setAttribute], one per attribute, on a user with
    empty members, with the default picture filled in; what follows the
    closing tab is not read. *)
Theorem record_read_back (id0 : Z) (attrs : list (string * attr_value)) (rest : string) :
  Forall writable_attr attrs ->
  User_of_stream id0 (sstream_of (write_attrs attrs rest))
  = let* u := setAttributes (mkUser id0 EmptyString EmptyString EmptyString []) attrs in
    Ret (setDefaultAttributesWhenEmpty u).
Proof.
  intros Hattrs. unfold User_of_stream.
  rewrite readAttributes_write_attrs; [reflexivity | exact Hattrs |].
  cbn [unread sstream_of]. pose proof (write_attrs_length attrs rest). lia.
Qed.

Lemma record_read_back_witness :
  User_of_stream 0
    (sstream_of (write_attrs [("id_str", Scalar "2"); ("name", Scalar "Bob");
                              ("follows", Array ["1"])] "}"))
  = Ret bob.
Proof.
  rewrite (record_read_back 0 [("id_str", Scalar "2"); ("name", Scalar "Bob");
                               ("follows", Array ["1"])] "}").
  - reflexivity.
  - repeat constructor.
Defined.

(** *** A user, written and read back *)

Lemma only_digits_occurs d s :
  digit_of d = None -> only_digits s = true -> occurs d s = false.
Proof.
  intros Hd. induction s as [|c s IH]; [reflexivity|]. cbn [only_digits occurs].
  destruct (digit_of c) as [x|] eqn:Hc; [|discriminate].
  intros Hs. rewrite (IH Hs), orb_false_r. apply Ascii.eqb_neq. congruence.
Qed.

Lemma to_string_occurs d n : digit_of d = None -> occurs d (to_string n) = false.
Proof.
  intros Hd. apply only_digits_occurs; [exact Hd|].
  pose proof (to_string_numeric n) as H. unfold numeric in H.
  apply andb_prop in H as [_ H]. exact H.
Qed.

Lemma to_string_nonempty n : string_empty (to_string n) = false.
Proof.
  pose proof (to_string_numeric n) as H. unfold numeric in H.
  apply andb_prop in H as [H _]. apply negb_true_iff in H. exact H.
Qed.

Lemma stoi_to_string_int n : 0 <= n <= INT_MAX -> stoi (to_string n) = Ret n.
Proof.
  intros Hn. rewrite stoi_numeric by apply to_string_numeric.
  unfold to_string. rewrite (read_digits_to_string_from 9);
    [| reflexivity | unfold INT_MAX in Hn; simpl; lia].
  cbn [read_digits]. assert (E : (n <=? INT_MAX) = true) by lia. rewrite E. reflexivity.
Qed.

Lemma convertAll_to_string fs arr :
  Forall (fun f => 0 <= f <= INT_MAX) fs ->
  convertAll (to_string <$> fs) arr = Ret (arr ++ fs).
Proof.
  intros Hfs. revert arr. induction Hfs as [|f fs Hf _ IH]; intros arr.
  - simpl. rewrite app_nil_r. reflexivity.
  - cbn [fmap list_fmap convertAll]. rewrite stoi_to_string_int by exact Hf.
    cbn [bind]. rewrite IH, <- app_assoc.
    rewrite to_uint_small by (unfold INT_MAX, UINT_RANGE in *; lia). reflexivity.
Qed.

Lemma setAttributes_app u attrs1 attrs2 :
  setAttributes u (attrs1 ++ attrs2)
  = let* u' := setAttributes u attrs1 in setAttributes u' attrs2.
Proof.
  revert u. induction attrs1 as [|[t v] attrs1 IH]; intros u; [reflexivity|].
  cbn [app setAttributes].
  destruct (setAttribute u t (raw_value v)) as [u'|f]; cbn [bind]; [apply IH | reflexivity].
Qed.

Lemma setAttribute_scalar u data :
  string_empty data = false ->
  (setAttribute u "name" data
   = Ret (mkUser (id u) data (location u) (pic_url u) (follows u))) /\
  (setAttribute u "location" data
   = Ret (mkUser (id u) (name u) data (pic_url u) (follows u))) /\
  (setAttribute u "pic_url" data
   = Ret (mkUser (id u) (name u) (location u) data (follows u))) /\
  (setAttribute u "id_str" data
   = let* v := stoi data in
     Ret (mkUser (to_uint v) (name u) (location u) (pic_url u) (follows u))).
Proof.
  intros Hd. unfold setAttribute. cbn [string_empty negb assert bind].
  rewrite Hd. cbn [negb assert bind]. repeat split.
Qed.

(** X12. The ids the program writes with [to_string] and the ids it
    reads with [stoi]: an [unsigned int] up to [INT_MAX], written in
    decimal, is read back as it was, as [id_str] and as a followed id; a
    greater one, though the members are unsigned, is refused with the
    uncaught [out_of_range] of [stoi]. *)
Theorem stoi_to_string (u : User) (n : Z) :
  0 <= n < UINT_RANGE ->
  stoi (to_string n)
  = (if n <=? INT_MAX then Ret n else Fail (Uncaught out_of_range)) /\
  setAttribute u "id_str" (to_string n)
  = (if n <=? INT_MAX
     then Ret (mkUser n (name u) (location u) (pic_url u) (follows u))
     else Fail (Uncaught out_of_range)) /\
  setAttribute u "follows" (render [to_string n])
  = (if n <=? INT_MAX
     then Ret (mkUser (id u) (name u) (location u) (pic_url u) [n])
     else Fail (Uncaught out_of_range)).
Proof.
  intros Hn.
  assert (E : stoi (to_string n)
              = if n <=? INT_MAX then Ret n else Fail (Uncaught out_of_range)).
  { rewrite stoi_numeric by apply to_string_numeric.
    unfold to_string. rewrite (read_digits_to_string_from 9);
      [reflexivity | reflexivity | unfold UINT_RANGE in Hn; simpl; lia]. }
  split; [exact E|]. split.
  - destruct (setAttribute_scalar u (to_string n) (to_string_nonempty n))
      as (_ & _ & _ & ->).
    rewrite E. destruct (n <=? INT_MAX); [|reflexivity].
    cbn [bind]. rewrite to_uint_small by exact Hn. reflexivity.
  - unfold setAttribute. cbn [string_empty negb assert bind].
    change (String.eqb "follows" "follows") with true. cbv iota.
    rewrite stringArrayToUnsignedIntVector_render
      by (constructor; [apply to_string_occurs; reflexivity | constructor]).
    cbn [convertAll]. rewrite E. destruct (n <=? INT_MAX); [|reflexivity].
    cbn [bind app]. rewrite to_uint_small by exact Hn. reflexivity.
Qed.

Lemma stoi_to_string_witness :
  setAttribute alice "id_str" (to_string 2147483647)
  = Ret (mkUser 2147483647 (name alice) (location alice) (pic_url alice) (follows alice)) /\
  setAttribute alice "id_str" (to_string 3000000000) = Fail (Uncaught out_of_range).
Proof.
  split.
  - destruct (stoi_to_string alice 2147483647) as (_ & E & _);
      [unfold UINT_RANGE; lia | exact E].
  - destruct (stoi_to_string alice 3000000000) as (_ & E & _);
      [unfold UINT_RANGE; lia | exact E].
Defined.

Lemma string_empty_true s : string_empty s = true -> s = EmptyString.
Proof. destruct s; [reflexivity | discriminate]. Qed.

Lemma setAttribute_follows u fs :
  Forall (fun f => 0 <= f <= INT_MAX) fs ->
  setAttribute u "follows" (render (to_string <$> fs))
  = Ret (mkUser (id u) (name u) (location u) (pic_url u) fs).
Proof.
  intros Hfs. unfold setAttribute. cbn [string_empty negb assert bind].
  change (String.eqb "follows" "follows") with true. cbv iota.
  rewrite stringArrayToUnsignedIntVector_render.
  - rewrite convertAll_to_string by exact Hfs. reflexivity.
  - apply Forall_fmap, Forall_forall. intros f _. apply to_string_occurs. reflexivity.
Qed.

Lemma setAttributes_attrs_of id0 u :
  writable u ->
  setAttributes (mkUser id0 EmptyString EmptyString EmptyString []) (attrs_of u) = Ret u.
Proof.
  intros (Hid & Hname & _ & _ & _ & Hfs). unfold attrs_of.
  cbn [app setAttributes raw_value].
  destruct (setAttribute_scalar (mkUser id0 EmptyString EmptyString EmptyString [])
              (to_string (id u)) (to_string_nonempty (id u)))
    as (_ & _ & _ & ->).
  rewrite stoi_to_string_int by exact Hid. cbn [bind].
  rewrite to_uint_small by (unfold INT_MAX, UINT_RANGE in *; lia).
  destruct (setAttribute_scalar
              (mkUser (id u) EmptyString EmptyString EmptyString []) (name u) Hname)
    as (E & _).
  cbn [id name location pic_url follows] in E |- *. rewrite E. clear E. cbn [bind].
  assert (H1 : setAttributes (mkUser (id u) (name u) EmptyString EmptyString [])
                 (if string_empty (location u) then []
                  else [("location", Scalar (location u))])
               = Ret (mkUser (id u) (name u) (location u) EmptyString [])).
  { destruct (string_empty (location u)) eqn:Hl.
    - apply string_empty_true in Hl. rewrite Hl. reflexivity.
    - cbn [setAttributes raw_value].
      destruct (setAttribute_scalar
                  (mkUser (id u) (name u) EmptyString EmptyString []) (location u) Hl)
        as (_ & E & _).
      cbn [id name location pic_url follows] in E. rewrite E. reflexivity. }
  assert (H2 : setAttributes (mkUser (id u) (name u) (location u) EmptyString [])
                 (if string_empty (pic_url u) then []
                  else [("pic_url", Scalar (pic_url u))])
               = Ret (mkUser (id u) (name u) (location u) (pic_url u) [])).
  { destruct (string_empty (pic_url u)) eqn:Hp.
    - apply string_empty_true in Hp. rewrite Hp. reflexivity.
    - cbn [setAttributes raw_value].
      destruct (setAttribute_scalar
                  (mkUser (id u) (name u) (location u) EmptyString []) (pic_url u) Hp)
        as (_ & _ & E & _).
      cbn [id name location pic_url follows] in E. rewrite E. reflexivity. }
  rewrite setAttributes_app, H1. cbn [bind].
  rewrite setAttributes_app, H2. cbn [bind setAttributes raw_value].
  rewrite setAttribute_follows by exact Hfs. cbn [bind id name location pic_url].
  destruct u; reflexivity.
Qed.

Lemma User_of_stream_write_user (id0 : Z) (u : User) (rest : string) :
  writable u ->
  User_of_stream id0 (sstream_of (write_user u rest))
  = Ret (setDefaultAttributesWhenEmpty u).
Proof.
  intros Hu. unfold User_of_stream, write_user.
  rewrite readAttributes_write_attrs.
  - rewrite setAttributes_attrs_of by exact Hu. reflexivity.
  - destruct Hu as (_ & _ & [Hn _] & [Hl _] & [Hp _] & Hfs). unfold attrs_of.
    repeat (apply Forall_app; split); repeat constructor; simpl;
      try (apply to_string_occurs; reflexivity); try assumption.
    + destruct (string_empty (location u)); repeat constructor; simpl; assumption.
    + destruct (string_empty (pic_url u)); repeat constructor; simpl; assumption.
    + apply Forall_fmap, Forall_forall. intros f _. simpl.
      split; apply to_string_occurs; reflexivity.
  - cbn [unread sstream_of]. pose proof (write_attrs_length (attrs_of u) rest). lia.
Qed.

(** X17. A user the format can express, written in it and read back, is
    the user that was written, with the default picture in place of an
    empty picture URL; the garbage the id member held before does not
    show. *)
Theorem user_read_back (id0 : Z) (u : User) (rest : string) :
  writable u ->
  User_of_stream id0 (sstream_of (write_user u rest))
  = Ret (setDefaultAttributesWhenEmpty u).
Proof. apply User_of_stream_write_user. Qed.

Lemma user_read_back_witness :
  writable alice /\
  write_user (mkUser 2 "Bob" EmptyString EmptyString [1]) EmptyString = bob_text /\
  User_of_stream 0 (sstream_of (write_user alice "}")) = Ret alice.
Proof.
  assert (Hw : writable alice).
  { unfold writable, plain, INT_MAX. simpl.
    repeat split; try reflexivity; try lia. repeat constructor; lia. }
  split; [exact Hw|]. split; [reflexivity|].
  rewrite (user_read_back 0 alice "}" Hw). reflexivity.
Defined.

(** *** A file of users, written and read back *)

Lemma write_value_app v (r1 r2 : string) :
  write_value v (r1 +:+ r2) = write_value v r1 +:+ r2.
Proof.
  destruct v as [s|ts]; cbn [write_value];
    rewrite string_app_cons, string_app_assoc, string_app_cons; reflexivity.
Qed.

Lemma write_attr_app t v (r1 r2 : string) :
  write_attr t v (r1 +:+ r2) = write_attr t v r1 +:+ r2.
Proof.
  unfold write_attr. rewrite write_value_app, !string_app_cons, string_app_assoc,
    !string_app_cons. reflexivity.
Qed.

Lemma write_attrs_app attrs (r1 r2 : string) :
  write_attrs attrs (r1 +:+ r2) = write_attrs attrs r1 +:+ r2.
Proof.
  induction attrs as [|[t v] attrs IH]; [reflexivity|].
  cbn [write_attrs]. rewrite IH, <- string_app_cons, write_attr_app. reflexivity.
Qed.

Lemma occurs_brace_write_attrs attrs :
  Forall (fun a : string * attr_value =>
            occurs "}" a.1 = false /\ occurs "}" (raw_value a.2) = false) attrs ->
  occurs "}" (write_attrs attrs EmptyString) = false.
Proof.
  induction 1 as [|[t v] attrs [Ht Hv] _ IH]; [reflexivity|].
  simpl in Ht, Hv. cbn [write_attrs write_attr occurs].
  change (Ascii.eqb NEWLINE "}") with false. change (Ascii.eqb TAB "}") with false.
  change (Ascii.eqb DQUOTE "}") with false. cbn [orb].
  rewrite occurs_app, Ht. cbn [orb occurs].
  change (Ascii.eqb DQUOTE "}") with false. change (Ascii.eqb ":" "}") with false.
  change (Ascii.eqb " " "}") with false. cbn [orb].
  destruct v as [s|ts]; cbn [write_value raw_value occurs] in *.
  - change (Ascii.eqb DQUOTE "}") with false. cbn [orb].
    rewrite occurs_app, Hv. cbn [orb occurs].
    change (Ascii.eqb DQUOTE "}") with false. cbn [orb].
    destruct attrs; cbn [occurs orb]; exact IH.
  - change (Ascii.eqb "[" "}") with false. cbn [orb].
    rewrite occurs_app, Hv. cbn [orb occurs].
    change (Ascii.eqb "]" "}") with false. cbn [orb].
    destruct attrs; cbn [occurs orb]; exact IH.
Qed.

Lemma occurs_brace_write_user u :
  writable u -> occurs "}" (write_user u EmptyString) = false.
Proof.
  intros (_ & _ & [_ Hn] & [_ Hl] & [_ Hp] & _). unfold write_user.
  apply occurs_brace_write_attrs. unfold attrs_of.
  repeat (apply Forall_app; split); repeat constructor; simpl;
    try (apply to_string_occurs; reflexivity); try assumption.
  - destruct (string_empty (location u)); repeat constructor; simpl; assumption.
  - destruct (string_empty (pic_url u)); repeat constructor; simpl; assumption.
  - apply occurs_render; [reflexivity | reflexivity |].
    apply Forall_fmap, Forall_forall. intros f _. apply to_string_occurs. reflexivity.
Qed.

Lemma readUsers_write_users us fuel id0 rest userData st :
  Forall writable us ->
  (length us < fuel)%nat ->
  readUsers fuel id0 (sstream_of (write_users us rest)) userData st
  = ingestAll st (setDefaultAttributesWhenEmpty <$> us).
Proof.
  intros Hus. revert fuel userData st.
  induction Hus as [|u us Hu _ IH]; intros fuel userData st Hlt.
  - destruct fuel; [simpl in Hlt; lia | reflexivity].
  - destruct fuel; [simpl in Hlt; lia|].
    cbn [write_users].
    set (sep := match us with [] => NEWLINE | _ :: _ => ","%char end).
    change (readUsers (S fuel) id0
              (sstream_of (String NEWLINE (String TAB (String "{" ?x)))) userData st)
      with (let '(userData', inFS) := getline (sstream_of x) userData "}" in
            let* newUser := User_of_stream id0 (sstream_of userData') in
            let* st' := ingestUser st newUser in
            readUsers fuel id0 (ignore1 inFS) userData' st').
    unfold write_user at 1.
    change (String "}" (String sep (write_users us rest)))
      with (EmptyString +:+ String "}" (String sep (write_users us rest))).
    rewrite write_attrs_app.
    fold (write_user u EmptyString).
    rewrite getline_token by (apply occurs_brace_write_user; exact Hu).
    rewrite User_of_stream_write_user by exact Hu. cbn [bind fmap list_fmap ingestAll].
    destruct (ingestUser st (setDefaultAttributesWhenEmpty u)) as [st'|f];
      cbn [bind]; [|reflexivity].
    change (ignore1 (sstream_of (String sep (write_users us rest))))
      with (sstream_of (write_users us rest)).
    apply IH. simpl in Hlt. lia.
Qed.

(** X18. A file that lists users the format can express is read into the
    network of those users, in the order the file has them, each with the
    default picture for an empty picture URL: the constructor on the file
    is the constructor on the records. Text before the opening bracket is
    skipped; the loop needs one turn per record and one more. *)
Theorem file_read_back `{StdSort} (fuel : nat) (id0 : Z) (before : string)
    (us : list User) :
  Forall writable us ->
  occurs "[" before = false ->
  (length us < fuel)%nat ->
  SocialNetwork_of_file fuel id0 (Some (before +:+ write_file us))
  = SocialNetwork_of_records (setDefaultAttributesWhenEmpty <$> us).
Proof.
  intros Hus Hb Hfuel. unfold SocialNetwork_of_file, SocialNetwork_of_records, write_file.
  assert (E : ignore_until "[" (sstream_of (before +:+ String "[" (write_users us EmptyString)))
              = sstream_of (write_users us EmptyString)).
  { unfold ignore_until, sstream_of. cbn [good unread].
    rewrite (cut_token _ _ _ Hb). reflexivity. }
  rewrite E, readUsers_write_users by assumption. reflexivity.
Qed.

Lemma file_read_back_witness :
  write_file [mkUser 2 "Bob" EmptyString EmptyString [1];
              mkUser 1 "Alice" "Rohnert Park" EmptyString [2; 3];
              mkUser 3 "Carol" EmptyString EmptyString []]
  = sample_file /\
  @SocialNetwork_of_file stable_StdSort 4 0 (Some sample_file)
  = @SocialNetwork_of_records stable_StdSort [bob; alice; carol].
Proof.
  split; [reflexivity|].
  apply (@file_read_back stable_StdSort 4 0 EmptyString
           [mkUser 2 "Bob" EmptyString EmptyString [1];
            mkUser 1 "Alice" "Rohnert Park" EmptyString [2; 3];
            mkUser 3 "Carol" EmptyString EmptyString []]).
  - unfold writable, plain, INT_MAX.
    repeat constructor; simpl; try reflexivity; try lia.
  - reflexivity.
  - simpl. lia.
Defined.

(** ** SocialNetwork.cpp: the reading loop and the closing bracket *)

Lemma cut_None d s : occurs d s = false -> cut d s = None.
Proof.
  induction s as [|c s IH]; [reflexivity|]. cbn [occurs cut]. intros H.
  apply orb_false_iff in H as [Hc Hs]. rewrite Hc, (IH Hs). reflexivity.
Qed.

Lemma readUsers_exhausted fuel id0 inFS userData st u :
  exhausted inFS ->
  User_of_stream id0 (sstream_of userData) = Ret u ->
  isValid u = true ->
  readUsers fuel id0 inFS userData st = Fail Diverges.
Proof.
  intros Hex Hu Hv. revert inFS st Hex.
  induction fuel as [|fuel IH]; intros inFS st Hex; [reflexivity|].
  assert (Hstep : exists inFS1,
            good inFS1 = false /\
            peek inFS = ((peek inFS).1, (peek inFS).2) /\
            (peek inFS).1 <> Some "]"%char /\
            getline (ignore_until "{" (peek inFS).2) userData "}" = (userData, inFS1)).
  { unfold peek. destruct (good inFS) eqn:Hg.
    - destruct Hex as [Hex|Hex]; [congruence|].
      destruct (unread inFS) as [|c r] eqn:Hun.
      + exists (mkSS EmptyString false). cbn. repeat split; discriminate.
      + destruct Hex as [Hc Hno]. exists (mkSS EmptyString false). cbn [fst snd].
        repeat split; [congruence|].
        unfold ignore_until. rewrite Hg, Hun, (cut_None _ _ Hno). reflexivity.
    - exists inFS. cbn [fst snd]. repeat split; [exact Hg | discriminate |].
      unfold ignore_until. rewrite Hg. unfold getline. rewrite Hg. reflexivity. }
  destruct Hstep as (inFS1 & Hg1 & Hp & Hc & Hgl).
  cbn [readUsers]. rewrite Hp. rewrite bool_decide_eq_false_2 by exact Hc.
  rewrite Hgl, Hu. cbn [bind]. rewrite ingestUser_eq, Hv. cbn [bind].
  replace (ignore1 inFS1) with inFS1 by (unfold ignore1; rewrite Hg1; reflexivity).
  apply IH. left. exact Hg1.
Qed.

(** X19. The reading loop returns only through the closing bracket. When
    a file ends behind the closing brace of a valid record, or goes on with
    one character (which is skipped) and then neither the bracket nor
    another opening brace, the loop builds the last record again from the
    text it kept, turn after turn, without end (in the program, until there
    is no memory left for the users). A carriage return and a line feed
    before the bracket are such a case. *)
Theorem reading_loop_never_ends `{StdSort} (fuel : nat) (id0 : Z)
    (before tail : string) (u : User) :
  occurs "[" before = false ->
  writable u -> 1 <= id u ->
  exhausted (ignore1 (sstream_of tail)) ->
  SocialNetwork_of_file fuel id0
    (Some (before +:+ String "[" (String NEWLINE (String TAB (String "{"
             (write_user u (String "}" tail)))))))
  = Fail Diverges.
Proof.
  intros Hb Hu Hid Hex. unfold SocialNetwork_of_file.
  assert (E : forall x, ignore_until "[" (sstream_of (before +:+ String "[" x))
                        = sstream_of x).
  { intros x. unfold ignore_until, sstream_of. cbn [good unread].
    rewrite (cut_token _ _ _ Hb). reflexivity. }
  rewrite E. destruct fuel; [reflexivity|].
  change (readUsers (S fuel) id0
            (sstream_of (String NEWLINE (String TAB (String "{" ?x)))) EmptyString
            ingest_init)
    with (let '(userData', inFS) := getline (sstream_of x) EmptyString "}" in
          let* newUser := User_of_stream id0 (sstream_of userData') in
          let* st' := ingestUser ingest_init newUser in
          readUsers fuel id0 (ignore1 inFS) userData' st').
  unfold write_user at 1.
  change (String "}" tail) with (EmptyString +:+ String "}" tail).
  rewrite write_attrs_app. fold (write_user u EmptyString).
  rewrite getline_token by (apply occurs_brace_write_user; exact Hu).
  pose proof (User_of_stream_write_user id0 u EmptyString Hu) as Hparse.
  assert (Hvalid : isValid (setDefaultAttributesWhenEmpty u) = true).
  { destruct Hu as (_ & Hname & _). unfold isValid, setDefaultAttributesWhenEmpty.
    destruct (string_empty (pic_url u)); cbn [id name]; rewrite Hname;
      apply andb_true_intro; split; (lia || reflexivity). }
  rewrite Hparse. cbn [bind]. rewrite ingestUser_eq, Hvalid. cbn [bind].
  rewrite (readUsers_exhausted fuel id0 _ _ _ _ Hex Hparse Hvalid). reflexivity.
Qed.

Lemma reading_loop_never_ends_witness :
  @SocialNetwork_of_file stable_StdSort 1000 0
    (Some (String "[" (String NEWLINE (String TAB (String "{"
             (write_user alice (String "}" (String CR (String NEWLINE "]")))))))))
  = Fail Diverges.
Proof.
  apply (@reading_loop_never_ends stable_StdSort 1000 0 EmptyString
           (String CR (String NEWLINE "]")) alice).
  - reflexivity.
  - unfold writable, plain, INT_MAX. simpl.
    repeat split; try reflexivity; try lia. repeat constructor; lia.
  - simpl. lia.
  - right. simpl. split; [discriminate | reflexivity].
Defined.

(** ** SocialNetwork.cpp and main.cpp: the pages *)

(** X20. A file whose list is empty, the closing bracket standing right
    behind the opening one, gives a network without users, and the run ends
    with the report that there are no users and exit(1), no file written. *)
Theorem empty_list_is_refused `{StdSort} (fuel : nat) (id0 : Z)
    (before after : string) (input_filename : string) (args : list string)
    (fs : string -> option string) :
  occurs "[" before = false ->
  fs input_filename = Some (before +:+ String "[" (String "]" after)) ->
  SocialNetwork_of_file (S fuel) id0 (fs input_filename) = Ret (mkNet 0 [] [] []) /\
  main (S fuel) id0 (input_filename :: args) fs
  = ([], Fail (ExitFailure
                 "CANNOT CREATE ALL SOCIAL NETWORK HTML FILES GIVEN ZERO USERS")).
Proof.
  intros Hb Hfs.
  assert (E : SocialNetwork_of_file (S fuel) id0 (fs input_filename)
              = Ret (mkNet 0 [] [] [])).
  { rewrite Hfs. unfold SocialNetwork_of_file.
    assert (E : ignore_until "[" (sstream_of (before +:+ String "[" (String "]" after)))
                = sstream_of (String "]" after)).
    { unfold ignore_until, sstream_of. cbn [good unread].
      rewrite (cut_token _ _ _ Hb). reflexivity. }
    rewrite E. reflexivity. }
  split; [exact E|]. unfold main. rewrite E. reflexivity.
Qed.

Lemma empty_list_is_refused_witness :
  @main stable_StdSort 1 0 ["network.json"] (one_file "users: []")
  = ([], Fail (ExitFailure
                 "CANNOT CREATE ALL SOCIAL NETWORK HTML FILES GIVEN ZERO USERS")).
Proof.
  apply (@empty_list_is_refused stable_StdSort 0 0 "users: " EmptyString
           "network.json" [] (one_file "users: []")); reflexivity.
Defined.

Lemma forEach_Ret {A} (f : A -> outcome unit) (l : list A) :
  Forall (fun a => f a = Ret tt) l -> forEach f l = Ret tt.
Proof.
  induction 1 as [|a l Ha _ IH]; [reflexivity|]. simpl. rewrite Ha. exact IH.
Qed.

Lemma at_id_Ret {A} (v : list A) (i : Z) :
  1 <= i <= Z.of_nat (length v) -> Z.of_nat (length v) < UINT_RANGE ->
  exists a, at_id v i = Ret a /\ v !! Z.to_nat (i - 1) = Some a.
Proof.
  intros Hi Hlen. unfold at_id. rewrite to_uint_small by lia.
  destruct (lookup_lt_is_Some_2 v (Z.to_nat (i - 1))) as [a Ha]; [lia|].
  rewrite Ha. eauto.
Qed.

Lemma addHTMLUnorderedUserList_Ret (names : list string) (ids : list Z) :
  Z.of_nat (length names) < UINT_RANGE ->
  Forall (fun o => 1 <= o <= Z.of_nat (length names)) ids ->
  addHTMLUnorderedUserList names ids = Ret tt.
Proof.
  intros Hlen Hids. unfold addHTMLUnorderedUserList. apply forEach_Ret.
  eapply Forall_impl; [exact Hids|]. simpl. intros o Ho.
  destruct (at_id_Ret names o Ho Hlen) as (a & -> & _). reflexivity.
Qed.

Lemma at_id_refused {A} (v : list A) (i : Z) :
  is_uint i -> Z.of_nat (length v) < 2 ^ 31 ->
  i = 0 \/ Z.of_nat (length v) < i ->
  at_id v i = Fail (Uncaught out_of_range).
Proof.
  intros Hi Hlen Hout. unfold at_id, is_uint, UINT_RANGE in *.
  rewrite lookup_ge_None_2; [reflexivity|].
  destruct Hout as [->|Hout].
  - change (to_uint (0 - 1)) with 4294967295. lia.
  - rewrite to_uint_small by (unfold UINT_RANGE; lia). lia.
Qed.

Lemma addHTMLUnorderedUserList_outcome (names : list string) (ids : list Z) :
  Z.of_nat (length names) < 2 ^ 31 ->
  Forall is_uint ids ->
  addHTMLUnorderedUserList names ids =
    if forallb (fun o => (1 <=? o) && (o <=? Z.of_nat (length names))) ids
    then Ret tt else Fail (Uncaught out_of_range).
Proof.
  intros Hlen Hids. unfold addHTMLUnorderedUserList.
  induction Hids as [|o ids Ho _ IH]; [reflexivity|].
  cbn [forEach forallb].
  destruct ((1 <=? o) && (o <=? Z.of_nat (length names))) eqn:E.
  - apply andb_prop in E as [E1 E2]. apply Z.leb_le in E1, E2.
    destruct (at_id_Ret names o) as (a & -> & _);
      [lia | unfold UINT_RANGE; lia|].
    cbn [bind andb]. exact IH.
  - rewrite at_id_refused; [reflexivity | assumption | assumption |].
    unfold is_uint in Ho. apply andb_false_iff in E as [E|E].
    + apply Z.leb_gt in E. left. lia.
    + apply Z.leb_gt in E. right. lia.
Qed.

(** One turn of the loop of [createAllUserHTMLPAGES]: the page is opened,
    and the turn fails where the follows list names no user. *)
Lemma userPages_cons (sn : SocialNetwork) (c : Z) (rest : list Z) (u : User) :
  square sn ->
  numUsers sn = Z.of_nat (length (users sn)) ->
  numUsers sn < 2 ^ 31 ->
  length (userNames sn) = length (users sn) ->
  1 <= c <= numUsers sn ->
  users sn !! Z.to_nat (c - 1) = Some u ->
  isValid u = true -> Forall is_uint (follows u) ->
  userPages sn (c :: rest) =
    if forallb (fun f => (1 <=? f) && (f <=? numUsers sn)) (follows u)
    then let '(out', r) := userPages sn rest in (UserHtml (id u) :: out', r)
    else ([UserHtml (id u)], Fail (Uncaught out_of_range)).
Proof.
  intros Hsq Hn Hlt Hnames Hc Hu Hv Hfs.
  cbn [userPages].
  destruct (at_id_Ret (users sn) c) as (u' & -> & Hu');
    [lia | unfold UINT_RANGE; lia|].
  assert (u' = u) as -> by congruence.
  rewrite (getFollowerAndMutualsFromId_square sn [] [] c Hsq Hc). cbn [app].
  unfold generateUserHTMLProfilePage. rewrite Hv.
  assert (Hrange : forall l, l `sublist_of` seqZ 1 (numUsers sn) ->
            Forall (fun o => 1 <= o <= Z.of_nat (length (userNames sn))) l).
  { intros l Hl. apply Forall_forall. intros o Ho.
    pose proof (elem_of_sublist _ _ _ Ho Hl) as Ho'. apply elem_of_seqZ_1 in Ho'. lia. }
  rewrite (addHTMLUnorderedUserList_outcome (userNames sn) (follows u))
    by (try assumption; lia).
  replace (Z.of_nat (length (userNames sn))) with (numUsers sn) by lia.
  destruct (forallb (fun f => (1 <=? f) && (f <=? numUsers sn)) (follows u));
    [|reflexivity].
  cbn [bind].
  rewrite !addHTMLUnorderedUserList_Ret; try (rewrite Hnames; unfold UINT_RANGE; lia).
  - destruct (userPages sn rest) as [out' r]. reflexivity.
  - apply Hrange. unfold spec_mutuals, spec_followers.
    etrans; apply sublist_filter.
  - apply Hrange. apply sublist_filter.
Qed.

Lemma forallb_in_range (N : Z) (fs : list Z) :
  forallb (fun f => (1 <=? f) && (f <=? N)) fs = true
  <-> Forall (fun f => 1 <= f <= N) fs.
Proof.
  rewrite forallb_forall, Forall_forall. split; intros Hall f Hf.
  - apply list_elem_of_In in Hf. specialize (Hall f Hf).
    apply andb_prop in Hall as [H1 H2]. apply Z.leb_le in H1, H2. lia.
  - apply list_elem_of_In in Hf. specialize (Hall f Hf).
    apply andb_true_intro. split; apply Z.leb_le; lia.
Qed.

(** The loop over the positions of [us], which stand behind the users
    [before]: as long as the followed ids name users, each turn adds its
    page and goes on. *)
Lemma userPages_section (sn : SocialNetwork) (before us : list User) :
  square sn ->
  numUsers sn = Z.of_nat (length (users sn)) ->
  numUsers sn < 2 ^ 31 ->
  length (userNames sn) = length (users sn) ->
  Forall (fun u => isValid u = true /\ Forall is_uint (follows u)) (users sn) ->
  (exists rest, users sn = before ++ us ++ rest) ->
  (Forall (fun u => Forall (fun f => 1 <= f <= numUsers sn) (follows u)) us ->
   forall ids,
     userPages sn (seqZ (Z.of_nat (length before) + 1) (Z.of_nat (length us)) ++ ids)
     = let '(out', r) := userPages sn ids in
       (((fun u => UserHtml (id u)) <$> us) ++ out', r)).
Proof.
  intros Hsq Hn Hlt Hnames Husers. revert before.
  induction us as [|u us IH]; intros before [rest Hsplit] Hgood ids.
  - rewrite seqZ_nil by (simpl; lia). cbn [app fmap list_fmap].
    destruct (userPages sn ids). reflexivity.
  - apply Forall_cons in Hgood as [Hu Hgood].
    rewrite seqZ_cons by (cbn [length]; lia). cbn [app].
    assert (Hlook : users sn !! length before = Some u).
    { rewrite Hsplit. rewrite lookup_app_r by lia.
      replace (length before - length before)%nat with 0%nat by lia. reflexivity. }
    assert (Hin : u ∈ users sn) by (eapply list_elem_of_lookup_2; eauto).
    rewrite Forall_forall in Husers. destruct (Husers u Hin) as [Hv Hfs].
    assert (Hlen : (length before < length (users sn))%nat)
      by (eapply lookup_lt_Some; eauto).
    rewrite (userPages_cons sn _ _ u); try assumption; [| lia |].
    2:{ replace (Z.to_nat (Z.of_nat (length before) + 1 - 1)) with (length before) by lia.
        exact Hlook. }
    apply forallb_in_range in Hu. rewrite Hu.
    replace (Z.succ (Z.of_nat (length before) + 1))
      with (Z.of_nat (length (before ++ [u])) + 1)
      by (rewrite length_app; simpl; lia).
    replace (Z.pred (Z.of_nat (length (u :: us)))) with (Z.of_nat (length us))
      by (simpl; lia).
    rewrite (IH (before ++ [u])).
    + destruct (userPages sn ids) as [out' r]. reflexivity.
    + exists rest. rewrite Hsplit, <- app_assoc. reflexivity.
    + assumption.
Qed.

(** X21. Page generation on a network of N users, N at least 1, all
    valid, with N names and a matrix of N rows of N cells, which is the
    shape the constructor gives a network. When every followed id of every
    user is in 1..N it cannot fail: it writes [index.html] and then one page
    per user, in the order of the collection, each named after its user's
    id. A followed id that is 0 or greater than N, which nothing in the
    constructor checks for, ends it in the [out_of_range] of
    [userNames.at(id - 1)], uncaught, in the page of the first user that has
    one: [index.html] and the pages up to that user's have been opened by
    then. A network the constructor of this development returns has every
    followed id in 1..N. *)
Theorem pages_of_assembled_network (sn : SocialNetwork) :
  numUsers sn = Z.of_nat (length (users sn)) ->
  1 <= numUsers sn < 2 ^ 31 ->
  length (userNames sn) = length (users sn) ->
  square sn ->
  Forall (fun u => isValid u = true /\ Forall is_uint (follows u)) (users sn) ->
  (Forall (fun u => Forall (fun f => 1 <= f <= numUsers sn) (follows u)) (users sn) ->
   createAllHTMLFiles sn
   = (IndexHtml :: ((fun u => UserHtml (id u)) <$> users sn), Ret tt)) /\
  (forall good bad rest,
     users sn = good ++ bad :: rest ->
     Forall (fun u => Forall (fun f => 1 <= f <= numUsers sn) (follows u)) good ->
     (exists f, f ∈ follows bad /\ (f = 0 \/ numUsers sn < f)) ->
     createAllHTMLFiles sn
     = (IndexHtml :: ((fun u => UserHtml (id u)) <$> good ++ [bad]),
        Fail (Uncaught out_of_range))) /\
  (forall (S : StdSort) (records : list User),
     forallb fits records = true ->
     @SocialNetwork_of_records S records = Ret sn ->
     Forall (fun u => Forall (fun f => 1 <= f <= numUsers sn) (follows u)) (users sn)).
Proof.
  intros HN Hlt Hnames Hsq Husers.
  assert (Hindex : createAllHTMLFiles sn
                   = let '(out', r) := userPages sn (seqZ 1 (numUsers sn)) in
                     (IndexHtml :: out', r)).
  { unfold createAllHTMLFiles.
    assert (E1 : (numUsers sn <? 1) = false) by lia. rewrite E1.
    unfold createIndexHTMLFile. rewrite forEach_Ret.
    2:{ eapply Forall_impl; [apply seqZ_in_range|]. simpl. intros c Hc.
        destruct (at_id_Ret (userNames sn) c) as (a & -> & _);
          [lia | unfold UINT_RANGE; lia | reflexivity]. }
    unfold createAllUserHTMLPAGES.
    destruct (users sn) as [|u0 us0] eqn:Hus; [simpl in HN; lia|].
    destruct (userPages sn (seqZ 1 (numUsers sn))) as [out' r]. reflexivity. }
  split; [|split].
  - intros Hgood. rewrite Hindex.
    pose proof (userPages_section sn [] (users sn) Hsq HN ltac:(lia) Hnames Husers)
      as Hsec.
    specialize (Hsec ltac:(exists []; rewrite app_nil_r; reflexivity) Hgood []).
    rewrite app_nil_r in Hsec. cbn [length Nat.add] in Hsec.
    change (Z.of_nat 0 + 1) with 1 in Hsec. rewrite <- HN in Hsec.
    rewrite Hsec. cbn [userPages]. rewrite app_nil_r. reflexivity.
  - intros good bad rest Hsplit Hgood (f & Hf & Hout). rewrite Hindex.
    assert (Hids : seqZ 1 (numUsers sn)
                   = seqZ (Z.of_nat (length (@nil User)) + 1) (Z.of_nat (length good))
                     ++ (Z.of_nat (length good) + 1)
                        :: seqZ (Z.of_nat (length good) + 2) (Z.of_nat (length rest))).
    { rewrite HN, Hsplit, length_app. cbn [length].
      replace (Z.of_nat (length good + S (length rest)))
        with (Z.of_nat (length good) + Z.succ (Z.of_nat (length rest))) by lia.
      rewrite seqZ_app by lia. f_equal.
      rewrite seqZ_cons by lia. f_equal; [lia|]. f_equal; lia. }
    rewrite Hids.
    rewrite (userPages_section sn [] good Hsq HN ltac:(lia) Hnames Husers
               ltac:(exists (bad :: rest); exact Hsplit) Hgood).
    assert (Hlook : users sn !! length good = Some bad).
    { rewrite Hsplit. rewrite lookup_app_r by lia.
      replace (length good - length good)%nat with 0%nat by lia. reflexivity. }
    assert (Hin : bad ∈ users sn) by (eapply list_elem_of_lookup_2; eauto).
    rewrite Forall_forall in Husers. destruct (Husers bad Hin) as [Hv Hfs].
    assert (Hlen : (length good < length (users sn))%nat)
      by (eapply lookup_lt_Some; eauto).
    rewrite (userPages_cons sn _ _ bad); try assumption; [| lia | lia |].
    2:{ replace (Z.to_nat (Z.of_nat (length good) + 1 - 1)) with (length good) by lia.
        exact Hlook. }
    assert (Hbad : forallb (fun f => (1 <=? f) && (f <=? numUsers sn)) (follows bad)
                   = false).
    { apply not_true_iff_false. intros Hall. apply forallb_in_range in Hall.
      rewrite Forall_forall in Hall. specialize (Hall f Hf). lia. }
    rewrite Hbad. rewrite fmap_app. reflexivity.
  - intros S records Hfits Hsn.
    pose proof (@SocialNetwork_of_records_Ret S _ _ Hsn) as (Hn & _ & Hperm & Hvalid).
    apply Forall_forall. intros u Hu.
    pose proof Hu as Hu'. rewrite Hperm in Hu'. apply list_elem_of_In in Hu'.
    rewrite forallb_forall in Hvalid, Hfits.
    destruct (fits_inv u (Hfits u Hu')) as (_ & Hfs & Hlen).
    apply list_elem_of_lookup in Hu as [i Hi].
    pose proof (lookup_lt_Some _ _ _ Hi) as Hil.
    destruct (@SocialNetwork_of_records_rows S records sn (Z.of_nat i) Hsn)
      as (row & nm & Hrow & _); [lia|].
    rewrite (buildRow_valid _ _ _ u) in Hrow;
      [| rewrite Nat2Z.id; assumption | auto | unfold UINT_RANGE; lia].
    inv_bind Hrow. apply Forall_forall. intros f Hf.
    pose proof (markAll_Ret_range _ _ _ Ha f Hf) as Hr.
    rewrite length_replicate in Hr. specialize (Hfs f Hf).
    destruct (decide (f = 0)) as [->|Hne].
    + change (to_uint (0 - 1)) with 4294967295 in Hr. lia.
    + rewrite to_uint_small in Hr by (unfold UINT_RANGE in *; lia). lia.
Qed.

Lemma pages_of_assembled_network_witness :
  createAllHTMLFiles trio_net
  = ([IndexHtml; UserHtml 1; UserHtml 2; UserHtml 3], Ret tt) /\
  createAllHTMLFiles dave_net
  = ([IndexHtml; UserHtml 1; UserHtml 2; UserHtml 3], Fail (Uncaught out_of_range)).
Proof.
  assert (Hshape : forall sn, sn = trio_net \/ sn = dave_net ->
            numUsers sn = Z.of_nat (length (users sn)) /\
            1 <= numUsers sn < 2 ^ 31 /\
            length (userNames sn) = length (users sn) /\
            square sn /\
            Forall (fun u => isValid u = true /\ Forall is_uint (follows u)) (users sn)).
  { intros sn [->| ->];
      (split; [reflexivity|]; split; [simpl; lia|]; split; [reflexivity|];
       split; [split; [reflexivity | repeat constructor]|];
       repeat constructor; unfold is_uint, UINT_RANGE; lia). }
  split.
  - destruct (Hshape trio_net (or_introl eq_refl)) as (H1 & H2 & H3 & H4 & H5).
    destruct (pages_of_assembled_network trio_net H1 H2 H3 H4 H5) as (Hall & _).
    apply Hall. repeat constructor; simpl; lia.
  - destruct (Hshape dave_net (or_intror eq_refl)) as (H1 & H2 & H3 & H4 & H5).
    destruct (pages_of_assembled_network dave_net H1 H2 H3 H4 H5) as (_ & Hfirst & _).
    apply (Hfirst [alice; bob] dave []); [reflexivity | |].
    + repeat constructor; simpl; lia.
    + exists 4. split; [right; left | right; simpl; lia].
Defined.

(** ** User.cpp: how the builder can end *)

Lemma stoi_Fail s f : stoi s = Fail f -> exists e, f = Uncaught e.
Proof.
  unfold stoi.
  destruct (match skip_spaces s with
            | String c s' =>
                if Ascii.eqb c "-" then (true, s')
                else if Ascii.eqb c "+" then (false, s') else (false, skip_spaces s)
            | EmptyString => (false, skip_spaces s)
            end) as [negative s2].
  destruct (read_digits s2 None) as [v|]; [|intros H; injection H as <-; eauto].
  destruct ((INT_MIN <=? (if negative then - v else v))
            && ((if negative then - v else v) <=? INT_MAX)); [discriminate|].
  intros H. injection H as <-. eauto.
Qed.

Lemma parseIds_Fail fuel ss val_str arr f :
  parseIds fuel ss val_str arr = Fail f -> f = Diverges \/ exists e, f = Uncaught e.
Proof.
  revert ss val_str arr. induction fuel as [|fuel IH]; intros ss val_str arr H.
  { injection H as <-. auto. }
  rewrite parseIds_S in H. destruct (peek ss) as [c ss1].
  destruct (is_comma_or_quote c); [|discriminate].
  destruct (getline (ignore_until DQUOTE ss1) val_str DQUOTE) as [v ss2].
  destruct (stoi v) as [x|e] eqn:Hs; cbn [bind] in H.
  - eapply IH. exact H.
  - injection H as <-. right. eapply stoi_Fail. exact Hs.
Qed.

Lemma setAttribute_Fail u title data f :
  setAttribute u title data = Fail f -> builder_failure f.
Proof.
  unfold setAttribute, builder_failure.
  destruct (string_empty title); cbn [negb assert bind];
    [intros H; injection H as <-; auto|].
  destruct (String.eqb title "follows").
  { destruct (stringArrayToUnsignedIntVector data) as [l|e] eqn:Hp; cbn [bind];
      [discriminate|].
    intros H. injection H as <-.
    destruct (parseIds_Fail _ _ _ _ _ Hp) as [->|He]; [|auto].
    exfalso. eapply stringArrayToUnsignedIntVector_no_Diverges. exact Hp. }
  destruct (string_empty data); cbn [negb assert bind];
    [intros H; injection H as <-; auto|].
  destruct (String.eqb title "id_str").
  { destruct (stoi data) as [v|e] eqn:Hs; cbn [bind]; [discriminate|].
    intros H. injection H as <-. right. right. eapply stoi_Fail. exact Hs. }
  repeat match goal with
         | |- context [String.eqb ?a ?b] => destruct (String.eqb a b)
         end; try discriminate.
  intros H. injection H as <-. right. left. eauto.
Qed.

Lemma setAttribute_uint id0 u title data u' :
  Forall is_uint (follows u) -> (is_uint id0 -> is_uint (id u)) ->
  setAttribute u title data = Ret u' ->
  Forall is_uint (follows u') /\ (is_uint id0 -> is_uint (id u')).
Proof.
  intros Hf Hid H. rewrite setAttribute_read_field in H. inv_bind H. injection H as <-.
  unfold read_field in Ha. inv_bind Ha.
  destruct (String.eqb title "follows").
  { inv_bind Ha. injection Ha as <-. cbn [set_field follows id]. split; [|exact Hid].
    eapply (parseIds_uint _ _ _ []); [constructor | exact Ha1]. }
  inv_bind Ha.
  destruct (String.eqb title "id_str").
  { inv_bind Ha. injection Ha as <-. cbn [set_field follows id].
    split; [exact Hf | intros _; apply to_uint_range]. }
  repeat match type of Ha with
         | context [String.eqb ?a ?b] => destruct (String.eqb a b)
         end; try discriminate; injection Ha as <-; cbn [set_field follows id]; auto.
Qed.

Lemma readAttributes_outcome id0 fuel ss u :
  Forall is_uint (follows u) -> (is_uint id0 -> is_uint (id u)) ->
  match readAttributes fuel ss u with
  | Ret u' => Forall is_uint (follows u') /\ (is_uint id0 -> is_uint (id u'))
  | Fail f => f = Diverges \/ builder_failure f
  end.
Proof.
  revert ss u. induction fuel as [|fuel IH]; intros ss u Hf Hid; [simpl; auto|].
  cbn [readAttributes]. destruct (good ss); [|auto].
  destruct (peek ss) as [c ss1].
  destruct (bool_decide (c = Some TAB)); [auto|].
  destruct (getAttributeTitle ss1) as [title ss2].
  destruct (getAttributeData ss2) as [[data ss3]|f] eqn:Hd; cbn [bind].
  - destruct (setAttribute u title data) as [u'|f] eqn:Hs; cbn [bind].
    + destruct (setAttribute_uint id0 _ _ _ _ Hf Hid Hs) as [Hf' Hid']. apply IH; assumption.
    + right. eapply setAttribute_Fail. exact Hs.
  - right. left. revert Hd. unfold getAttributeData.
    destruct (peek (ignore1 (ignore_until ":" ss2))) as [c' s1]. unfold assert.
    destruct (match c' with
              | Some c0 => Ascii.eqb c0 DQUOTE || Ascii.eqb c0 "["
              | None => false
              end); cbn [bind]; [|congruence].
    destruct (get s1). discriminate.
Qed.

(** X22. How the record builder can end, whatever text it is given: with
    a user whose followed ids are [unsigned int]s (and whose id is one, if
    the member was one before), or with one of three failures: a failed
    assertion, the report of an unrecognised attribute, an uncaught
    exception of [stoi]. It never runs on without end and never indexes
    out of range. *)
Theorem builder_outcomes (id0 : Z) (ss : sstream) :
  (forall u, User_of_stream id0 ss = Ret u ->
     Forall is_uint (follows u) /\ (is_uint id0 -> is_uint (id u))) /\
  (forall f, User_of_stream id0 ss = Fail f ->
     builder_failure f /\ f <> Diverges /\ f <> UndefinedBehaviour).
Proof.
  pose proof (readAttributes_outcome id0 (S (String.length (unread ss))) ss
                (mkUser id0 EmptyString EmptyString EmptyString [])
                ltac:(constructor) ltac:(auto)) as Hout.
  pose proof (User_of_stream_no_Diverges id0 ss) as Hnd.
  unfold User_of_stream in *.
  destruct (readAttributes _ ss _) as [u0|f0]; cbn [bind] in *.
  - split; [|discriminate]. intros u Hu. injection Hu as <-.
    unfold setDefaultAttributesWhenEmpty.
    destruct (string_empty (pic_url u0)); cbn [follows id]; exact Hout.
  - split; [discriminate|]. intros f Hf. injection Hf as <-.
    destruct Hout as [->|Hb]; [congruence|].
    split; [exact Hb|]. split; [congruence|].
    destruct Hb as [->|[[t ->]|[e ->]]]; discriminate.
Qed.

Lemma builder_outcomes_witness :
  User_of_stream 0 (sstream_of bob_text) = Ret bob /\
  Forall is_uint (follows bob) /\
  User_of_stream 0 (sstream_of "no attribute") = Fail AssertionFailed /\
  builder_failure AssertionFailed.
Proof.
  assert (H1 : User_of_stream 0 (sstream_of bob_text) = Ret bob) by reflexivity.
  assert (H2 : User_of_stream 0 (sstream_of "no attribute") = Fail AssertionFailed)
    by reflexivity.
  split; [exact H1|].
  split; [apply (proj1 (builder_outcomes 0 (sstream_of bob_text)) bob H1)|].
  split; [exact H2|].
  apply (proj2 (builder_outcomes 0 (sstream_of "no attribute")) AssertionFailed H2).
Defined.

(** ** User.cpp: where a value has to begin *)

(** X23. [getAttributeData] skips to the colon and one character more,
    whatever that is, and asserts that the next one opens a value. When the
    text ends there, or goes on with anything but a double quote or an
    opening bracket (a second space, a number without quotes), the
    assertion fails. *)
Theorem value_must_open_behind_colon (before tail : string) :
  occurs ":" before = false ->
  match tail with
  | String _ (String c _) => Ascii.eqb c DQUOTE = false /\ Ascii.eqb c "[" = false
  | _ => True
  end ->
  getAttributeData (sstream_of (before +:+ String ":" tail)) = Fail AssertionFailed.
Proof.
  intros Hb Htail. unfold getAttributeData.
  assert (E : ignore_until ":" (sstream_of (before +:+ String ":" tail))
              = sstream_of tail).
  { unfold ignore_until, sstream_of. cbn [good unread].
    rewrite (cut_token _ _ _ Hb). reflexivity. }
  rewrite E. destruct tail as [|c1 [|c2 rest]]; [reflexivity | reflexivity |].
  destruct Htail as [H1 H2].
  change (ignore1 (sstream_of (String c1 (String c2 rest))))
    with (sstream_of (String c2 rest)).
  rewrite peek_sstream_of_cons, H1, H2. reflexivity.
Qed.

Lemma value_must_open_behind_colon_witness :
  getAttributeData (sstream_of (": 7," : string)) = Fail AssertionFailed /\
  getAttributeData (sstream_of (":  " +:+ render ["Al"])) = Fail AssertionFailed.
Proof.
  split.
  - apply (value_must_open_behind_colon EmptyString " 7,"); [reflexivity|].
    split; reflexivity.
  - apply (value_must_open_behind_colon EmptyString ("  " +:+ render ["Al"]));
      [reflexivity|]. split; reflexivity.
Defined.
